(** * universal-scraper: content detection, orchestration and PDF chunking

    A shallow embedding of [universal_scraper.py] and the properties its
    specification states about it.

    Conventions of the embedding.
    - A Python [str] is a list of characters; a character is a code point
      below 256 (Rocq's [ascii]), classified as Python classifies the
      Latin-1 range ([str.lower], [str.isspace], the [re] classes).
    - [len], indices and slice bounds are integers ([Z]) wherever the source
      computes with them, because Python indices may go negative.
    - Calls into third-party libraries (BeautifulSoup, markdownify, the
      browser drivers, the network) are parameters of the functions that
      use them; the regular expressions of the source are embedded as
      syntax trees and run by a backtracking matcher. *)

From Stdlib Require Import Ascii String List Bool Arith ZArith Lia QArith.
From Stdlib Require Import DecimalString.
Import ListNotations.
Close Scope Q_scope.

(** ** Characters *)

Module Chr.

Local Open Scope N_scope.

Definition code (c : ascii) : N := N_of_ascii c.

Definition between (lo hi : N) (c : ascii) : bool :=
  (lo <=? code c) && (code c <=? hi).

Definition is_upper_ascii (c : ascii) : bool := between 65 90 c.
Definition is_lower_ascii (c : ascii) : bool := between 97 122 c.
Definition is_digit (c : ascii) : bool := between 48 57 c.

(** Upper-case letters of Latin-1 beyond ASCII: U+00C0..U+00DE but the
    multiplication sign U+00D7. *)
Definition is_upper_latin1 (c : ascii) : bool :=
  between 192 214 c || between 216 222 c.

(** [str.lower] on one character. *)
Definition lower (c : ascii) : ascii :=
  if is_upper_ascii c || is_upper_latin1 c
  then ascii_of_N (code c + 32) else c.

(** [str.isspace], which is also the class [\s] of [re] on [str]. *)
Definition is_space (c : ascii) : bool :=
  between 9 13 c || between 28 32 c || (code c =? 133) || (code c =? 160).

(** The class [\w] of [re] on [str]: alphanumeric or underscore. *)
Definition is_word (c : ascii) : bool :=
  is_digit c || is_upper_ascii c || is_lower_ascii c || (code c =? 95)
  || (code c =? 170) || (code c =? 178) || (code c =? 179) || (code c =? 181)
  || between 185 186 c || between 188 190 c
  || between 192 214 c || between 216 246 c || between 248 255 c.

Definition eqb (a b : ascii) : bool := Ascii.eqb a b.

(** The newline character. *)
Definition nl : ascii := ascii_of_N 10.

End Chr.

(** ** Python strings *)

Definition str := list ascii.

Definition lit (s : string) : str := list_ascii_of_string s.

Definition len (s : str) : Z := Z.of_nat (length s).

Module Py.

(** [s.lower()] *)
Definition lower (s : str) : str := map Chr.lower s.

Fixpoint str_eqb (a b : str) : bool :=
  match a, b with
  | [], [] => true
  | x :: a', y :: b' => Chr.eqb x y && str_eqb a' b'
  | _, _ => false
  end.

(** [s.startswith(p)] *)
Fixpoint startswith (p s : str) : bool :=
  match p, s with
  | [], _ => true
  | x :: p', y :: s' => Chr.eqb x y && startswith p' s'
  | _ :: _, [] => false
  end.

(** [sub in s] *)
Fixpoint contains (sub s : str) : bool :=
  startswith sub s ||
  match s with
  | [] => false
  | _ :: s' => contains sub s'
  end.

(** [any(p in s for p in ps)] *)
Definition any_in (ps : list str) (s : str) : bool :=
  existsb (fun p => contains p s) ps.

(** [s.lstrip()], [s.rstrip()], [s.strip()] *)
Fixpoint lstrip (s : str) : str :=
  match s with
  | c :: s' => if Chr.is_space c then lstrip s' else s
  | [] => []
  end.

Definition rstrip (s : str) : str := rev (lstrip (rev s)).

Definition strip (s : str) : str := rstrip (lstrip s).

(** Normalisation of a slice bound: a negative bound counts from the end,
    and the result is clamped to [0, len]. *)
Definition clamp (n : Z) (i : Z) : Z :=
  let j := if (i <? 0)%Z then (i + n)%Z else i in
  Z.max 0 (Z.min n j).

(** [s[a:b]] *)
Definition slice (s : str) (a b : Z) : str :=
  let n := len s in
  let a' := clamp n a in
  let b' := clamp n b in
  firstn (Z.to_nat (b' - a')) (skipn (Z.to_nat a') s).

(** [s[:n]] for a literal [n >= 0] *)
Definition prefix (n : nat) (s : str) : str := firstn n s.

(** [s[i]]: [None] stands for [IndexError]. *)
Definition index (s : str) (i : Z) : option ascii :=
  let n := len s in
  let j := if (i <? 0)%Z then (i + n)%Z else i in
  if ((0 <=? j) && (j <? n))%Z then nth_error s (Z.to_nat j) else None.

(** [str(n)] for a natural number *)
Definition str_of_nat (n : nat) : str :=
  lit (NilEmpty.string_of_uint (Nat.to_uint n)).

End Py.

(** ** Regular expressions

    The fragment of Python's [re] syntax that the source uses: character
    classes, greedy repetition of a class, concatenation, ordered
    alternation and the zero-width assertions [\b] and [^].  Matching is by
    backtracking: [ends r cur] lists, most preferred first, every cursor at
    which a match of [r] starting at [cur] can stop; the head of the list is
    the match Python reports. *)

Module Re.

Definition cls := ascii -> bool.

Inductive regex : Type :=
| Empty : regex
| Lit : cls -> regex
| Rep : cls -> nat -> regex          (* [c{n,}], greedy; [c*], [c+] *)
| Cat : regex -> regex -> regex
| Alt : regex -> regex -> regex
| WordB : regex                      (* [\b] *)
| Bol : bool -> regex.               (* [^]; the flag is [re.MULTILINE] *)

(** A cursor: the character just before the position, and the rest of the
    subject from the position on. *)
Definition cursor := (option ascii * str)%type.

Definition word_before (c : cursor) : bool :=
  match fst c with Some x => Chr.is_word x | None => false end.

Definition word_after (c : cursor) : bool :=
  match snd c with x :: _ => Chr.is_word x | [] => false end.

Fixpoint rep_ends (p : cls) (lo : nat) (prev : option ascii) (s : str)
  : list cursor :=
  let stop := if lo =? 0 then [(prev, s)] else [] in
  match s with
  | c :: s' => if p c then rep_ends p (pred lo) (Some c) s' ++ stop else stop
  | [] => stop
  end.

Fixpoint ends (r : regex) (cur : cursor) : list cursor :=
  match r with
  | Empty => [cur]
  | Lit p =>
      match snd cur with
      | c :: s' => if p c then [(Some c, s')] else []
      | [] => []
      end
  | Rep p lo => rep_ends p lo (fst cur) (snd cur)
  | Cat r1 r2 => flat_map (ends r2) (ends r1 cur)
  | Alt r1 r2 => ends r1 cur ++ ends r2 cur
  | WordB => if xorb (word_before cur) (word_after cur) then [cur] else []
  | Bol multiline =>
      match fst cur with
      | None => [cur]
      | Some c => if multiline && Chr.eqb c Chr.nl then [cur] else []
      end
  end.

(** Length of the preferred match at a cursor, if any. *)
Definition match_here (r : regex) (cur : cursor) : option nat :=
  match ends r cur with
  | (_, rest) :: _ => Some (length (snd cur) - length rest)
  | [] => None
  end.

(** [re.search(r, s)]: the span [(start, stop)] of the leftmost match. *)
Fixpoint search_from (r : regex) (prev : option ascii) (s : str) (pos : nat)
  : option (nat * nat) :=
  match match_here r (prev, s) with
  | Some n => Some (pos, pos + n)
  | None =>
      match s with
      | c :: s' => search_from r (Some c) s' (S pos)
      | [] => None
      end
  end.

Definition search (r : regex) (s : str) : option (nat * nat) :=
  search_from r None s 0.

(** [bool(re.search(r, s))] *)
Definition found (r : regex) (s : str) : bool :=
  match search r s with Some _ => true | None => false end.

(** [re.finditer(r, s)] as the list of spans of the successive
    non-overlapping matches.  [skip] counts the characters of the current
    match still to be passed over.  (After an empty match the scan moves on
    by one character; no pattern of the source matches the empty string.) *)
Fixpoint finditer_from (r : regex) (prev : option ascii) (s : str)
    (pos skip : nat) : list (nat * nat) :=
  match skip with
  | S k =>
      match s with
      | c :: s' => finditer_from r (Some c) s' (S pos) k
      | [] => []
      end
  | O =>
      match match_here r (prev, s) with
      | Some n =>
          (pos, pos + n) ::
          match s with
          | c :: s' => finditer_from r (Some c) s' (S pos) (pred n)
          | [] => []
          end
      | None =>
          match s with
          | c :: s' => finditer_from r (Some c) s' (S pos) 0
          | [] => []
          end
      end
  end.

Definition finditer (r : regex) (s : str) : list (nat * nat) :=
  finditer_from r None s 0 0.

(** [re.sub(r, repl, s)] for a replacement text without group references. *)
Fixpoint sub_from (r : regex) (repl : str) (prev : option ascii) (s : str)
    (skip : nat) : str :=
  match skip with
  | S k =>
      match s with
      | c :: s' => sub_from r repl (Some c) s' k
      | [] => []
      end
  | O =>
      match match_here r (prev, s) with
      | Some (S k) =>
          repl ++
          match s with
          | c :: s' => sub_from r repl (Some c) s' k
          | [] => []
          end
      | Some O =>
          repl ++
          match s with
          | c :: s' => c :: sub_from r repl (Some c) s' 0
          | [] => []
          end
      | None =>
          match s with
          | c :: s' => c :: sub_from r repl (Some c) s' 0
          | [] => []
          end
      end
  end.

Definition sub (r : regex) (repl : str) (s : str) : str :=
  sub_from r repl None s 0.

(** *** Building blocks for the patterns of the source *)

(** A literal character, and the same under [re.IGNORECASE]. *)
Definition ch (c : ascii) : cls := fun x => Chr.eqb x c.
Definition chi (c : ascii) : cls := fun x => Chr.eqb (Chr.lower x) (Chr.lower c).

Definition digit : cls := Chr.is_digit.                       (* [\d] *)
Definition space : cls := Chr.is_space.                       (* [\s] *)
Definition lower_az : cls := Chr.is_lower_ascii.              (* [[a-z]] *)
(** [[A-Z]] under [re.IGNORECASE] *)
Definition upper_az_i : cls := fun x => Chr.is_upper_ascii x || Chr.is_lower_ascii x.
Definition dot_or_space : cls := fun x => Chr.eqb x "." || Chr.is_space x.   (* [[.\s]] *)
Definition not_dot : cls := fun x => negb (Chr.eqb x ".").                    (* [[^.]] *)
Definition not_dot_nl : cls :=                                                (* [[^.\n]] *)
  fun x => negb (Chr.eqb x "." || Chr.eqb x Chr.nl).

(** A sequence of regexes, and a literal text. *)
Definition seq (rs : list regex) : regex := fold_right Cat Empty rs.
Definition text (s : string) : regex := seq (map (fun c => Lit (ch c)) (lit s)).
Definition texti (s : string) : regex := seq (map (fun c => Lit (chi c)) (lit s)).

End Re.

(** *** What a pattern matches

    [Re.matches r prev w next]: the text [w] is a match of [r] when it is
    preceded by the character [prev] (if any) and followed by [next]. *)

Fixpoint last_char (prev : option ascii) (w : str) : option ascii :=
  match w with
  | [] => prev
  | c :: w' => last_char (Some c) w'
  end.

Inductive matches : Re.regex -> option ascii -> str -> str -> Prop :=
| M_Empty : forall p n, matches Re.Empty p [] n
| M_Lit : forall (c : Re.cls) p x n, c x = true -> matches (Re.Lit c) p [x] n
| M_Rep : forall (c : Re.cls) lo p w n,
    forallb c w = true -> lo <= length w -> matches (Re.Rep c lo) p w n
| M_Cat : forall r1 r2 p w1 w2 n,
    matches r1 p w1 (w2 ++ n) -> matches r2 (last_char p w1) w2 n ->
    matches (Re.Cat r1 r2) p (w1 ++ w2) n
| M_AltL : forall r1 r2 p w n, matches r1 p w n -> matches (Re.Alt r1 r2) p w n
| M_AltR : forall r1 r2 p w n, matches r2 p w n -> matches (Re.Alt r1 r2) p w n
| M_WordB : forall p n,
    xorb (Re.word_before (p, n)) (Re.word_after (p, n)) = true ->
    matches Re.WordB p [] n
| M_Bol : forall m p n,
    p = None \/ (m = true /\ p = Some Chr.nl) -> matches (Re.Bol m) p [] n.

(** [s] contains a match of [r]. *)
Definition has_match (r : Re.regex) (s : str) : Prop :=
  exists pre w post, s = pre ++ w ++ post /\ matches r (last_char None pre) w post.

(** ** [detect_content_type] *)

Definition podcast_indicators : list str :=
  [lit "podcast"; lit "transcript"; lit "audio"; lit "episode"; lit "interview"].

Definition podcast_content_indicators : list str :=
  [lit "transcript:"; lit "speaker:"; lit "host:"; lit "[music]"; lit "[applause]"].

Definition call_indicators : list str :=
  [lit "call transcript"; lit "meeting transcript"; lit "call notes"; lit "meeting notes"].

Definition call_content_indicators : list str :=
  [lit "attendees:"; lit "participants:"; lit "meeting started"; lit "call ended"].

Definition youtube_title_indicators : list str :=
  [lit "podcast"; lit "interview"; lit "talk"; lit "discussion"].

Definition detect_content_type (url title content : str) : str :=
  let url_lower := Py.lower url in
  let title_lower := Py.lower title in
  let content_lower := Py.prefix 500 (Py.lower content) in
  if Py.contains (lit "linkedin.com") url_lower then
    if Py.contains (lit "/posts/") url_lower
       || Py.contains (lit "/feed/update/") url_lower
    then lit "linkedin_post"
    else if Py.contains (lit "/pulse/") url_lower then lit "blog"
    else lit "linkedin_post"
  else if Py.contains (lit "reddit.com") url_lower then
    if Py.contains (lit "/comments/") url_lower then lit "reddit_comment"
    else lit "reddit_comment"
  else if Py.any_in podcast_indicators url_lower then lit "podcast_transcript"
  else if Py.any_in podcast_indicators title_lower then lit "podcast_transcript"
  else if Py.any_in podcast_content_indicators content_lower then lit "podcast_transcript"
  else if Py.any_in call_indicators title_lower then lit "call_transcript"
  else if Py.any_in call_content_indicators content_lower then lit "call_transcript"
  else if Py.contains (lit "youtube.com") url_lower
          || Py.contains (lit "youtu.be") url_lower then
    if Py.any_in youtube_title_indicators title_lower then lit "podcast_transcript"
    else lit "blog"
  else lit "blog".

(** The [content_type] enumeration of the data model. *)
Definition content_type_enum : list str :=
  [lit "blog"; lit "book"; lit "linkedin_post"; lit "reddit_comment";
   lit "podcast_transcript"; lit "call_transcript"].

(** ** [UniversalContentDetector._is_likely_article_url] *)

Definition article_indicators : list str :=
  [lit "/blog/"; lit "/post/"; lit "/article/"; lit "/story/"; lit "/guide/";
   lit "/tutorial/"; lit "/how-to/"; lit "/tips/"; lit "/news/"; lit "/insights/";
   lit "/p-"; lit "/post-"; lit "/article-"].

Definition avoid_patterns : list str :=
  [lit "/tag/"; lit "/category/"; lit "/author/"; lit "/page/"; lit "/search/";
   lit "/login/"; lit "/register/"; lit "/contact/"; lit "/about/"; lit "/api/";
   lit ".pdf"; lit ".jpg"; lit ".png"; lit ".gif"; lit ".css"; lit ".js"; lit ".xml";
   lit "/feed"; lit "/rss"; lit "/sitemap"; lit "/book"; lit "/demo"; lit "/pricing";
   lit "/trial"; lit "/signup"; lit "/calendar"; lit "/schedule"; lit "cal.com";
   lit "calendly.com"; lit "/meeting"; lit "/appointment"; lit "/call"; lit "/intro";
   lit "/consultation"; lit "/support"; lit "/help"; lit "/faq"; lit "/terms";
   lit "/privacy"; lit "/policy"; lit "/legal"; lit "/careers"; lit "/jobs"].

(** [/20\d{2}/] *)
Definition re_date : Re.regex :=
  Re.seq [Re.text "/20"; Re.Lit Re.digit; Re.Lit Re.digit; Re.text "/"].

(** [/p-\d+] *)
Definition re_substack : Re.regex := Re.seq [Re.text "/p-"; Re.Rep Re.digit 1].

(** [[a-z]+-[a-z]+-[a-z]+] *)
Definition re_slug : Re.regex :=
  Re.seq [Re.Rep Re.lower_az 1; Re.text "-"; Re.Rep Re.lower_az 1; Re.text "-";
          Re.Rep Re.lower_az 1].

(** [/\d+/] *)
Definition re_numeric_id : Re.regex :=
  Re.seq [Re.text "/"; Re.Rep Re.digit 1; Re.text "/"].

Definition _is_likely_article_url (url : str) : bool :=
  let url_lower := Py.lower url in
  let date_pattern := Re.search re_date url in
  let modern_patterns :=
    [Re.search re_substack url; Re.search re_slug url; Re.search re_numeric_id url] in
  let truthy (m : option (nat * nat)) := match m with Some _ => true | None => false end in
  let has_article_indicator := Py.any_in article_indicators url_lower in
  let has_date := truthy date_pattern in
  let has_modern_pattern := existsb truthy modern_patterns in
  let has_avoid_pattern := Py.any_in avoid_patterns url_lower in
  (has_article_indicator || has_date || has_modern_pattern) && negb has_avoid_pattern.

(** ** [UniversalContentDetector._is_quality_content] and
       [extract_main_content] *)

(** [[#*\[\]()_`-]] *)
Definition markdown_syntax : Re.cls :=
  fun x => existsb (Chr.eqb x) (lit "#*[]()_`-").

(** The ratio [len(text_content) / len(content)] as an exact fraction.
    Python rounds the quotient to a double; as 0.5 is a double and rounding
    is monotone, the comparison with 0.5 below is the one of the source for
    every text shorter than 2^52 characters. *)
Definition ratio (a b : nat) : Q := Z.of_nat a # Pos.of_nat b.

Definition Qgt_bool (x y : Q) : bool := negb (Qle_bool x y).
Definition Qlt_bool (x y : Q) : bool := negb (Qle_bool y x).

Definition _is_quality_content (content : str) : bool :=
  if match content with [] => true | _ => false end
     || (len (Py.strip content) <? 100)%Z
  then false
  else
    let text_content := Re.sub (Re.Lit markdown_syntax) [] content in
    Qgt_bool (ratio (length text_content) (length content)) (1 # 2).

Section ContentExtraction.

(** The document type of BeautifulSoup, and the four extraction strategies
    ([_extract_by_semantic_tags], [_extract_by_common_classes],
    [_extract_by_content_density], [_extract_by_text_length]), which go
    through BeautifulSoup selectors and markdownify. *)
Context {soup : Type}.
Variable strategies : list (soup -> option str).

Fixpoint first_quality (fs : list (soup -> option str)) (doc : soup) : option str :=
  match fs with
  | [] => None
  | strategy :: fs' =>
      match strategy doc with
      | Some ((_ :: _) as content) =>
          if _is_quality_content content then Some content
          else first_quality fs' doc
      | _ => first_quality fs' doc
      end
  end.

Definition extract_main_content (doc : soup) : option str :=
  first_quality strategies doc.

End ContentExtraction.

(** ** Outcomes of code that may raise or loop

    [IndexError] is Python's exception for an index out of range.  The two
    [while] loops of the chunker are run with a bound on their number of
    iterations; [OutOfFuel] reports that the bound was reached. *)

Inductive result (A : Type) : Type :=
| Ok : A -> result A
| IndexError : result A
| OutOfFuel : result A.

Arguments Ok {A} _.
Arguments IndexError {A}.
Arguments OutOfFuel {A}.

Definition bind {A B : Type} (m : result A) (k : A -> result B) : result B :=
  match m with
  | Ok a => k a
  | IndexError => IndexError
  | OutOfFuel => OutOfFuel
  end.

Notation "x <- m ;; k" := (bind m (fun x => k))
  (at level 61, m at next level, right associativity).

(** ** [PDFProcessor] *)

Module PDF.

Record chunk : Type := {
  title : str;
  content : str;
  content_type : str;
  chunk_index : nat;
  total_chunks : nat
}.

(** A chapter found by [_find_chapter_boundaries]. *)
Record chapter : Type := {
  ch_title : str;
  ch_content : str;
  ch_index : nat
}.

(** [content.rfind(sub, lo, hi)] *)
Fixpoint rfind_from (sub s : str) (j lo hi : Z) : Z :=
  let here :=
    if ((lo <=? j) && (j + len sub <=? hi))%Z && Py.startswith sub s
    then j else (-1)%Z in
  match s with
  | [] => here
  | _ :: s' =>
      let later := rfind_from sub s' (j + 1) lo hi in
      if (0 <=? later)%Z then later else here
  end.

Definition rfind (sub s : str) (lo hi : Z) : Z :=
  rfind_from sub s 0 (Py.clamp (len s) lo) (Py.clamp (len s) hi).

(** [c in '.!?'] for a one-character [c] *)
Definition sentence_end (c : ascii) : bool :=
  Chr.eqb c "." || Chr.eqb c "!" || Chr.eqb c "?".

(** The scan [for i in range(i0, i0 + count)] for a sentence end followed
    by a space; [Ok (Some e)] is the new value [e = i + 1] of [end] at the
    [break], [Ok None] a scan that ran to its end. *)
Fixpoint sentence_break (text : str) (i : Z) (count : nat) : result (option Z) :=
  match count with
  | O => Ok None
  | S k =>
      if (i <? len text)%Z then
        match Py.index text i with
        | None => IndexError
        | Some c =>
            if sentence_end c && (i + 1 <? len text)%Z then
              match Py.index text (i + 1) with
              | None => IndexError
              | Some d =>
                  if Chr.eqb d " " then Ok (Some (i + 1)%Z)
                  else sentence_break text (i + 1) k
              end
            else sentence_break text (i + 1) k
        end
      else sentence_break text (i + 1) k
  end.

(** [range(a, b)] has [b - a] elements, none when [b <= a]. *)
Definition range_len (a b : Z) : nat := Z.to_nat (b - a).

(** The chapter-marker patterns, in the order of the source, under
    [re.IGNORECASE | re.MULTILINE]. *)
Definition chapter_patterns : list Re.regex :=
  [ (* \bChapter\s+\d+[.\s] *)
    Re.seq [Re.WordB; Re.texti "Chapter"; Re.Rep Re.space 1; Re.Rep Re.digit 1;
            Re.Lit Re.dot_or_space];
    (* \bCh\s*\d+[.\s] *)
    Re.seq [Re.WordB; Re.texti "Ch"; Re.Rep Re.space 0; Re.Rep Re.digit 1;
            Re.Lit Re.dot_or_space];
    (* \bCHAPTER\s+\d+[.\s] *)
    Re.seq [Re.WordB; Re.texti "CHAPTER"; Re.Rep Re.space 1; Re.Rep Re.digit 1;
            Re.Lit Re.dot_or_space];
    (* \bCh\s+\d+\. *)
    Re.seq [Re.WordB; Re.texti "Ch"; Re.Rep Re.space 1; Re.Rep Re.digit 1;
            Re.text "."];
    (* \bCh\d+\. *)
    Re.seq [Re.WordB; Re.texti "Ch"; Re.Rep Re.digit 1; Re.text "."];
    (* \b\d+\.\s+[A-Z][^.]{10,} *)
    Re.seq [Re.WordB; Re.Rep Re.digit 1; Re.text "."; Re.Rep Re.space 1;
            Re.Lit Re.upper_az_i; Re.Rep Re.not_dot 10];
    (* \n\s*\d+\s+[A-Z][^.\n]{10,} *)
    Re.seq [Re.Lit (Re.ch Chr.nl); Re.Rep Re.space 0; Re.Rep Re.digit 1;
            Re.Rep Re.space 1; Re.Lit Re.upper_az_i; Re.Rep Re.not_dot_nl 10];
    (* \n\s*Ch\s*\d+[.\s] *)
    Re.seq [Re.Lit (Re.ch Chr.nl); Re.Rep Re.space 0; Re.texti "Ch";
            Re.Rep Re.space 0; Re.Rep Re.digit 1; Re.Lit Re.dot_or_space] ].

(** [^(Chapter|Ch|CHAPTER)\s*\d+[.\s]*], without flags *)
Definition re_title_prefix : Re.regex :=
  Re.seq [Re.Bol false;
          Re.Alt (Re.text "Chapter") (Re.Alt (Re.text "Ch") (Re.text "CHAPTER"));
          Re.Rep Re.space 0; Re.Rep Re.digit 1; Re.Rep Re.dot_or_space 0].

(** [s.split('\n')[0]] *)
Fixpoint first_line (s : str) : str :=
  match s with
  | [] => []
  | c :: s' => if Chr.eqb c Chr.nl then [] else c :: first_line s'
  end.

(** The chapters cut at the starts of the matches [starts] of one pattern:
    the body of the loop [for i in range(max_chapters)]. *)
Fixpoint chapters_of (text : str) (i : nat) (starts : list nat) : list chapter :=
  match starts with
  | [] => []
  | start_pos :: later =>
      let end_pos :=
        match later with
        | next :: _ => Z.of_nat next
        | [] => len text
        end in
      let chapter_content := Py.strip (Py.slice text (Z.of_nat start_pos) end_pos) in
      let title_match := Py.slice text (Z.of_nat start_pos) (Z.of_nat start_pos + 200) in
      let title_line := Py.strip (first_line title_match) in
      let title_clean := Py.strip (Re.sub re_title_prefix [] title_line) in
      let title_clean :=
        match title_clean with
        | [] => lit "Chapter " ++ Py.str_of_nat (i + 1)
        | _ => title_clean
        end in
      {| ch_title := title_clean; ch_content := chapter_content; ch_index := i |}
      :: chapters_of text (S i) later
  end.

Fixpoint first_pattern (patterns : list Re.regex) (text : str) : list chapter :=
  match patterns with
  | [] => []
  | pattern :: rest =>
      let matches := Re.finditer pattern text in
      if 2 <=? length matches
      then chapters_of text 0 (map fst matches)
      else first_pattern rest text
  end.

Definition _find_chapter_boundaries (text : str) : list chapter :=
  first_pattern chapter_patterns text.

(** [for chunk in chunks: chunk["total_chunks"] = total_chunks] *)
Definition set_total (n : nat) (c : chunk) : chunk :=
  {| title := title c; content := content c; content_type := content_type c;
     chunk_index := chunk_index c; total_chunks := n |}.

Definition backfill (chunks : list chunk) : list chunk :=
  map (set_total (length chunks)) chunks.

Section Processor.

(** The fields of a [PDFProcessor]. *)
Variable chunk_size : Z.
Variable chunk_overlap : Z.

(** The search for a good breaking point in [_split_large_chapter]: the
    value of [end] after the [if end < len(content)] block. *)
Definition split_end (content : str) (start : Z) : result Z :=
  let end0 := (start + chunk_size)%Z in
  if (end0 <? len content)%Z then
    let paragraph_break := rfind [Chr.nl; Chr.nl] content start (end0 + 200) in
    if (paragraph_break >? start)%Z then Ok paragraph_break
    else
      found <- sentence_break content (end0 - 100)
                 (range_len (end0 - 100) (end0 + 100)) ;;
      Ok (match found with Some e => e | None => end0 end)
  else Ok end0.

(** [start = end - self.chunk_overlap; if start <= 0: start = end] *)
Definition next_start (end_ : Z) : Z :=
  let start := (end_ - chunk_overlap)%Z in
  if (start <=? 0)%Z then end_ else start.

(** The [while start < len(content)] loop of [_split_large_chapter]. *)
Fixpoint split_loop (fuel : nat) (content chapter_title : str)
    (chapter_index : nat) (start : Z) (part_index : nat) : result (list chunk) :=
  match fuel with
  | O => OutOfFuel
  | S fuel' =>
      if (start <? len content)%Z then
        end_ <- split_end content start ;;
        let chunk_content := Py.strip (Py.slice content start end_) in
        match chunk_content with
        | [] =>
            split_loop fuel' content chapter_title chapter_index (next_start end_)
              part_index
        | _ =>
            let sub_title :=
              chapter_title ++ lit " (Part " ++ Py.str_of_nat part_index ++ lit ")" in
            rest <- split_loop fuel' content chapter_title chapter_index
                      (next_start end_) (part_index + 1) ;;
            Ok ({| title := sub_title; content := chunk_content;
                   content_type := lit "book"; chunk_index := chapter_index;
                   total_chunks := 0 |} :: rest)
        end
      else Ok []
  end.

Definition _split_large_chapter (fuel : nat) (content chapter_title : str)
    (chapter_index : nat) : result (list chunk) :=
  split_loop fuel content chapter_title chapter_index 0 1.

(** The loop [for i, chapter in enumerate(chapter_chunks)] of
    [_process_chapter_chunks]; [n] is [len(chapter_chunks)]. *)
Fixpoint chapter_loop (fuel : nat) (n i : nat) (chapters : list chapter)
  : result (list chunk) :=
  match chapters with
  | [] => Ok []
  | chapter :: later =>
      let content := ch_content chapter in
      here <-
        (if (len content >? chunk_size * 2)%Z
         then _split_large_chapter fuel content (ch_title chapter) i
         else Ok [ {| title := ch_title chapter; content := content;
                      content_type := lit "book"; chunk_index := i;
                      total_chunks := n |} ]) ;;
      rest <- chapter_loop fuel n (S i) later ;;
      Ok (here ++ rest)
  end.

Definition _process_chapter_chunks (fuel : nat) (chapter_chunks : list chapter)
  : result (list chunk) :=
  final_chunks <- chapter_loop fuel (length chapter_chunks) 0 chapter_chunks ;;
  Ok (backfill final_chunks).

(** The search for a sentence end in [_size_based_chunking]: the value of
    [end] after the [if end < len(text)] block. *)
Definition size_end (text : str) (start : Z) : result Z :=
  let end0 := (start + chunk_size)%Z in
  if (end0 <? len text)%Z then
    found <- sentence_break text (end0 - chunk_overlap)
               (range_len (end0 - chunk_overlap) (end0 + chunk_overlap)) ;;
    Ok (match found with Some e => e | None => end0 end)
  else Ok end0.

(** The [while start < len(text)] loop of [_size_based_chunking]. *)
Fixpoint size_loop (fuel : nat) (text : str) (start : Z) (chunk_index : nat)
  : result (list chunk) :=
  match fuel with
  | O => OutOfFuel
  | S fuel' =>
      if (start <? len text)%Z then
        end_ <- size_end text start ;;
        let chunk_text := Py.strip (Py.slice text start end_) in
        match chunk_text with
        | [] => size_loop fuel' text (next_start end_) chunk_index
        | _ =>
            let chunk_title := lit "Section " ++ Py.str_of_nat (chunk_index + 1) in
            rest <- size_loop fuel' text (next_start end_) (chunk_index + 1) ;;
            Ok ({| title := chunk_title; content := chunk_text;
                   content_type := lit "book"; chunk_index := chunk_index;
                   total_chunks := 0 |} :: rest)
        end
      else Ok []
  end.

Definition _size_based_chunking (fuel : nat) (text title : str)
  : result (list chunk) :=
  chunks <- size_loop fuel text 0 0 ;;
  Ok (backfill chunks).

(** The first statement of [chunk_text]:
    [text = re.sub(r'\s+', ' ', text).strip()]. *)
Definition clean (text : str) : str :=
  Py.strip (Re.sub (Re.Rep Re.space 1) (lit " ") text).

Definition chunk_text (fuel : nat) (text title : str) : result (list chunk) :=
  let text := clean text in
  if (len text <=? chunk_size)%Z then
    Ok [ {| title := match title with
                     | [] => lit "PDF Content"
                     | _ => title ++ lit " (Complete)"
                     end;
            content := text; content_type := lit "book";
            chunk_index := 0; total_chunks := 1 |} ]
  else
    let chapter_chunks := _find_chapter_boundaries text in
    match chapter_chunks with
    | _ :: _ => _process_chapter_chunks fuel chapter_chunks
    | [] => _size_based_chunking fuel text title
    end.

(** [extract_text_from_pdf]: [pages] are the page texts the PDF backend
    gives, each already passed through [_clean_pdf_text]; [None] when no
    backend succeeds. *)
Definition extract_text_from_pdf (pages : option (list str)) : str :=
  match pages with
  | Some ps => Py.strip (flat_map (fun page_text => page_text ++ [Chr.nl; Chr.nl]) ps)
  | None => []
  end.

(** A chunk with the metadata [process_pdf_file] adds to it. *)
Record pdf_item : Type := {
  item_chunk : chunk;
  item_author : str;
  item_user_id : str;
  item_source_url : str
}.

Definition process_pdf_file (fuel : nat) (pages : option (list str))
    (pdf_path title author : str) : result (list pdf_item) :=
  let text := extract_text_from_pdf pages in
  match text with
  | [] => Ok []
  | _ =>
      chunks <- chunk_text fuel text title ;;
      Ok (map (fun c => {| item_chunk := c; item_author := author;
                           item_user_id := [];
                           item_source_url := lit "file://" ++ pdf_path |}) chunks)
  end.

End Processor.

End PDF.

(** ** The BeautifulSoup interface

    What the scraper asks of a parsed document.  The answers are computed by
    the library (and differ between its versions, e.g. whether [get_text]
    of a document includes script text), so the functions below take them
    through this interface. *)

Class BeautifulSoup (soup : Type) : Type := {
  (** [[script.get_text() for script in soup.find_all('script')]] *)
  script_texts : soup -> list str;
  (** [bool(soup.find(attrs={name: value}))] *)
  find_attr : soup -> str -> str -> bool;
  (** [bool(soup.find(attrs={name: re.compile(pattern)}))] *)
  find_attr_re : soup -> str -> Re.regex -> bool;
  (** [soup.get_text()] *)
  get_text : soup -> str;
  (** [str(soup)] *)
  markup : soup -> str
}.

(** ** [WebsiteArchitectureDetector.detect_architecture] *)

Inductive strategy : Type := javascript_heavy | framework_based | static_html.

Record frameworks : Type := {
  react : bool;
  vue : bool;
  angular : bool;
  next : bool
}.

Record architecture : Type := {
  arch_strategy : strategy;
  arch_frameworks : frameworks;
  content_density : Q;
  needs_js : bool
}.

(** [' '.join(parts)] *)
Fixpoint join_space (parts : list str) : str :=
  match parts with
  | [] => []
  | [p] => p
  | p :: rest => p ++ lit " " ++ join_space rest
  end.

(** [name|Name|\bname\b] under [re.IGNORECASE], for a lower-case [name] and
    its capitalised form [Name] *)
Definition re_framework (name Name : string) : Re.regex :=
  Re.Alt (Re.texti name)
    (Re.Alt (Re.texti Name) (Re.seq [Re.WordB; Re.texti name; Re.WordB])).

(** [app|root] *)
Definition re_spa_class : Re.regex := Re.Alt (Re.text "app") (Re.text "root").

Section Architecture.

Context {soup : Type} `{BeautifulSoup soup}.

Definition script_content (doc : soup) : str :=
  join_space (filter (fun t => match t with [] => false | _ => true end)
                     (script_texts doc)).

(** The quotient is kept exact.  Python rounds it, and the constant 0.02, to
    doubles; the comparison [< 0.02] gives the same answer on the rounded
    values for every markup shorter than 10^16 characters. *)
Definition density_of (doc : soup) : Q :=
  ratio (length (Py.strip (get_text doc))) (Nat.max (length (markup doc)) 1).

Definition has_spa_indicators (doc : soup) : bool :=
  find_attr doc (lit "id") (lit "root")
  || find_attr doc (lit "id") (lit "app")
  || find_attr_re doc (lit "class") re_spa_class.

Definition detect_architecture (doc : soup) (url : str) : architecture :=
  let script_content := script_content doc in
  let is_react := Re.found (re_framework "react" "React") script_content in
  let is_vue := Re.found (re_framework "vue" "Vue") script_content in
  let is_angular := Re.found (re_framework "angular" "Angular") script_content in
  let is_next := Re.found (re_framework "next" "Next") script_content in
  let has_spa_indicators := has_spa_indicators doc in
  let content_density := density_of doc in
  let strategy :=
    if Qlt_bool content_density (2 # 100) || has_spa_indicators
    then javascript_heavy
    else if is_react || is_vue || is_angular || is_next
    then framework_based
    else static_html in
  {| arch_strategy := strategy;
     arch_frameworks := {| react := is_react; vue := is_vue;
                           angular := is_angular; next := is_next |};
     content_density := content_density;
     needs_js := match strategy with
                 | javascript_heavy | framework_based => true
                 | static_html => false
                 end |}.

End Architecture.

(** ** [ContentItem] and [UniversalScraper] *)

Record ContentItem : Type := {
  title : str;
  content : str;
  content_type : str;
  source_url : str;
  author : str;
  user_id : str
}.

(** An entry of [discovered_urls] or of the requests fallback. *)
Record link_info : Type := {
  link_title : str;
  link_url : str
}.

(** What a run of [scrape] does to the outside, in order. *)
Inductive event : Type :=
| EvFetch : str -> bool -> event          (* [_fetch_page(url, use_js)] *)
| EvPlaywright : str -> event             (* [_fetch_with_playwright(url)] *)
| EvRequestsFallback : str -> event       (* [_fetch_with_requests_fallback(url)] *)
| EvClickDiscovery : event                (* [_scrape_with_click_discovery()] *)
| EvDriverGet : str -> event              (* [self.driver.get(url)] on an article *)
| EvProgress : Z -> Z -> str -> event     (* [progress_callback(i, total, url)] *)
| EvSleep : event.                        (* [time.sleep(delay)] *)

Definition click_platforms : list str :=
  [lit "quill.co/blog"; lit "substack.com"; lit "medium.com"; lit "ghost.org";
   lit "notion.site"].

(** [lst[:n]] *)
Definition take {A : Type} (l : list A) (n : Z) : list A :=
  firstn (Z.to_nat (Py.clamp (Z.of_nat (length l)) n)) l.

Section Scraper.

Context {soup : Type} `{BeautifulSoup soup}.

(** The fields of a [UniversalScraper]: the base URL and the configuration
    entries it reads. *)
Variable base_url : str.
Variable max_articles : Z.
Variable progress_callback : bool.

(** The network and the browsers: the parsed page a fetch gives, [None]
    when it fails. *)
Variable fetch_page : str -> bool -> option soup.
Variable fetch_with_playwright : str -> option soup.
(** For the requests fallback: the links that its selectors find on the
    page fetched without a browser, each with its absolute [href] (not
    empty) and its text [link.get_text(strip=True)], in the order found;
    [None] when the request fails. *)
Variable fallback_page_links : str -> option (list link_info).
(** The browser session of click discovery: the [discovered_urls] it
    collects ([None] when no driver starts or the session raises), and
    the page the driver shows for a discovered URL. *)
Variable click_discovered_urls : option (list link_info).
Variable driver_page : str -> option soup.

(** The detector's operations on a parsed page. *)
Variable find_article_links : soup -> str -> list str.
Variable strategies : list (soup -> option str).
Variable extract_title : soup -> str.
Variable extract_author : soup -> str.

(** The loop "Remove duplicates" of the fallback. *)
Fixpoint unique_by_url (seen : list str) (links : list link_info) : list link_info :=
  match links with
  | [] => []
  | link :: later =>
      if existsb (Py.str_eqb (link_url link)) seen
      then unique_by_url seen later
      else link :: unique_by_url (link_url link :: seen) later
  end.

Definition _fetch_with_requests_fallback (url : str) : list link_info :=
  match fallback_page_links url with
  | None => []
  | Some found =>
      let links :=
        filter (fun link =>
                  match link_title link with [] => false | _ => true end
                  && (len (link_title link) >? 10)%Z) found in
      let unique_links := unique_by_url [] links in
      firstn 20 unique_links
  end.

Definition _should_use_click_discovery : bool :=
  Py.any_in click_platforms (Py.lower base_url).

Definition _scrape_article (url : str) (use_js : bool) : option ContentItem :=
  match fetch_page url use_js with
  | None => None
  | Some doc =>
      match extract_main_content strategies doc with
      | None => None
      | Some content =>
          if match content with [] => true | _ => false end
             || (len (Py.strip content) <? 100)%Z
          then None
          else
            let title := extract_title doc in
            let author := extract_author doc in
            let content_type := detect_content_type url title content in
            Some {| title := title; content := content;
                    content_type := content_type; source_url := url;
                    author := author; user_id := [] |}
      end
  end.

(** The loop [for i, article_info in enumerate(discovered_urls, 1)] of
    [_scrape_with_click_discovery]. *)
Fixpoint click_loop (total : Z) (i : Z) (discovered : list link_info)
  : list event * list ContentItem :=
  match discovered with
  | [] => ([], [])
  | article_info :: later =>
      let url := link_url article_info in
      let progress := if progress_callback then [EvProgress i total url] else [] in
      let here :=
        match driver_page url with
        | None => []
        | Some doc =>
            match extract_main_content strategies doc with
            | Some ((_ :: _) as content) =>
                if (len (Py.strip content) >=? 100)%Z then
                  let title :=
                    match extract_title doc with
                    | [] => link_title article_info
                    | t => t
                    end in
                  [ {| title := title; content := content;
                       content_type := lit "blog"; source_url := url;
                       author := extract_author doc; user_id := [] |} ]
                else []
            | _ => []
            end
        end in
      let (evs, items) := click_loop total (i + 1) later in
      (progress ++ [EvDriverGet url; EvSleep] ++ evs, here ++ items)
  end.

Definition _scrape_with_click_discovery : list event * list ContentItem :=
  match click_discovered_urls with
  | None => ([], [])
  | Some discovered => click_loop (Z.of_nat (length discovered)) 1 discovered
  end.

(** The loop [for i, url in enumerate(article_links[:max_articles])] of
    [scrape]; [scraped] is [self.scraped_urls]. *)
Fixpoint article_loop (use_js : bool) (total : Z) (i : Z) (scraped : list str)
    (urls : list str) : list event * list ContentItem :=
  match urls with
  | [] => ([], [])
  | url :: later =>
      if existsb (Py.str_eqb url) scraped
      then article_loop use_js total (i + 1) scraped later
      else
        let progress :=
          if progress_callback then [EvProgress (i + 1) total url] else [] in
        let item := _scrape_article url use_js in
        let scraped' := match item with Some _ => url :: scraped | None => scraped end in
        let (evs, items) := article_loop use_js total (i + 1) scraped' later in
        (progress ++ [EvFetch url use_js; EvSleep] ++ evs,
         match item with Some it => it :: items | None => items end)
  end.

(** The placeholder item of the requests fallback. *)
Definition preview_item (link : link_info) : ContentItem :=
  {| title := link_title link;
     content := lit "Article preview: " ++ link_title link
                ++ lit " (Browser-based scraping not available in this environment)";
     content_type := lit "blog";
     source_url := link_url link;
     author := []; user_id := [] |}.

(** The tail of [scrape], from [find_article_links] on. *)
Definition scrape_links (arch : architecture) (doc : soup)
  : list event * list ContentItem :=
  let article_links := find_article_links doc base_url in
  let traditional :=
    let total_articles := Z.min (Z.of_nat (length article_links)) max_articles in
    article_loop (needs_js arch) total_articles 0 [] (take article_links max_articles) in
  if needs_js arch && _should_use_click_discovery then
    let (evs, click_discovered_articles) := _scrape_with_click_discovery in
    match click_discovered_articles with
    | _ :: _ => (EvClickDiscovery :: evs, click_discovered_articles)
    | [] => (EvClickDiscovery :: evs ++ fst traditional, snd traditional)
    end
  else traditional.

Definition scrape : list event * list ContentItem :=
  match fetch_page base_url false with
  | None => ([EvFetch base_url false], [])
  | Some doc =>
      let architecture := detect_architecture doc base_url in
      if needs_js architecture then
        match fetch_page base_url true with
        | Some doc' =>
            let (evs, items) := scrape_links architecture doc' in
            (EvFetch base_url false :: EvFetch base_url true :: evs, items)
        | None =>
            match fetch_with_playwright base_url with
            | Some doc' =>
                let (evs, items) := scrape_links architecture doc' in
                (EvFetch base_url false :: EvFetch base_url true
                   :: EvPlaywright base_url :: evs, items)
            | None =>
                let fallback_links := _fetch_with_requests_fallback base_url in
                ([EvFetch base_url false; EvFetch base_url true;
                  EvPlaywright base_url; EvRequestsFallback base_url],
                 map preview_item fallback_links)
            end
        end
      else
        let (evs, items) := scrape_links architecture doc in
        (EvFetch base_url false :: evs, items)
  end.

End Scraper.

(** ** A document model

    A small tree model of a parsed page that implements the interface; it
    provides the concrete pages of the scenarios below. *)

Module Tree.

Inductive node : Type :=
| Text : str -> node
| Element : str -> list (str * str) -> list node -> node.

Definition document := list node.

(** The opening tags of all elements, in document order. *)
Fixpoint tags (n : node) : list (str * list (str * str)) :=
  match n with
  | Text _ => []
  | Element name attrs children => (name, attrs) :: flat_map tags children
  end.

(** All text below a node; script and style contents are left out unless
    [raw] is set. *)
Fixpoint strings (raw : bool) (n : node) : str :=
  match n with
  | Text s => s
  | Element name _ children =>
      if negb raw && (Py.str_eqb name (lit "script") || Py.str_eqb name (lit "style"))
      then []
      else flat_map (strings raw) children
  end.

(** The text of every script element. *)
Fixpoint scripts (n : node) : list str :=
  match n with
  | Text _ => []
  | Element name _ children =>
      if Py.str_eqb name (lit "script")
      then [flat_map (strings true) children]
      else flat_map scripts children
  end.

Definition attr_to_str (a : str * str) : str :=
  lit " " ++ fst a ++ lit "=" ++ [ascii_of_N 34] ++ snd a ++ [ascii_of_N 34].

Fixpoint serialize (n : node) : str :=
  match n with
  | Text s => s
  | Element name attrs children =>
      lit "<" ++ name ++ flat_map attr_to_str attrs ++ lit ">"
      ++ flat_map serialize children ++ lit "</" ++ name ++ lit ">"
  end.

Definition has_attr (test : str -> bool) (name : str) (doc : document) : bool :=
  existsb (fun tag =>
             existsb (fun a => Py.str_eqb (fst a) name && test (snd a)) (snd tag))
          (flat_map tags doc).

#[global] Instance soup : BeautifulSoup document := {
  script_texts doc := flat_map scripts doc;
  find_attr doc name value := has_attr (Py.str_eqb value) name doc;
  find_attr_re doc name pattern := has_attr (Re.found pattern) name doc;
  get_text doc := flat_map (strings false) doc;
  markup doc := flat_map serialize doc
}.

End Tree.

(** ** Vocabulary of the properties *)

(** [sub] occurs in [s]. *)
Definition substring (sub s : str) : Prop := exists pre post, s = pre ++ sub ++ post.

(** Some text of [ps] occurs in [s]. *)
Definition mentions (ps : list str) (s : str) : Prop :=
  exists p, In p ps /\ substring p s.

(** The text with the markdown syntax characters removed. *)
Definition without_markdown (content : str) : str :=
  filter (fun x => negb (markdown_syntax x)) content.

(** The quality gate in the words of the specification: not empty after
    trimming, at least 100 characters trimmed, and more than half of the
    text left when the markdown syntax characters are removed. *)
Definition quality_gate (content : str) : Prop :=
  Py.strip content <> []
  /\ (100 <= len (Py.strip content))%Z
  /\ (1 # 2 < ratio (length (without_markdown content)) (length content))%Q.

(** The positive and negative indicators of an article URL, as texts the
    URL contains. *)

Definition all_of (c : Re.cls) (w : str) : Prop := w <> [] /\ forallb c w = true.







(** The decision rule of the classifier in the words of the specification. *)

Section ArchitectureRule.

Context {soup : Type} `{BeautifulSoup soup}.

Definition low_density (doc : soup) : Prop := (density_of doc < 2 # 100)%Q.

(** An element with id 'root' or 'app', or with a class matching
    [app|root]. *)
Definition spa_marker (doc : soup) : Prop :=
  find_attr doc (lit "id") (lit "root") = true
  \/ find_attr doc (lit "id") (lit "app") = true
  \/ find_attr_re doc (lit "class") re_spa_class = true.

(** A framework name occurs, in any letter case, in the script text. *)
Definition framework_flag (name : string) (doc : soup) : Prop :=
  substring (lit name) (Py.lower (script_content doc)).

Definition any_framework (doc : soup) : Prop :=
  framework_flag "react" doc \/ framework_flag "vue" doc
  \/ framework_flag "angular" doc \/ framework_flag "next" doc.

End ArchitectureRule.

(** ** Vocabulary for the chunker *)

(** A pattern that consumes nothing. *)
Definition zero_width (r : Re.regex) : bool :=
  match r with
  | Re.Empty | Re.WordB | Re.Bol _ => true
  | _ => false
  end.

(** The class of the first character of every match, where the shape of
    the pattern tells it. *)
Fixpoint first_class (r : Re.regex) : option Re.cls :=
  match r with
  | Re.Lit c => Some c
  | Re.Rep c lo => if lo =? 0 then None else Some c
  | Re.Cat r1 r2 => if zero_width r1 then first_class r2 else first_class r1
  | _ => None
  end.

(** All 256 characters. *)
Definition all_chars : list ascii := map ascii_of_nat (seq 0 256).

(** [c] holds of no white-space character but possibly the newline. *)
Definition sees_no_blank (c : Re.cls) : bool :=
  forallb (fun x => negb (c x) || negb (Chr.is_space x) || Chr.eqb x Chr.nl) all_chars.

(** Every match of [r] starts with a character that is not white space, or
    with a newline. *)
Definition starts_visibly (r : Re.regex) : bool :=
  match first_class r with
  | Some c => sees_no_blank c
  | None => false
  end.

(** A configuration under which both [while] loops advance: the overlap is
    not negative, the sentence window of a split chapter ([end - 100]) stays
    beyond the overlap, and so does the one of size-based chunking
    ([end - chunk_overlap]).  The defaults 1000 and 200 satisfy it. *)
Definition advancing (chunk_size chunk_overlap : Z) : Prop :=
  (0 <= chunk_overlap /\ chunk_overlap + 100 <= chunk_size
   /\ 2 * chunk_overlap <= chunk_size)%Z.



(** The pairs of consecutive cut points, the last one running to [stop]. *)
Fixpoint spans (starts : list nat) (stop : Z) : list (Z * Z) :=
  match starts with
  | [] => []
  | a :: later =>
      (Z.of_nat a, match later with b :: _ => Z.of_nat b | [] => stop end)
      :: spans later stop
  end.

(** Filler text of [n] characters without chapter markers or sentence ends. *)
Definition filler (n : nat) : str :=
  firstn n (flat_map (fun _ => lit "lorem ipsum dolor sit amet ") (seq 0 (S (n / 27)))).

(** Scenario B: two chapter markers, 3000 characters. *)
Definition two_chapter_text : str :=
  lit "Chapter 1 Basics " ++ filler 1482 ++ lit " Chapter 2 Advanced " ++ filler 1481.


(** A preface before the first chapter marker. *)
Definition preface_text : str :=
  lit "Preface: why this book exists " ++ filler 500
  ++ lit " Chapter 1 Basics " ++ filler 1000 ++ lit " Chapter 2 Advanced " ++ filler 400.

(** Text without chapter markers, with sentence ends. *)
Definition plain_text : str :=
  filler 950 ++ lit ". " ++ filler 1500 ++ lit "! " ++ filler 300.


(** Start offsets in increasing order, none below [lo]. *)
Fixpoint ascending (lo : nat) (l : list nat) : Prop :=
  match l with
  | [] => True
  | a :: l' => lo <= a /\ ascending (S a) l'
  end.

(** A text that starts with a character which is not white space. *)
Definition starts_with_ink (s : str) : Prop :=
  exists x t, s = x :: t /\ Chr.is_space x = false.

Definition no_newline (s : str) : Prop := Forall (fun x => x <> Chr.nl) s.

(** A chunk whose content is neither empty nor white space only, and
    trimmed. *)
Definition emitted (c : PDF.chunk) : Prop :=
  PDF.content c <> [] /\ Py.strip (PDF.content c) = PDF.content c.

(** A chapter as [_find_chapter_boundaries] cuts it from a cleaned text of
    at most [limit] characters. *)
Definition sound_chapter (limit : Z) (ch : PDF.chapter) : Prop :=
  starts_with_ink (PDF.ch_content ch) /\ no_newline (PDF.ch_content ch)
  /\ (len (PDF.ch_content ch) <= limit)%Z.

(** Whether [needle] occurs in the concatenation of the chunks' contents. *)
Definition covered (needle : str) (r : result (list PDF.chunk)) : option bool :=
  match r with
  | Ok chunks => Some (Py.contains needle (concat (map PDF.content chunks)))
  | _ => None
  end.

(** ** Sample inputs *)

(** An article body of 137 characters. *)
Definition sample_body : str :=
  lit "# Release notes. This release improves link discovery, adds a second rendering backend and makes PDF chunking respect chapter boundaries.".

(** A page with an SPA container and nothing else. *)
Definition spa_page : Tree.document :=
  [Tree.Element (lit "div") [(lit "id", lit "root")] []].

(** A page of 22 characters of text followed by a script that mentions
    react: 44 characters of markup, density one half, no SPA marker. *)
Definition react_page : Tree.document :=
  [Tree.Text (repeat "x"%char 22);
   Tree.Element (lit "script") [] [Tree.Text (lit "react")]].

(** A static page. *)
Definition static_page : Tree.document :=
  [Tree.Element (lit "p") [] [Tree.Text (lit "Welcome to the blog")]].

(** An article page; the sample strategy below extracts its body. *)
Definition article_page : Tree.document :=
  [Tree.Element (lit "article") [] [Tree.Text sample_body]].

Definition sample_strategy (doc : Tree.document) : option str :=
  match doc with
  | [Tree.Element _ _ [Tree.Text body]] => Some body
  | _ => None
  end.

Definition sample_link : link_info :=
  {| link_title := lit "Hello world!"; link_url := lit "https://example.com/blog/hello" |}.

(** A source whose page needs a browser while no browser is available:
    both rendering paths fail and the requests fallback finds one link. *)
Definition scrape_without_browser : list event * list ContentItem :=
  scrape (lit "https://example.com/blog") 50 false
    (fun _ use_js => if use_js then None else Some spa_page)
    (fun _ => None)
    (fun _ => Some [sample_link])
    None (fun _ => None)
    (fun _ _ => []) [sample_strategy] (fun _ => lit "Title") (fun _ => []).

(** A framework-based page on an allow-listed platform: click discovery
    finds one article, pattern matching finds another link. *)
Definition scrape_react_on_medium : list event * list ContentItem :=
  scrape (lit "https://medium.com/@writer") 50 false
    (fun url _ =>
       if Py.str_eqb url (lit "https://medium.com/@writer") then Some react_page
       else Some article_page)
    (fun _ => None)
    (fun _ => None)
    (Some [{| link_title := lit "A clicked article title";
              link_url := lit "https://medium.com/@writer/clicked-1" |}])
    (fun _ => Some article_page)
    (fun _ _ => [lit "https://medium.com/@writer/guessed-post-url"])
    [sample_strategy] (fun _ => lit "Title") (fun _ => []).

(** A static blog with one article link. *)
Definition static_blog_fetch (url : str) (use_js : bool) : option Tree.document :=
  if Py.str_eqb url (lit "https://example.com/blog") then Some static_page
  else Some article_page.

Definition scrape_static_blog : list event * list ContentItem :=
  scrape (lit "https://example.com/blog") 50 false
    static_blog_fetch
    (fun _ => None)
    (fun _ => None)
    None (fun _ => None)
    (fun _ _ => [lit "https://example.com/blog/my-post"])
    [sample_strategy] (fun _ => lit "Title") (fun _ => []).

(** The item the static blog yields. *)
Definition sample_item : ContentItem :=
  {| title := lit "Title"; content := sample_body; content_type := lit "blog";
     source_url := lit "https://example.com/blog/my-post"; author := [];
     user_id := [] |}.

(** An article page whose body has 80 characters. *)
Definition short_page : Tree.document :=
  [Tree.Element (lit "article") [] [Tree.Text (repeat "a"%char 80)]].

(** ** Vocabulary for coverage *)

(** The character at offset [p] of [text] lies inside an occurrence of the
    content of one of the chunks. *)
Definition covers (text : str) (chunks : list PDF.chunk) (p : nat) : Prop :=
  exists c pre post,
    In c chunks /\ text = pre ++ PDF.content c ++ post
    /\ length pre <= p < length pre + length (PDF.content c).


(** A short text without chapter markers, with one sentence end. *)
Definition short_plain_text : str := filler 120 ++ lit ". " ++ filler 150.

(** A short document with a preface, a first chapter of more than 200
    characters and a second, shorter one. *)
Definition short_preface_text : str :=
  lit "Preface: why this book exists " ++ filler 40
  ++ lit " Chapter 1 Basics " ++ filler 230 ++ lit " Chapter 2 Advanced " ++ filler 40.

(** ** Vocabulary for white-space normalisation *)

(** The length of the longest prefix of [s] in the class [c]. *)
Fixpoint run (c : Re.cls) (s : str) : nat :=
  match s with
  | x :: s' => if c x then S (run c s') else 0
  | [] => 0
  end.

(** [s] with every maximal run of characters of the class [c] replaced by
    [repl]; [inside] tells that the character before [s] was in [c]. *)
Fixpoint squeeze (c : Re.cls) (repl : str) (inside : bool) (s : str) : str :=
  match s with
  | x :: s' =>
      if c x then (if inside then [] else repl) ++ squeeze c repl true s'
      else x :: squeeze c repl false s'
  | [] => []
  end.

(** No two characters of the class [c] stand next to each other. *)
Fixpoint isolated (c : Re.cls) (s : str) : Prop :=
  match s with
  | x :: s' =>
      match s' with
      | y :: _ => c x = true -> c y = false
      | [] => True
      end /\ isolated c s'
  | [] => True
  end.

(** Words separated by single spaces: the only white space is the space
    character, never twice in a row and at neither end. *)
Definition single_spaced (s : str) : Prop :=
  Forall (fun x => Chr.is_space x = true -> x = " "%char) s
  /\ isolated Chr.is_space s /\ Py.strip s = s.

(** ** Vocabulary for runs of the scraper *)

(** An event that needs no browser: a fetch without JavaScript, a progress
    report or a pause. *)
Definition browser_free (e : event) : bool :=
  match e with
  | EvFetch _ use_js => negb use_js
  | EvProgress _ _ _ | EvSleep => true
  | EvPlaywright _ | EvRequestsFallback _ | EvClickDiscovery | EvDriverGet _ => false
  end.

(** ** More of [UniversalContentDetector]: titles, link texts and
       constructed URLs *)

Module Detector.

(** [s.lstrip(chars)], [s.rstrip(chars)] and [s.strip(chars)], the set
    [chars] given as a class. *)
Fixpoint lstrip_chars (chars : Re.cls) (s : str) : str :=
  match s with
  | c :: s' => if chars c then lstrip_chars chars s' else s
  | [] => []
  end.

Definition rstrip_chars (chars : Re.cls) (s : str) : str :=
  rev (lstrip_chars chars (rev s)).

Definition strip_chars (chars : Re.cls) (s : str) : str :=
  rstrip_chars chars (lstrip_chars chars s).

(** [s.endswith(p)] *)
Definition endswith (p s : str) : bool := Py.startswith (rev p) (rev s).

(** [s.replace(old, new)] for a non-empty [old]; [skip] counts the
    characters of the current occurrence still to be passed over. *)
Fixpoint replace_from (old new s : str) (skip : nat) : str :=
  match s with
  | [] => []
  | c :: s' =>
      match skip with
      | S k => replace_from old new s' k
      | O =>
          if Py.startswith old s
          then new ++ replace_from old new s' (pred (length old))
          else c :: replace_from old new s' 0
      end
  end.

Definition replace (old new s : str) : str := replace_from old new s 0.

(** [s.split()]: the words between runs of white space; [word] is the
    current word, reversed. *)
Fixpoint words_from (word : str) (s : str) : list str :=
  match s with
  | [] => match word with [] => [] | _ => [rev word] end
  | c :: s' =>
      if Chr.is_space c then
        match word with
        | [] => words_from [] s'
        | _ => rev word :: words_from [] s'
        end
      else words_from (c :: word) s'
  end.

Definition split (s : str) : list str := words_from [] s.

(** [s.split(sep)] for a separator of one character. *)
Fixpoint split_on (sep : ascii) (s : str) : list str :=
  match s with
  | [] => [[]]
  | c :: s' =>
      if Chr.eqb c sep then [] :: split_on sep s'
      else
        match split_on sep s' with
        | word :: later => (c :: word) :: later
        | [] => [[c]]
        end
  end.

(** [sep.join(parts)] *)
Fixpoint join (sep : str) (parts : list str) : str :=
  match parts with
  | [] => []
  | [p] => p
  | p :: rest => p ++ sep ++ join sep rest
  end.

(** [c.isupper()] for one character. *)
Definition isupper (c : ascii) : bool := Chr.is_upper_ascii c || Chr.is_upper_latin1 c.

(** [bool(re.match(r$, s))], the pattern given without its final [$]: some
    way of matching [r] at the start of [s] ends at the end of [s], or just
    before a newline that ends [s]. *)
Definition match_to_end (r : Re.regex) (s : str) : bool :=
  existsb (fun cur : Re.cursor =>
             match snd cur with
             | [] => true
             | [c] => Chr.eqb c Chr.nl
             | _ => false
             end)
          (Re.ends r (None, s)).

(** *** [_looks_like_article_title] *)

Definition generic_terms : list str :=
  [lit "home"; lit "about"; lit "contact"; lit "blog"; lit "news"; lit "menu";
   lit "search"; lit "login"; lit "register"; lit "subscribe"; lit "follow";
   lit "share"; lit "read more"; lit "see all"; lit "view all"; lit "more";
   lit "next"; lit "previous"; lit "back"; lit "close"].

Definition title_indicators : list str :=
  [lit "how to"; lit "why"; lit "what is"; lit "guide"; lit "tips"; lit "best";
   lit "top"; lit "introduction"; lit "overview"; lit "analysis"; lit "review";
   lit "case study"; lit "deep dive"; lit "understanding"; lit "exploring";
   lit "building"; lit "creating"; lit "implementing"; lit "optimizing";
   lit "improving"; lit "mastering"; lit "learning"].

Definition _looks_like_article_title (text : str) : bool :=
  let text_lower := Py.lower text in
  if existsb (fun term => Py.str_eqb term text_lower || Py.contains term text_lower)
             generic_terms
  then false
  else
    let word_count := length (split text) in
    let has_good_length := (2 <=? word_count) && (word_count <=? 25) in
    let has_article_words := Py.any_in title_indicators text_lower in
    let has_title_structure :=
      existsb (fun word => match word with c :: _ => isupper c | [] => false end)
              (filter (fun word => 2 <? length word) (split text)) in
    has_good_length && (has_article_words || has_title_structure || (3 <=? word_count)).

(** *** [_is_meaningful_link_text] *)

Definition generic_text : list str :=
  [lit "read more"; lit "continue reading"; lit "click here"; lit "more info";
   lit "learn more"; lit "see more"; lit "view more"; lit "full article";
   lit "read full"; lit "continue"; lit "more"; lit "here"; lit "link"].

Definition _is_meaningful_link_text (text : str) : bool :=
  if match text with [] => true | _ => false end
     || (len (Py.strip text) <? 5)%Z
  then false
  else
    let text_lower := Py.strip (Py.lower text) in
    if existsb (Py.str_eqb text_lower) generic_text then false
    else 2 <=? length (split text).

(** *** [_is_generic_title] and [extract_title] *)

Definition generic_titles : list str :=
  [lit "blog"; lit "home"; lit "index"; lit "main"; lit "page"; lit "article";
   lit "post"; lit "news"; lit "updates"; lit "content"; lit "site"; lit "website"].

Definition _is_generic_title (title : str) : bool :=
  existsb (Py.str_eqb (Py.strip (Py.lower title))) generic_titles.

(** What [extract_title] reads from an element that one of its look-ups
    finds: [element.get_text(strip=True)] and [element.get('content', '')]. *)
Record element : Type := {
  element_text : str;
  element_content : str
}.

(** [found] lists the results of the nine look-ups in their order: [None]
    for a look-up that finds nothing or raises. *)
Fixpoint extract_title (found : list (option element)) : str :=
  match found with
  | [] => lit "Untitled"
  | None :: later => extract_title later
  | Some el :: later =>
      let title :=
        match element_text el with
        | [] => element_content el
        | t => t
        end in
      if match title with [] => false | _ => true end && (len title >? 3)%Z then
        if _is_generic_title title then extract_title later else title
      else extract_title later
  end.

(** *** [_construct_article_url] and [_construct_spa_article_url] *)

Definition letter_az : Re.cls := fun x => Chr.is_lower_ascii x || Chr.is_upper_ascii x.

(** [^[a-zA-Z]+ \d{1,2}, \d{4}] (the final [$] is in [match_to_end]); the
    bounded repetition [\d{1,2}] is written as [\d\d|\d], which tries the
    same matches in the same order. *)
Definition re_date_title : Re.regex :=
  Re.seq [Re.Bol false; Re.Rep letter_az 1; Re.text " ";
          Re.Alt (Re.Cat (Re.Lit Re.digit) (Re.Lit Re.digit)) (Re.Lit Re.digit);
          Re.text ", ";
          Re.Lit Re.digit; Re.Lit Re.digit; Re.Lit Re.digit; Re.Lit Re.digit].

(** [[^\w\s-]] *)
Definition not_slug_char : Re.cls :=
  fun x => negb (Chr.is_word x || Chr.is_space x || Chr.eqb x "-").

Definition dash : Re.cls := Re.ch "-".

(** The three statements "Clean title for URL", which both functions
    apply to [title.lower()]. *)
Definition slug_of (title : str) : str :=
  let clean_title := Re.sub (Re.Lit not_slug_char) [] (Py.lower title) in
  let clean_title := Re.sub (Re.Rep Re.space 1) (lit "-") (Py.strip clean_title) in
  strip_chars dash (Re.sub (Re.Rep dash 1) (lit "-") clean_title).

Definition _construct_article_url (base_url title : str) : option str :=
  if match_to_end re_date_title (Py.strip title) then None
  else
    let clean_title := slug_of title in
    let base_clean := rstrip_chars (Re.ch "/") base_url in
    let patterns :=
      if endswith (lit "/blog") base_clean then
        [base_clean ++ lit "/" ++ clean_title;
         replace (lit "/blog") [] base_clean ++ lit "/blog/" ++ clean_title;
         replace (lit "/blog") [] base_clean ++ lit "/post/" ++ clean_title]
      else
        [base_clean ++ lit "/blog/" ++ clean_title;
         base_clean ++ lit "/post/" ++ clean_title;
         base_clean ++ lit "/article/" ++ clean_title;
         base_clean ++ lit "/" ++ clean_title] in
    hd_error patterns.

Definition stop_words : list str :=
  [lit "the"; lit "a"; lit "an"; lit "and"; lit "or"; lit "but"; lit "in"; lit "on";
   lit "at"; lit "to"; lit "for"; lit "of"; lit "with"; lit "by"].

Definition _construct_spa_article_url (base_url title : str) : option str :=
  let clean_title := slug_of title in
  let words := split_on "-" clean_title in
  let filtered_words :=
    filter (fun word => negb (existsb (Py.str_eqb word) stop_words)
                        || (length words <=? 3)) words in
  let clean_title := join (lit "-") filtered_words in
  let base_clean := rstrip_chars (Re.ch "/") base_url in
  if Py.contains (lit "/blog") base_clean
  then Some (base_clean ++ lit "/" ++ clean_title)
  else Some (base_clean ++ lit "/blog/" ++ clean_title).

End Detector.

(** ** [_find_main_heading] *)

Module Headings.

(** A heading element: the digit of its tag ([h1], [h2], [h3]) and its text
    [element.get_text(strip=True)]. *)
Record heading : Type := {
  level : Z;
  text : str
}.

(** [(4 - int(tag[1])) * 10 + min(len(text), 100)] *)
Definition score (h : heading) : Z := ((4 - level h) * 10 + Z.min (len (text h)) 100)%Z.

(** [max(headings, key=...)] for a list that starts with [best]: the first
    of the elements with the highest key. *)
Fixpoint max_by_score (best : heading) (later : list heading) : heading :=
  match later with
  | [] => best
  | h :: later' => max_by_score (if (score best <? score h)%Z then h else best) later'
  end.

(** [h1s], [h2s] and [h3s] are the texts of the elements that
    [soup.find_all] gives for each of the three tags. *)
Definition _find_main_heading (h1s h2s h3s : list str) : option heading :=
  let tagged (n : Z) (texts : list str) :=
    map (fun t => {| level := n; text := t |}) texts in
  let headings :=
    filter (fun h => (len (text h) >? 10)%Z)
           (tagged 1%Z h1s ++ tagged 2%Z h2s ++ tagged 3%Z h3s) in
  match headings with
  | [] => None
  | h :: later => Some (max_by_score h later)
  end.

End Headings.

(** The headings that [_find_main_heading] looks at, in its order. *)
Definition heading_candidates (h1s h2s h3s : list str) : list Headings.heading :=
  map (fun t => {| Headings.level := 1; Headings.text := t |}) h1s
  ++ map (fun t => {| Headings.level := 2; Headings.text := t |}) h2s
  ++ map (fun t => {| Headings.level := 3; Headings.text := t |}) h3s.

(** ** Vocabulary for the pace of a run *)

(** The ways a run can open, before any article is visited: the fetch of
    the main page, then with a browser, then with Playwright, then the
    requests fallback or the start of click discovery. *)
Definition openings (base_url : str) : list (list event) :=
  let plain := EvFetch base_url false in
  let with_js := EvFetch base_url true in
  let playwright := EvPlaywright base_url in
  [ [plain];
    [plain; with_js];
    [plain; with_js; EvClickDiscovery];
    [plain; with_js; playwright];
    [plain; with_js; playwright; EvClickDiscovery];
    [plain; with_js; playwright; EvRequestsFallback base_url] ].

(** Every page visit in [evs] is directly followed by a pause; [pending]
    tells that a visit is waiting for its pause. *)
Fixpoint paced (pending : bool) (evs : list event) : bool :=
  match evs with
  | [] => negb pending
  | e :: later =>
      if pending then
        match e with
        | EvSleep => paced false later
        | _ => false
        end
      else
        match e with
        | EvFetch _ _ | EvDriverGet _ => paced true later
        | _ => paced false later
        end
  end.

(** ** Vocabulary for titles and slugs *)

(** A date-only title: letters, a space, one or two digits, a comma and a
    space, four digits. *)
Definition date_only (s : str) : Prop :=
  exists month day year,
    s = month ++ lit " " ++ day ++ lit ", " ++ year
    /\ all_of Detector.letter_az month
    /\ forallb Re.digit day = true /\ 1 <= length day <= 2
    /\ forallb Re.digit year = true /\ length year = 4.

(** A URL slug: lower-case word characters and single hyphens, with no
    hyphen at either end. *)
Definition slug_shaped (s : str) : Prop :=
  Forall (fun x => (Chr.is_word x = true /\ Chr.lower x = x) \/ x = "-"%char) s
  /\ isolated Detector.dash s
  /\ Detector.strip_chars Detector.dash s = s.

(** The text has a word of more than two characters that starts with an
    upper-case letter. *)
Definition capitalised_word (text : str) : Prop :=
  exists word,
    In word (Detector.split text) /\ 2 < length word
    /\ exists c t, word = c :: t /\ Detector.isupper c = true.

(** Sample titles. *)
Definition intro_title : str := lit "Introduction to Machine Learning".
Definition date_title : str := lit " January 5, 2024 ".

(* PART-II *)

(** * Properties *)

(** ** Characters and string primitives *)

Lemma chr_eqb_eq (a b : ascii) : Chr.eqb a b = true <-> a = b.
Proof. apply Ascii.eqb_eq. Qed.

Lemma chr_lower_idem (c : ascii) : Chr.lower (Chr.lower c) = Chr.lower c.
Proof. destruct c as [[] [] [] [] [] [] [] []]; reflexivity. Qed.

Lemma startswith_spec (p s : str) :
  Py.startswith p s = true <-> exists t, s = p ++ t.
Proof.
  revert s; induction p as [|x p IH]; intros s; simpl.
  - split; [intros _; exists s; reflexivity | reflexivity].
  - destruct s as [|y s]; simpl.
    + split; [discriminate | intros [t H]; discriminate].
    + rewrite andb_true_iff, chr_eqb_eq, IH. split.
      * intros [-> [t ->]]. exists t. reflexivity.
      * intros [t H]. injection H as -> ->. split; [reflexivity | exists t; reflexivity].
Qed.

Lemma contains_spec (sub s : str) :
  Py.contains sub s = true <-> exists pre post, s = pre ++ sub ++ post.
Proof.
  induction s as [|c s IH]; simpl.
  - rewrite orb_false_r, startswith_spec. split.
    + intros [t H]. exists [], t. exact H.
    + intros [pre [post H]]. destruct pre; simpl in H.
      * exists post. exact H.
      * discriminate.
  - rewrite orb_true_iff, startswith_spec, IH. split.
    + intros [[t H] | [pre [post H]]].
      * exists [], t. exact H.
      * exists (c :: pre), post. simpl. rewrite H. reflexivity.
    + intros [pre [post H]]. destruct pre as [|x pre]; simpl in H.
      * left. exists post. exact H.
      * right. injection H as _ H. exists pre, post. exact H.
Qed.

Lemma any_in_spec (ps : list str) (s : str) :
  Py.any_in ps s = true <-> exists p, In p ps /\ Py.contains p s = true.
Proof. unfold Py.any_in. apply existsb_exists. Qed.

(** ** The matcher against the meaning of patterns *)

Lemma last_char_app (p : option ascii) (w1 w2 : str) :
  last_char p (w1 ++ w2) = last_char (last_char p w1) w2.
Proof. revert p; induction w1 as [|c w1 IH]; intros p; simpl; auto. Qed.

Lemma rep_ends_spec (c : Re.cls) (s : str) : forall lo p p' rest,
  In (p', rest) (Re.rep_ends c lo p s) <->
  exists w, s = w ++ rest /\ p' = last_char p w /\ forallb c w = true /\ lo <= length w.
Proof.
  induction s as [|x s IH]; intros lo p p' rest.
  - simpl. destruct (Nat.eqb_spec lo 0) as [->|Hlo]; simpl.
    + split.
      * intros [E|[]]. inversion E; subst. exists []. auto.
      * intros [w [E [Hp _]]]. symmetry in E. apply app_eq_nil in E as [-> ->].
        left. subst. reflexivity.
    + split; [intros [] |].
      intros [w [E [_ [_ Hl]]]]. symmetry in E. apply app_eq_nil in E as [-> _].
      simpl in Hl. lia.
  - simpl. destruct (c x) eqn:Hx.
    + rewrite in_app_iff, IH. split.
      * intros [[w [E [Hp [Hall Hl]]]] | Hstop].
        -- exists (x :: w). simpl. rewrite Hx, Hall, E. repeat split; auto. lia.
        -- destruct (Nat.eqb_spec lo 0) as [->|Hlo]; [|destruct Hstop].
           destruct Hstop as [E|[]]. inversion E; subst. exists []. auto.
      * intros [w [E [Hp [Hall Hl]]]]. destruct w as [|y w]; simpl in *.
        -- right. subst. destruct (Nat.eqb_spec lo 0); [left; reflexivity | lia].
        -- left. injection E as -> ->. apply andb_true_iff in Hall as [_ Hall].
           exists w. repeat split; auto. lia.
    + destruct (Nat.eqb_spec lo 0) as [->|Hlo]; simpl.
      * split.
        -- intros [E|[]]. inversion E; subst. exists []. auto.
        -- intros [w [E [Hp [Hall _]]]]. destruct w as [|y w]; simpl in *.
           ++ left. subst. reflexivity.
           ++ injection E as -> ->. rewrite Hx in Hall. discriminate.
      * split; [intros [] |].
        intros [w [E [_ [Hall Hl]]]]. destruct w as [|y w]; simpl in *; [lia|].
        injection E as -> ->. rewrite Hx in Hall. discriminate.
Qed.

Lemma ends_spec (r : Re.regex) : forall p s p' rest,
  In (p', rest) (Re.ends r (p, s)) <->
  exists w, s = w ++ rest /\ p' = last_char p w /\ matches r p w rest.
Proof.
  induction r as [|c|c lo|r1 IH1 r2 IH2|r1 IH1 r2 IH2| |m]; intros p s p' rest.
  - simpl. split.
    + intros [E|[]]. inversion E; subst. exists []. repeat split. constructor.
    + intros [w [E [Hp Hm]]]. inversion Hm; subst. left. reflexivity.
  - simpl. destruct s as [|x s].
    + split; [intros []|]. intros [w [E [_ Hm]]]. inversion Hm; subst. discriminate.
    + destruct (c x) eqn:Hx.
      * split.
        -- intros [E|[]]. inversion E; subst. exists [x]. repeat split.
           constructor. exact Hx.
        -- intros [w [E [Hp Hm]]]. inversion Hm; subst. injection E as -> ->.
           left. reflexivity.
      * split; [intros []|]. intros [w [E [_ Hm]]]. inversion Hm; subst.
        injection E as -> ->. congruence.
  - simpl. rewrite rep_ends_spec. split.
    + intros [w [E [Hp [Hall Hl]]]]. exists w. repeat split; auto. constructor; auto.
    + intros [w [E [Hp Hm]]]. inversion Hm; subst. exists w. auto.
  - simpl. rewrite in_flat_map. split.
    + intros [[q mid] [H1 H2]]. apply IH1 in H1 as [w1 [E1 [Hq M1]]].
      apply IH2 in H2 as [w2 [E2 [Hp' M2]]]. subst.
      exists (w1 ++ w2). rewrite <- app_assoc, last_char_app. repeat split.
      constructor; assumption.
    + intros [w [E [Hp Hm]]]. inversion Hm; subst.
      exists (last_char p w1, w2 ++ rest). split.
      * apply IH1. exists w1. rewrite <- app_assoc. auto.
      * apply IH2. exists w2. rewrite last_char_app. auto.
  - simpl. rewrite in_app_iff, IH1, IH2. split.
    + intros [[w [E [Hp Hm]]] | [w [E [Hp Hm]]]]; exists w; repeat split; auto.
      * apply M_AltL; assumption.
      * apply M_AltR; assumption.
    + intros [w [E [Hp Hm]]]. inversion Hm; subst; [left | right]; exists w; auto.
  - simpl. destruct (xorb _ _) eqn:Hx.
    + split.
      * intros [E|[]]. inversion E; subst. exists []. repeat split.
        constructor. exact Hx.
      * intros [w [E [Hp Hm]]]. inversion Hm; subst. left. reflexivity.
    + split; [intros []|]. intros [w [E [_ Hm]]]. inversion Hm; subst.
      unfold Re.word_before, Re.word_after in *. simpl in *. congruence.
  - simpl. destruct p as [x|].
    + destruct (m && Chr.eqb x Chr.nl) eqn:Hb.
      * split.
        -- intros [E|[]]. inversion E; subst. exists []. repeat split.
           constructor. right. apply andb_true_iff in Hb as [-> Hb].
           apply chr_eqb_eq in Hb. subst. auto.
        -- intros [w [E [Hp Hm]]]. inversion Hm; subst. left. reflexivity.
      * split; [intros []|]. intros [w [E [_ Hm]]]. inversion Hm; subst.
        destruct H0 as [H0|[-> H0]]; [discriminate|]. injection H0 as ->.
        simpl in Hb. discriminate.
    + split.
      * intros [E|[]]. inversion E; subst. exists []. repeat split.
        constructor. auto.
      * intros [w [E [Hp Hm]]]. inversion Hm; subst. left. reflexivity.
Qed.

Lemma match_here_some (r : Re.regex) (p : option ascii) (s : str) :
  (exists n, Re.match_here r (p, s) = Some n) <->
  exists w rest, s = w ++ rest /\ matches r p w rest.
Proof.
  unfold Re.match_here. destruct (Re.ends r (p, s)) as [|[q rest] l] eqn:E.
  - split; [intros [n Hn]; discriminate|].
    intros [w [rest [Hs Hm]]].
    assert (In (last_char p w, rest) (Re.ends r (p, s))) as Hin
      by (apply ends_spec; exists w; auto).
    rewrite E in Hin. destruct Hin.
  - split; [|intros _; eexists; reflexivity].
    intros _. assert (In (q, rest) (Re.ends r (p, s))) as Hin by (rewrite E; left; reflexivity).
    apply ends_spec in Hin as [w [Hs [_ Hm]]]. exists w, rest. auto.
Qed.

Lemma search_from_unfold (r : Re.regex) (p : option ascii) (s : str) (pos : nat) :
  Re.search_from r p s pos =
  match Re.match_here r (p, s) with
  | Some n => Some (pos, pos + n)
  | None =>
      match s with
      | c :: s' => Re.search_from r (Some c) s' (S pos)
      | [] => None
      end
  end.
Proof. destruct s; reflexivity. Qed.

Lemma search_from_some (r : Re.regex) (s : str) : forall p pos,
  (exists m, Re.search_from r p s pos = Some m) <->
  exists pre w post, s = pre ++ w ++ post /\ matches r (last_char p pre) w post.
Proof.
  induction s as [|c s IH]; intros p pos; rewrite search_from_unfold.
  - destruct (Re.match_here _ _) as [n|] eqn:E.
    + split; [|intros _; eexists; reflexivity]. intros _.
      destruct (proj1 (match_here_some r p [])) as [w [rest [Hs Hm]]];
        [eexists; exact E|].
      exists [], w, rest. auto.
    + split; [intros [m Hm]; discriminate|].
      intros [pre [w [post [Hs Hm]]]]. destruct pre; [|discriminate].
      simpl in *. destruct (proj2 (match_here_some r p [])) as [n Hn];
        [exists w, post; auto|]. congruence.
  - destruct (Re.match_here _ _) as [n|] eqn:E.
    + split; [|intros _; eexists; reflexivity]. intros _.
      destruct (proj1 (match_here_some r p (c :: s))) as [w [rest [Hs Hm]]];
        [eexists; exact E|].
      exists [], w, rest. auto.
    + rewrite IH. split.
      * intros [pre [w [post [Hs Hm]]]]. exists (c :: pre), w, post.
        simpl. rewrite Hs. auto.
      * intros [pre [w [post [Hs Hm]]]]. destruct pre as [|x pre]; simpl in *.
        -- destruct (proj2 (match_here_some r p (c :: s))) as [n Hn];
             [exists w, post; auto|]. congruence.
        -- injection Hs as -> Hs. exists pre, w, post. auto.
Qed.

Lemma found_spec (r : Re.regex) (s : str) :
  Re.found r s = true <-> has_match r s.
Proof.
  unfold Re.found, Re.search, has_match. rewrite <- search_from_some with (pos := 0).
  destruct (Re.search_from r None s 0).
  - split; [intros _; eexists; reflexivity | reflexivity].
  - split; [discriminate | intros [m Hm]; discriminate].
Qed.

Lemma contains_true (sub s : str) : Py.contains sub s = true <-> substring sub s.
Proof. apply contains_spec. Qed.

Lemma contains_false (sub s : str) : Py.contains sub s = false <-> ~ substring sub s.
Proof.
  rewrite <- contains_true. destruct (Py.contains sub s); split; intros; congruence.
Qed.

Lemma any_in_true (ps : list str) (s : str) : Py.any_in ps s = true <-> mentions ps s.
Proof.
  rewrite any_in_spec. unfold mentions.
  split; intros [p [Hin Hc]]; exists p; split; auto; apply contains_true; assumption.
Qed.

Lemma any_in_false (ps : list str) (s : str) : Py.any_in ps s = false <-> ~ mentions ps s.
Proof.
  rewrite <- any_in_true. destruct (Py.any_in ps s); split; intros; congruence.
Qed.

Lemma mentions_cons (p : str) (ps : list str) (s : str) :
  mentions (p :: ps) s <-> substring p s \/ mentions ps s.
Proof.
  unfold mentions. split.
  - intros [q [[<-|Hin] Hs]]; [left; assumption | right; exists q; auto].
  - intros [Hs | [q [Hin Hs]]]; [exists p | exists q]; simpl; auto.
Qed.

Lemma lower_app (a b : str) : Py.lower (a ++ b) = Py.lower a ++ Py.lower b.
Proof. apply map_app. Qed.

(** ** The content type of an item *)

Definition web_content_types : list str :=
  [lit "linkedin_post"; lit "blog"; lit "reddit_comment"; lit "podcast_transcript";
   lit "call_transcript"].

(** No platform and no transcript indicator matches the URL, the title or
    the first 500 characters of the content. *)
Definition no_indicator (url title content : str) : Prop :=
  let url_lower := Py.lower url in
  let title_lower := Py.lower title in
  let content_lower := firstn 500 (Py.lower content) in
  ~ mentions [lit "linkedin.com"; lit "reddit.com"; lit "youtube.com"; lit "youtu.be"]
             url_lower
  /\ ~ mentions podcast_indicators url_lower
  /\ ~ mentions podcast_indicators title_lower
  /\ ~ mentions podcast_content_indicators content_lower
  /\ ~ mentions call_indicators title_lower
  /\ ~ mentions call_content_indicators content_lower.

Lemma detect_content_type_cases (url title content : str) :
  In (detect_content_type url title content) web_content_types.
Proof.
  unfold detect_content_type, web_content_types.
  repeat match goal with
         | |- context [if ?b then _ else _] => destruct b
         end; simpl; auto 6.
Qed.


(** ** The quality gate *)

Lemma match_here_lit (c : Re.cls) (p : option ascii) (x : ascii) (s : str) :
  Re.match_here (Re.Lit c) (p, x :: s) = if c x then Some 1 else None.
Proof.
  unfold Re.match_here. cbn [Re.ends snd]. destruct (c x); [|reflexivity].
  f_equal. cbn [length]. lia.
Qed.

Lemma sub_lit_filter (c : Re.cls) (s : str) :
  Re.sub (Re.Lit c) [] s = filter (fun x => negb (c x)) s.
Proof.
  unfold Re.sub. generalize (@None ascii) as p.
  induction s as [|x s IH]; intros p.
  - reflexivity.
  - cbn [Re.sub_from]. rewrite match_here_lit. simpl filter.
    destruct (c x); simpl; rewrite IH; reflexivity.
Qed.

Lemma strip_length (s : str) : length (Py.strip s) <= length s.
Proof.
  assert (forall t, length (Py.lstrip t) <= length t) as Hl.
  { induction t as [|c t IH]; simpl; [lia|]. destruct (Chr.is_space c); simpl; lia. }
  unfold Py.strip, Py.rstrip. rewrite length_rev.
  etransitivity; [apply Hl|]. rewrite length_rev. apply Hl.
Qed.

Lemma Qgt_bool_iff (x y : Q) : Qgt_bool x y = true <-> (y < x)%Q.
Proof.
  unfold Qgt_bool. rewrite negb_true_iff. split.
  - intros Hb. apply Qnot_le_lt. intros Hle. apply Qle_bool_iff in Hle. congruence.
  - intros Hlt. destruct (Qle_bool x y) eqn:E; [|reflexivity].
    apply Qle_bool_iff in E. exfalso. exact (Qlt_not_le _ _ Hlt E).
Qed.

Lemma Qlt_bool_iff (x y : Q) : Qlt_bool x y = true <-> (x < y)%Q.
Proof. apply (Qgt_bool_iff y x). Qed.

Lemma pos_of_nat_Z (b : nat) : 0 < b -> Z.pos (Pos.of_nat b) = Z.of_nat b.
Proof. intros Hb. rewrite <- positive_nat_Z, Nat2Pos.id; lia. Qed.

Lemma ratio_gt_half (a b : nat) :
  0 < b -> ((1 # 2 < ratio a b)%Q <-> b < 2 * a).
Proof.
  intros Hb. unfold ratio, Qlt. cbn [Qnum Qden].
  rewrite (pos_of_nat_Z _ Hb). lia.
Qed.

Lemma is_quality_content_spec (content : str) :
  _is_quality_content content = true <-> quality_gate content.
Proof.
  unfold _is_quality_content, quality_gate, without_markdown.
  rewrite sub_lit_filter.
  destruct content as [|c content].
  - simpl. split; [discriminate|]. intros [Hne _]. exfalso. apply Hne. reflexivity.
  - cbn [orb]. destruct (Z.ltb_spec (len (Py.strip (c :: content))) 100) as [Hlt|Hge].
    + split; [discriminate|]. intros (_ & Hlen & _). lia.
    + rewrite Qgt_bool_iff. split.
      * intros Hr. repeat split; auto.
        intros E. rewrite E in Hge. unfold len in Hge. simpl in Hge. lia.
      * intros (_ & _ & Hr). exact Hr.
Qed.

Lemma first_quality_passes (soup : Type) (fs : list (soup -> option str))
    (doc : soup) (content : str) :
  first_quality fs doc = Some content -> _is_quality_content content = true.
Proof.
  induction fs as [|strategy fs IH]; cbn [first_quality]; [discriminate|].
  destruct (strategy doc) as [[|c s]|]; auto.
  destruct (_is_quality_content (c :: s)) eqn:Hq; auto.
  intros E. injection E as <-. exact Hq.
Qed.

(** C3. Whatever [extract_main_content] returns passes the quality gate: it
    is not empty after trimming, its trimmed length is at least 100, and the
    text without the markdown syntax characters is more than half of the
    text as it is. *)
Theorem extract_main_content_quality (soup : Type)
    (strategies : list (soup -> option str)) (doc : soup) (content : str) :
  extract_main_content strategies doc = Some content ->
  _is_quality_content content = true
  /\ Py.strip content <> []
  /\ (100 <= len (Py.strip content))%Z
  /\ (1 # 2 < ratio (length (without_markdown content)) (length content))%Q
  /\ length content < 2 * length (without_markdown content).
Proof.
  intros Hex. apply first_quality_passes in Hex.
  split; [exact Hex|]. apply is_quality_content_spec in Hex.
  destruct Hex as (Hne & Hlen & Hr). repeat split; auto.
  assert (100 <= length content) as Hc.
  { pose proof (strip_length content). unfold len in Hlen. lia. }
  apply ratio_gt_half in Hr; lia.
Qed.

(** ** Reading patterns *)

Lemma matches_empty_iff p w n : matches Re.Empty p w n <-> w = [].
Proof. split; [intros H; inversion H; reflexivity | intros ->; constructor]. Qed.

Lemma matches_lit_iff (c : Re.cls) p w n :
  matches (Re.Lit c) p w n <-> exists x, w = [x] /\ c x = true.
Proof.
  split.
  - intros H; inversion H; subst. eauto.
  - intros [x [-> Hx]]. constructor. exact Hx.
Qed.

Lemma matches_rep_iff (c : Re.cls) lo p w n :
  matches (Re.Rep c lo) p w n <-> forallb c w = true /\ lo <= length w.
Proof.
  split.
  - intros H; inversion H; subst. auto.
  - intros [H1 H2]. constructor; assumption.
Qed.

Lemma matches_cat_iff r1 r2 p w n :
  matches (Re.Cat r1 r2) p w n <->
  exists w1 w2, w = w1 ++ w2 /\ matches r1 p w1 (w2 ++ n)
                /\ matches r2 (last_char p w1) w2 n.
Proof.
  split.
  - intros H; inversion H; subst. eauto.
  - intros [w1 [w2 [-> [H1 H2]]]]. constructor; assumption.
Qed.

Lemma matches_alt_iff r1 r2 p w n :
  matches (Re.Alt r1 r2) p w n <-> matches r1 p w n \/ matches r2 p w n.
Proof.
  split.
  - intros H; inversion H; subst; auto.
  - intros [H|H]; [apply M_AltL | apply M_AltR]; assumption.
Qed.

Lemma matches_seq_cons r rs p w n :
  matches (Re.seq (r :: rs)) p w n <->
  exists w1 w2, w = w1 ++ w2 /\ matches r p w1 (w2 ++ n)
                /\ matches (Re.seq rs) (last_char p w1) w2 n.
Proof. apply matches_cat_iff. Qed.

Lemma matches_seq_nil p w n : matches (Re.seq []) p w n <-> w = [].
Proof. apply matches_empty_iff. Qed.

(** A sequence of one-character classes. *)
Lemma matches_lits (f : ascii -> Re.cls) (l : str) : forall p w n,
  matches (Re.seq (map (fun c => Re.Lit (f c)) l)) p w n <->
  Forall2 (fun x c => f c x = true) w l.
Proof.
  induction l as [|c l IH]; intros p w n; cbn [map].
  - rewrite matches_seq_nil. split; [intros ->; constructor | intros H; inversion H; reflexivity].
  - rewrite matches_seq_cons. split.
    + intros [w1 [w2 [-> [H1 H2]]]]. apply matches_lit_iff in H1 as [x [-> Hx]].
      apply IH in H2. simpl. constructor; assumption.
    + intros H. inversion H as [|x c' w' l' Hx Hrest]; subst.
      exists [x], w'. split; [reflexivity|]. split.
      * apply matches_lit_iff. eauto.
      * apply IH. exact Hrest.
Qed.

Lemma matches_text (s : string) p w n : matches (Re.text s) p w n <-> w = lit s.
Proof.
  unfold Re.text. rewrite matches_lits. generalize (lit s) as l. clear s.
  intros l. revert w. induction l as [|c l IH]; intros w.
  - split; [intros H; inversion H; reflexivity | intros ->; constructor].
  - split.
    + intros H. inversion H as [|x c' w' l' Hx Hrest]; subst.
      apply chr_eqb_eq in Hx. apply IH in Hrest. subst. reflexivity.
    + intros ->. constructor; [apply chr_eqb_eq; reflexivity | apply IH; reflexivity].
Qed.

Lemma matches_texti (s : string) p w n :
  matches (Re.texti s) p w n <-> Py.lower w = Py.lower (lit s).
Proof.
  unfold Re.texti. rewrite matches_lits. generalize (lit s) as l. clear s.
  intros l. revert w. induction l as [|c l IH]; intros w.
  - split; [intros H; inversion H; reflexivity |].
    destruct w; [constructor | discriminate].
  - split.
    + intros H. inversion H as [|x c' w' l' Hx Hrest]; subst.
      apply chr_eqb_eq in Hx. apply IH in Hrest. unfold Py.lower in *.
      simpl. rewrite Hx, Hrest. reflexivity.
    + destruct w as [|x w]; [discriminate|]. unfold Py.lower in *. simpl.
      intros E. injection E as Hx Hrest.
      constructor; [apply chr_eqb_eq; exact Hx | apply IH; exact Hrest].
Qed.

Lemma all_of_iff (c : Re.cls) (w : str) :
  all_of c w <-> forallb c w = true /\ 1 <= length w.
Proof.
  unfold all_of. destruct w; simpl; split; intros [H1 H2]; split; auto;
    try lia; try congruence.
Qed.

(** Decomposing the hypothesis that a sequence pattern matches. *)
Ltac subst_lhs H := match type of H with ?v = _ => subst v end.



Lemma matches_rep_all (c : Re.cls) p w n :
  matches (Re.Rep c 1) p w n <-> all_of c w.
Proof. rewrite matches_rep_iff, all_of_iff. reflexivity. Qed.

(** Building a match of a sequence pattern piece by piece. *)
Ltac build_match :=
  repeat first
    [ apply matches_seq_nil; reflexivity
    | apply matches_seq_cons; eexists _, _; split; [reflexivity|];
      split; [first [ apply matches_text; reflexivity
                    | apply matches_lit_iff; eauto
                    | apply matches_rep_all; assumption ] |] ].




(** ** Article URLs *)

Lemma is_likely_article_url_unfold (url : str) :
  _is_likely_article_url url =
  (Py.any_in article_indicators (Py.lower url) || Re.found re_date url
   || (Re.found re_substack url
       || (Re.found re_slug url || (Re.found re_numeric_id url || false))))
  && negb (Py.any_in avoid_patterns (Py.lower url)).
Proof. reflexivity. Qed.




(** ** Architecture classification *)

Lemma matches_wordb_iff p w n :
  matches Re.WordB p w n <->
  w = [] /\ xorb (Re.word_before (p, n)) (Re.word_after (p, n)) = true.
Proof.
  split.
  - intros Hm; inversion Hm; subst. auto.
  - intros [-> Hx]. constructor. exact Hx.
Qed.

Lemma substring_lower_split (name s : str) :
  substring name (Py.lower s) ->
  exists pre w post, s = pre ++ w ++ post /\ Py.lower w = name.
Proof.
  intros [a [b E]]. unfold Py.lower in E.
  apply map_eq_app in E as [pre [rest [-> [_ E]]]].
  apply map_eq_app in E as [w [post [-> [E _]]]].
  exists pre, w, post. auto.
Qed.

Lemma found_framework (name Name : string) (s : str) :
  Py.lower (lit name) = lit name -> Py.lower (lit Name) = lit name ->
  Re.found (re_framework name Name) s = true <-> substring (lit name) (Py.lower s).
Proof.
  intros Hn HN. rewrite found_spec. unfold has_match, re_framework. split.
  - intros [pre [w [post [-> M]]]].
    assert (Py.lower w = lit name) as Hw.
    { apply matches_alt_iff in M as [M|M].
      - apply matches_texti in M. congruence.
      - apply matches_alt_iff in M as [M|M].
        + apply matches_texti in M. congruence.
        + apply matches_seq_cons in M as [w1 [w2 [-> [M1 M]]]].
          apply matches_wordb_iff in M1 as [-> _].
          apply matches_seq_cons in M as [w3 [w4 [-> [M3 M]]]].
          apply matches_texti in M3.
          apply matches_seq_cons in M as [w5 [w6 [-> [M5 M]]]].
          apply matches_wordb_iff in M5 as [-> _].
          apply matches_seq_nil in M. subst. simpl. rewrite app_nil_r. congruence. }
    exists (Py.lower pre), (Py.lower post). rewrite !lower_app, Hw. reflexivity.
  - intros Hs. apply substring_lower_split in Hs as [pre [w [post [-> Hw]]]].
    exists pre, w, post. split; [reflexivity|].
    apply M_AltL. apply matches_texti. congruence.
Qed.

Section ArchitectureFacts.

Context {soup : Type} `{BeautifulSoup soup}.

Lemma has_spa_indicators_iff (doc : soup) :
  has_spa_indicators doc = true <-> spa_marker doc.
Proof.
  unfold has_spa_indicators, spa_marker. rewrite !orb_true_iff. tauto.
Qed.

Lemma frameworks_iff (doc : soup) (url : str) :
  let f := arch_frameworks (detect_architecture doc url) in
  (react f = true <-> framework_flag "react" doc)
  /\ (vue f = true <-> framework_flag "vue" doc)
  /\ (angular f = true <-> framework_flag "angular" doc)
  /\ (next f = true <-> framework_flag "next" doc).
Proof.
  unfold framework_flag. cbn [detect_architecture arch_frameworks react vue angular next].
  repeat split; try (apply found_framework; reflexivity);
    apply (found_framework _ _ (script_content doc)); reflexivity.
Qed.

Lemma strategy_rule (doc : soup) (url : str) :
  arch_strategy (detect_architecture doc url) =
  let f := arch_frameworks (detect_architecture doc url) in
  if Qlt_bool (density_of doc) (2 # 100) || has_spa_indicators doc
  then javascript_heavy
  else if react f || vue f || angular f || next f then framework_based
  else static_html.
Proof. reflexivity. Qed.

End ArchitectureFacts.

(** C2. [detect_architecture] decides in this order: a content density
    below 0.02 or an SPA marker gives 'javascript_heavy'; otherwise a
    framework name (react, vue, angular, next) found in the script text in
    any letter case gives 'framework_based'; otherwise 'static_html'.  A page
    whose script text contains "react", with density 0.5 and no SPA marker,
    is 'framework_based'. *)
Theorem detect_architecture_rule (soup : Type) (api : BeautifulSoup soup)
    (doc : soup) (url : str) :
  let s := arch_strategy (detect_architecture doc url) in
  (low_density doc \/ spa_marker doc -> s = javascript_heavy)
  /\ (~ (low_density doc \/ spa_marker doc) -> any_framework doc ->
      s = framework_based)
  /\ (~ (low_density doc \/ spa_marker doc) -> ~ any_framework doc ->
      s = static_html)
  /\ (substring (lit "react") (script_content doc) ->
      (density_of doc == 1 # 2)%Q -> ~ spa_marker doc ->
      s = framework_based /\ s <> javascript_heavy).
Proof.
  cbv zeta. rewrite strategy_rule. cbv zeta.
  pose proof (frameworks_iff doc url) as (Hr & Hv & Ha & Hn). cbv zeta in Hr, Hv, Ha, Hn.
  pose proof (has_spa_indicators_iff doc) as Hspa.
  pose proof (Qlt_bool_iff (density_of doc) (2 # 100)) as Hd.
  fold (low_density doc) in Hd.
  assert (any_framework doc <->
          (let f := arch_frameworks (detect_architecture doc url) in
           react f || vue f || angular f || next f) = true) as Hf.
  { cbv zeta. unfold any_framework. rewrite !orb_true_iff. tauto. }
  cbv zeta in Hf.
  assert (~ (low_density doc \/ spa_marker doc) ->
          Qlt_bool (density_of doc) (2 # 100) || has_spa_indicators doc = false) as Hno.
  { intros Hn'. apply orb_false_iff. split.
    - destruct (Qlt_bool _ _); [exfalso; apply Hn'; left; apply Hd; reflexivity | reflexivity].
    - destruct (has_spa_indicators doc); [exfalso; apply Hn'; right; apply Hspa; reflexivity | reflexivity]. }
  split; [|split; [|split]].
  - intros Hjs.
    assert (Qlt_bool (density_of doc) (2 # 100) || has_spa_indicators doc = true) as ->.
    { apply orb_true_iff. tauto. }
    reflexivity.
  - intros Hn' Hfw. rewrite (Hno Hn'). apply Hf in Hfw. rewrite Hfw. reflexivity.
  - intros Hn' Hfw. rewrite (Hno Hn').
    destruct (_ || _ || _ || _) eqn:E; [exfalso; apply Hfw, Hf; reflexivity | reflexivity].
  - intros Hreact Hhalf Hnospa.
    assert (~ (low_density doc \/ spa_marker doc)) as Hn'.
    { intros [Hlow|Hs]; [|contradiction]. unfold low_density in Hlow.
      rewrite Hhalf in Hlow. unfold Qlt in Hlow. simpl in Hlow. lia. }
    assert (any_framework doc) as Hfw.
    { left. unfold framework_flag. destruct Hreact as [a [b E]].
      exists (Py.lower a), (Py.lower b). rewrite E, !lower_app. reflexivity. }
    rewrite (Hno Hn'). apply Hf in Hfw. rewrite Hfw. split; [reflexivity | discriminate].
Qed.

Lemma detect_architecture_rule_witness :
  arch_strategy (detect_architecture react_page (lit "https://example.com/"))
  = framework_based.
Proof.
  apply (proj2 (proj2 (proj2 (detect_architecture_rule Tree.document Tree.soup
                                react_page (lit "https://example.com/"))))).
  - exists [], []. reflexivity.
  - vm_compute. reflexivity.
  - unfold spa_marker. vm_compute. intuition discriminate.
Defined.

Lemma extract_main_content_quality_witness : quality_gate sample_body.
Proof.
  destruct (extract_main_content_quality Tree.document
              [(fun _ : Tree.document => None); sample_strategy] article_page
              sample_body) as (_ & H1 & H2 & H3 & _).
  - vm_compute. reflexivity.
  - repeat split; assumption.
Defined.

(** ** The orchestrator *)

Lemma first_quality_source (soup : Type) (fs : list (soup -> option str))
    (doc : soup) (content : str) :
  first_quality fs doc = Some content ->
  exists f, In f fs /\ f doc = Some content.
Proof.
  induction fs as [|strategy fs IH]; cbn [first_quality]; [discriminate|].
  destruct (strategy doc) as [[|c s]|] eqn:Es.
  - intros E. destruct (IH E) as [f [Hin Hf]]. exists f. simpl. auto.
  - destruct (_is_quality_content (c :: s)).
    + intros E. injection E as <-. exists strategy. simpl. auto.
    + intros E. destruct (IH E) as [f [Hin Hf]]. exists f. simpl. auto.
  - intros E. destruct (IH E) as [f [Hin Hf]]. exists f. simpl. auto.
Qed.

Lemma needs_js_iff (a : strategy) :
  match a with javascript_heavy | framework_based => true | static_html => false end = true
  <-> a = javascript_heavy \/ a = framework_based.
Proof. destruct a; split; intros; auto; intuition discriminate. Qed.

Section ScraperFacts.

Context {soup : Type} `{BeautifulSoup soup}.

Variable base_url : str.
Variable max_articles : Z.
Variable progress_callback : bool.
Variable fetch_page : str -> bool -> option soup.
Variable fetch_with_playwright : str -> option soup.
Variable fallback_page_links : str -> option (list link_info).
Variable click_discovered_urls : option (list link_info).
Variable driver_page : str -> option soup.
Variable find_article_links : soup -> str -> list str.
Variable strategies : list (soup -> option str).
Variable extract_title : soup -> str.
Variable extract_author : soup -> str.

Let scrape_article := _scrape_article fetch_page strategies extract_title extract_author.
Let click_discovery :=
  _scrape_with_click_discovery progress_callback click_discovered_urls driver_page
    strategies extract_title extract_author.
Let run :=
  scrape base_url max_articles progress_callback fetch_page fetch_with_playwright
    fallback_page_links click_discovered_urls driver_page find_article_links
    strategies extract_title extract_author.

(** Where an item of a run comes from. *)
Variable P : ContentItem -> Prop.
Hypothesis P_article : forall url use_js item, scrape_article url use_js = Some item -> P item.
Hypothesis P_click : forall doc body t url a,
  extract_main_content strategies doc = Some body ->
  (100 <= len (Py.strip body))%Z ->
  P {| title := t; content := body; content_type := lit "blog"; source_url := url;
       author := a; user_id := [] |}.
Hypothesis P_preview : forall link,
  In link (_fetch_with_requests_fallback fallback_page_links base_url) ->
  P (preview_item link).

Lemma article_loop_items (use_js : bool) (total : Z) (urls : list str) :
  forall i scraped item,
  In item (snd (article_loop progress_callback fetch_page strategies extract_title
                  extract_author use_js total i scraped urls)) -> P item.
Proof.
  induction urls as [|url later IH]; intros i scraped item; cbn [article_loop].
  - intros [].
  - destruct (existsb (Py.str_eqb url) scraped); [apply IH|].
    fold scrape_article.
    destruct (scrape_article url use_js) as [it|] eqn:Eit.
    + destruct (article_loop _ _ _ _ _ _ _ _ _ later) as [evs items] eqn:El.
      cbn [snd]. intros [<-|Hin].
      * eapply P_article. exact Eit.
      * eapply IH. rewrite El. exact Hin.
    + destruct (article_loop _ _ _ _ _ _ _ _ _ later) as [evs items] eqn:El.
      cbn [snd]. intros Hin. eapply IH. rewrite El. exact Hin.
Qed.

Lemma click_loop_items (total : Z) (discovered : list link_info) :
  forall i item,
  In item (snd (click_loop progress_callback driver_page strategies extract_title
                  extract_author total i discovered)) -> P item.
Proof.
  induction discovered as [|info later IH]; intros i item; cbn [click_loop].
  - intros [].
  - destruct (click_loop _ _ _ _ _ _ _ later) as [evs items] eqn:El.
    cbn [snd]. rewrite in_app_iff. intros [Hin|Hin].
    + destruct (driver_page (link_url info)) as [doc|]; [|destruct Hin].
      destruct (extract_main_content strategies doc) as [[|c body]|] eqn:Ex;
        try destruct Hin.
      destruct (Z.geb_spec (len (Py.strip (c :: body))) 100) as [Hge|Hlt];
        [|destruct Hin].
      destruct Hin as [<-|[]]. eapply P_click; [exact Ex | lia].
    + eapply IH. rewrite El. exact Hin.
Qed.

Lemma click_discovery_items (item : ContentItem) :
  In item (snd click_discovery) -> P item.
Proof.
  unfold click_discovery, _scrape_with_click_discovery.
  destruct click_discovered_urls as [discovered|]; [apply click_loop_items | intros []].
Qed.

Lemma scrape_links_items (arch : architecture) (doc : soup) (item : ContentItem) :
  In item (snd (scrape_links base_url max_articles progress_callback fetch_page
                  click_discovered_urls driver_page find_article_links strategies
                  extract_title extract_author arch doc)) -> P item.
Proof.
  unfold scrape_links. fold click_discovery.
  destruct (needs_js arch && _should_use_click_discovery base_url).
  - pose proof click_discovery_items as Hc.
    destruct click_discovery as [evs [|it its]]; cbn [snd] in *.
    + apply article_loop_items.
    + apply Hc.
  - apply article_loop_items.
Qed.

Lemma scrape_items (item : ContentItem) : In item (snd run) -> P item.
Proof.
  unfold run, scrape.
  destruct (fetch_page base_url false) as [doc|]; [|intros []].
  destruct (needs_js (detect_architecture doc base_url)).
  - destruct (fetch_page base_url true) as [doc'|].
    + pose proof (scrape_links_items (detect_architecture doc base_url) doc') as Hl.
      destruct (scrape_links _ _ _ _ _ _ _ _ _ _ _ _) as [evs items]. apply Hl.
    + destruct (fetch_with_playwright base_url) as [doc'|].
      * pose proof (scrape_links_items (detect_architecture doc base_url) doc') as Hl.
        destruct (scrape_links _ _ _ _ _ _ _ _ _ _ _ _) as [evs items]. apply Hl.
      * cbn [snd]. rewrite in_map_iff. intros [link [<- Hin]]. apply P_preview, Hin.
  - pose proof (scrape_links_items (detect_architecture doc base_url) doc) as Hl.
    destruct (scrape_links _ _ _ _ _ _ _ _ _ _ _ _) as [evs items]. apply Hl.
Qed.

End ScraperFacts.

Section ScraperProperties.

Context {soup : Type} `{BeautifulSoup soup}.

Variable base_url : str.
Variable max_articles : Z.
Variable progress_callback : bool.
Variable fetch_page : str -> bool -> option soup.
Variable fetch_with_playwright : str -> option soup.
Variable fallback_page_links : str -> option (list link_info).
Variable click_discovered_urls : option (list link_info).
Variable driver_page : str -> option soup.
Variable find_article_links : soup -> str -> list str.
Variable strategies : list (soup -> option str).
Variable extract_title : soup -> str.
Variable extract_author : soup -> str.

Let scrape_article := _scrape_article fetch_page strategies extract_title extract_author.
Let click_discovery :=
  _scrape_with_click_discovery progress_callback click_discovered_urls driver_page
    strategies extract_title extract_author.
Let run :=
  scrape base_url max_articles progress_callback fetch_page fetch_with_playwright
    fallback_page_links click_discovered_urls driver_page find_article_links
    strategies extract_title extract_author.

Lemma scrape_article_some (url : str) (use_js : bool) (item : ContentItem) :
  scrape_article url use_js = Some item ->
  exists doc,
    fetch_page url use_js = Some doc
    /\ extract_main_content strategies doc = Some (content item)
    /\ (100 <= len (Py.strip (content item)))%Z
    /\ content_type item = detect_content_type url (title item) (content item)
    /\ source_url item = url.
Proof.
  unfold scrape_article, _scrape_article.
  destruct (fetch_page url use_js) as [doc|]; [|discriminate].
  destruct (extract_main_content strategies doc) as [body|] eqn:Ex; [|discriminate].
  destruct (_ || _) eqn:Eshort; [discriminate|].
  intros E. injection E as <-. cbn [content title content_type source_url].
  exists doc. apply orb_false_iff in Eshort as [_ Hlen].
  apply Z.ltb_ge in Hlen. auto.
Qed.

Lemma len_strip_le (s : str) : (len (Py.strip s) <= len s)%Z.
Proof. unfold len. pose proof (strip_length s). lia. Qed.

(** C1, as the code has it.  Every item of a scrape whose body was
    extracted from a page has at least 100 characters of content, also
    after trimming; the other items of a scrape are the placeholders of the
    requests fallback.  [_scrape_article] returns an item only with such a
    body, and returns none for a page on which every extracted body is
    shorter than 100 characters. *)
Theorem scrape_content_floor :
  (forall item, In item (snd run) ->
     (exists link,
        In link (_fetch_with_requests_fallback fallback_page_links base_url)
        /\ item = preview_item link)
     \/ ((100 <= len (Py.strip (content item)))%Z /\ (100 <= len (content item))%Z))
  /\ (forall url use_js item, scrape_article url use_js = Some item ->
        (100 <= len (Py.strip (content item)))%Z /\ (100 <= len (content item))%Z)
  /\ (forall url use_js doc,
        fetch_page url use_js = Some doc ->
        (forall strategy body, In strategy strategies -> strategy doc = Some body ->
                               (len body < 100)%Z) ->
        scrape_article url use_js = None).
Proof.
  assert (forall url use_js item, scrape_article url use_js = Some item ->
            (100 <= len (Py.strip (content item)))%Z
            /\ (100 <= len (content item))%Z) as Harticle.
  { intros url use_js item E. apply scrape_article_some in E as [doc (_ & _ & Hlen & _)].
    pose proof (len_strip_le (content item)). lia. }
  split; [|split].
  - intros item Hin. pattern item.
    eapply scrape_items; [| | | exact Hin]; cbv beta.
    + intros url use_js it E. right. exact (Harticle url use_js it E).
    + intros doc body t url a _ Hlen. right. cbn [content].
      pose proof (len_strip_le body). lia.
    + intros link Hlink. left. exists link. auto.
  - exact Harticle.
  - intros url use_js doc Hdoc Hshort.
    destruct (scrape_article url use_js) as [item|] eqn:E; [|reflexivity].
    exfalso. apply scrape_article_some in E as [doc' (Hdoc' & Hex & Hlen & _)].
    rewrite Hdoc in Hdoc'. injection Hdoc' as <-.
    apply first_quality_source in Hex as [f [Hin Hf]].
    specialize (Hshort f _ Hin Hf). pose proof (len_strip_le (content item)). lia.
Qed.

Lemma article_loop_no_click (use_js : bool) (total : Z) (urls : list str) :
  forall i scraped,
  ~ In EvClickDiscovery
      (fst (article_loop progress_callback fetch_page strategies extract_title
              extract_author use_js total i scraped urls)).
Proof.
  induction urls as [|url later IH]; intros i scraped; cbn [article_loop].
  - intros [].
  - destruct (existsb (Py.str_eqb url) scraped); [apply IH|].
    match goal with
    | |- context [article_loop ?a ?b ?c ?d ?e ?f ?g ?h ?k later] =>
        specialize (IH h k); destruct (article_loop a b c d e f g h k later) as [evs items]
    end.
    cbn [fst] in *. rewrite !in_app_iff. intros [Hin|[Hin|Hin]].
    + destruct progress_callback; simpl in Hin; intuition discriminate.
    + simpl in Hin. intuition discriminate.
    + exact (IH Hin).
Qed.

Lemma scrape_links_click (arch : architecture) (doc : soup) :
  let links :=
    scrape_links base_url max_articles progress_callback fetch_page
      click_discovered_urls driver_page find_article_links strategies
      extract_title extract_author arch doc in
  In EvClickDiscovery (fst links) ->
  (needs_js arch = true /\ _should_use_click_discovery base_url = true)
  /\ (snd click_discovery <> [] -> snd links = snd click_discovery).
Proof.
  cbv zeta. unfold scrape_links. fold click_discovery.
  destruct (needs_js arch && _should_use_click_discovery base_url) eqn:Econd.
  - apply andb_true_iff in Econd. intros _. split; [exact Econd|].
    destruct click_discovery as [evs [|it its]]; cbn [snd]; [congruence | reflexivity].
  - intros Hin. exfalso. exact (article_loop_no_click _ _ _ _ _ Hin).
Qed.

(** C8, as the code has it.  Click discovery runs for a source only when
    the classified architecture needs a browser (it is 'javascript_heavy' or
    'framework_based') and the base URL, in lower case, contains one of the
    allow-list texts; and whenever click discovery yields at least one
    article, its results are the whole item list of the source. *)
Theorem click_discovery_rule :
  In EvClickDiscovery (fst run) ->
  (exists doc,
     fetch_page base_url false = Some doc
     /\ (arch_strategy (detect_architecture doc base_url) = javascript_heavy
         \/ arch_strategy (detect_architecture doc base_url) = framework_based))
  /\ mentions click_platforms (Py.lower base_url)
  /\ (snd click_discovery <> [] -> snd run = snd click_discovery).
Proof.
  unfold run, scrape.
  destruct (fetch_page base_url false) as [doc|];
    [|cbn [fst]; simpl; intuition discriminate].
  pose proof (needs_js_iff (arch_strategy (detect_architecture doc base_url))) as Hjs.
  change (match arch_strategy (detect_architecture doc base_url) with
          | javascript_heavy | framework_based => true
          | static_html => false
          end) with (needs_js (detect_architecture doc base_url)) in Hjs.
  assert (forall doc',
            let links :=
              scrape_links base_url max_articles progress_callback fetch_page
                click_discovered_urls driver_page find_article_links strategies
                extract_title extract_author (detect_architecture doc base_url) doc' in
            In EvClickDiscovery (fst links) ->
            (exists doc0, Some doc = Some doc0
               /\ (arch_strategy (detect_architecture doc0 base_url) = javascript_heavy
                   \/ arch_strategy (detect_architecture doc0 base_url) = framework_based))
            /\ mentions click_platforms (Py.lower base_url)
            /\ (snd click_discovery <> [] -> snd links = snd click_discovery)) as Hlinks.
  { intros doc' links Hin. apply scrape_links_click in Hin as [[Hn Hs] Hitems].
    split; [exists doc; split; [reflexivity | apply Hjs, Hn]|].
    split; [apply any_in_true, Hs | exact Hitems]. }
  cbv zeta in Hlinks.
  destruct (needs_js (detect_architecture doc base_url)).
  - destruct (fetch_page base_url true) as [doc'|].
    + specialize (Hlinks doc').
      destruct (scrape_links _ _ _ _ _ _ _ _ _ _ _ _) as [evs items]. cbn [fst snd] in *.
      intros [Hin|[Hin|Hin]]; try discriminate. exact (Hlinks Hin).
    + destruct (fetch_with_playwright base_url) as [doc'|].
      * specialize (Hlinks doc').
        destruct (scrape_links _ _ _ _ _ _ _ _ _ _ _ _) as [evs items]. cbn [fst snd] in *.
        intros [Hin|[Hin|[Hin|Hin]]]; try discriminate. exact (Hlinks Hin).
      * cbn [fst]. simpl. intuition discriminate.
  - specialize (Hlinks doc).
    destruct (scrape_links _ _ _ _ _ _ _ _ _ _ _ _) as [evs items]. cbn [fst snd] in *.
    intros [Hin|Hin]; try discriminate. exact (Hlinks Hin).
Qed.

Lemma scrape_content_types (item : ContentItem) :
  In item (snd run) -> In (content_type item) web_content_types.
Proof.
  intros Hin. pattern item.
  eapply scrape_items; [| | | exact Hin]; cbv beta.
  - intros url use_js it E. apply scrape_article_some in E as [doc (_ & _ & _ & -> & _)].
    apply detect_content_type_cases.
  - intros. cbn [content_type]. unfold web_content_types. simpl. auto.
  - intros link _. cbn [preview_item content_type]. unfold web_content_types. simpl. auto.
Qed.

End ScraperProperties.

(** The fallback of a source without a browser emits a placeholder of 88
    characters. *)
Lemma scrape_content_floor_fails :
  ~ (forall item, In item (snd scrape_without_browser) ->
                  100 <= length (content item)).
Proof.
  intros Hall. specialize (Hall (preview_item sample_link)).
  assert (In (preview_item sample_link) (snd scrape_without_browser)) as Hin
    by (vm_compute; left; reflexivity).
  apply Hall in Hin. vm_compute in Hin. lia.
Qed.

Lemma scrape_content_floor_witness :
  ((100 <= len (Py.strip sample_body))%Z /\ (100 <= len sample_body)%Z)
  /\ _scrape_article (fun _ _ => Some short_page) [sample_strategy]
       (fun _ => lit "Title") (fun _ => [])
       (lit "https://example.com/blog/short") false = None.
Proof.
  split.
  - apply (proj1 (proj2 (scrape_content_floor
             (lit "https://example.com/blog") 50 false static_blog_fetch
             (fun _ => None) (fun _ => None) None (fun _ => None)
             (fun _ _ => [lit "https://example.com/blog/my-post"])
             [sample_strategy] (fun _ => lit "Title") (fun _ => [])))
           (lit "https://example.com/blog/my-post") false sample_item).
    vm_compute. reflexivity.
  - apply (proj2 (proj2 (scrape_content_floor
             (lit "https://example.com/blog") 50 false (fun _ _ => Some short_page)
             (fun _ => None) (fun _ => None) None (fun _ => None)
             (fun _ _ => []) [sample_strategy] (fun _ => lit "Title") (fun _ => [])))
           (lit "https://example.com/blog/short") false short_page).
    + reflexivity.
    + intros strategy body [<-|[]] E. vm_compute in E. injection E as <-.
      vm_compute. reflexivity.
Defined.

(** On a framework-based page of an allow-listed platform click discovery
    runs although the page is not classified 'javascript_heavy'. *)
Lemma click_discovery_on_framework_based :
  ~ (In EvClickDiscovery (fst scrape_react_on_medium) ->
     arch_strategy (detect_architecture react_page (lit "https://medium.com/@writer"))
     = javascript_heavy).
Proof.
  intros Hc.
  assert (In EvClickDiscovery (fst scrape_react_on_medium)) as Hin
    by (vm_compute; right; right; left; reflexivity).
  apply Hc in Hin. vm_compute in Hin. discriminate Hin.
Qed.

Lemma click_discovery_rule_witness :
  mentions click_platforms (Py.lower (lit "https://medium.com/@writer"))
  /\ map source_url (snd scrape_react_on_medium)
     = [lit "https://medium.com/@writer/clicked-1"].
Proof.
  destruct (click_discovery_rule
              (lit "https://medium.com/@writer") 50 false
              (fun url _ =>
                 if Py.str_eqb url (lit "https://medium.com/@writer") then Some react_page
                 else Some article_page)
              (fun _ => None) (fun _ => None)
              (Some [{| link_title := lit "A clicked article title";
                        link_url := lit "https://medium.com/@writer/clicked-1" |}])
              (fun _ => Some article_page)
              (fun _ _ => [lit "https://medium.com/@writer/guessed-post-url"])
              [sample_strategy] (fun _ => lit "Title") (fun _ => []))
    as (_ & Hplat & Hitems).
  - vm_compute. right; right; left; reflexivity.
  - split; [exact Hplat|]. vm_compute. reflexivity.
Defined.

(** C9. [detect_content_type] is total and returns 'linkedin_post', 'blog',
    'reddit_comment', 'podcast_transcript' or 'call_transcript': always a
    member of the content_type enumeration and never 'book'; it returns
    'blog' when no platform and no transcript indicator matches.  Hence
    every item of a scrape carries one of these five content types. *)
Theorem detect_content_type_valid :
  (forall url title content,
     In (detect_content_type url title content) web_content_types
     /\ In (detect_content_type url title content) content_type_enum
     /\ detect_content_type url title content <> lit "book"
     /\ (no_indicator url title content ->
         detect_content_type url title content = lit "blog"))
  /\ (forall (soup : Type) (api : BeautifulSoup soup) base_url max_articles
        progress_callback fetch_page fetch_with_playwright fallback_page_links
        click_discovered_urls driver_page find_article_links strategies
        extract_title extract_author item,
        In item
           (snd (scrape base_url max_articles progress_callback fetch_page
                   fetch_with_playwright fallback_page_links click_discovered_urls
                   driver_page find_article_links strategies extract_title
                   extract_author)) ->
        In (content_type item) web_content_types
        /\ content_type item <> lit "book").
Proof.
  assert (forall t, In t web_content_types ->
                    In t content_type_enum /\ t <> lit "book") as Henum.
  { intros t Ht. unfold web_content_types, content_type_enum in *. simpl in *.
    split; [intuition|]. intros ->. intuition discriminate. }
  split.
  - intros url title content.
    pose proof (detect_content_type_cases url title content) as Hc.
    split; [exact Hc|]. destruct (Henum _ Hc) as [He Hb].
    split; [exact He|]. split; [exact Hb|].
    intros (Hplat & Hpu & Hpt & Hpc & Hct & Hcc).
    unfold detect_content_type, Py.prefix.
    repeat rewrite mentions_cons in Hplat.
    apply any_in_false in Hpu, Hpt, Hpc, Hct, Hcc.
    rewrite Hpu, Hpt, Hpc, Hct, Hcc.
    assert (Py.contains (lit "linkedin.com") (Py.lower url) = false) as ->
      by (apply contains_false; tauto).
    assert (Py.contains (lit "reddit.com") (Py.lower url) = false) as ->
      by (apply contains_false; tauto).
    assert (Py.contains (lit "youtube.com") (Py.lower url) = false) as ->
      by (apply contains_false; tauto).
    assert (Py.contains (lit "youtu.be") (Py.lower url) = false) as ->
      by (apply contains_false; tauto).
    reflexivity.
  - intros. assert (In (content_type item) web_content_types) as Ht
      by (eapply scrape_content_types; eassumption).
    split; [exact Ht | apply Henum, Ht].
Qed.

Lemma detect_content_type_valid_witness :
  detect_content_type (lit "https://example.com/notes") (lit "Release notes")
    (lit "What changed in this release.") = lit "blog"
  /\ In (content_type sample_item) web_content_types.
Proof.
  split.
  - apply (proj2 (proj2 (proj2 (proj1 detect_content_type_valid _ _ _)))).
    unfold no_indicator, mentions, substring.
    repeat split; intros [p [Hin Hs]]; apply contains_true in Hs;
      simpl in Hin;
      repeat (destruct Hin as [<- | Hin]; [vm_compute in Hs; discriminate Hs|]);
      exact Hin.
  - apply (proj2 detect_content_type_valid Tree.document Tree.soup
             (lit "https://example.com/blog") 50%Z false static_blog_fetch
             (fun _ => None) (fun _ => None) None (fun _ => None)
             (fun _ _ => [lit "https://example.com/blog/my-post"])
             [sample_strategy] (fun _ => lit "Title") (fun _ => []) sample_item).
    vm_compute. left. reflexivity.
Defined.

(** ** Trimming, slicing and indexing *)

Lemma lstrip_suffix (s : str) :
  exists a, s = a ++ Py.lstrip s /\ forallb Chr.is_space a = true.
Proof.
  induction s as [|c s [a [E Ha]]]; simpl.
  - exists []. auto.
  - destruct (Chr.is_space c) eqn:Hc.
    + exists (c :: a). simpl. rewrite Hc, Ha, <- E. auto.
    + exists []. auto.
Qed.

Lemma lstrip_head (s : str) (c : ascii) (t : str) :
  Py.lstrip s = c :: t -> Chr.is_space c = false.
Proof.
  induction s as [|x s IH]; simpl; [discriminate|].
  destruct (Chr.is_space x) eqn:Hx; [exact IH|].
  intros E. injection E as <- _. exact Hx.
Qed.

Lemma lstrip_app_nonspace (x : str) (c : ascii) :
  Chr.is_space c = false -> Py.lstrip (x ++ [c]) = Py.lstrip x ++ [c].
Proof.
  intros Hc. induction x as [|y x IH]; simpl.
  - rewrite Hc. reflexivity.
  - destruct (Chr.is_space y); [exact IH | reflexivity].
Qed.

Lemma lstrip_idem (s : str) : Py.lstrip (Py.lstrip s) = Py.lstrip s.
Proof.
  induction s as [|c s IH]; simpl; [reflexivity|].
  destruct (Chr.is_space c) eqn:Hc; [exact IH|]. simpl. rewrite Hc. reflexivity.
Qed.

Lemma rstrip_cons_nonspace (c : ascii) (t : str) :
  Chr.is_space c = false -> Py.rstrip (c :: t) = c :: Py.rstrip t.
Proof.
  intros Hc. unfold Py.rstrip. simpl rev.
  rewrite lstrip_app_nonspace by exact Hc. rewrite rev_app_distr. reflexivity.
Qed.

Lemma rstrip_idem (s : str) : Py.rstrip (Py.rstrip s) = Py.rstrip s.
Proof. unfold Py.rstrip. rewrite rev_involutive, lstrip_idem. reflexivity. Qed.

Lemma strip_cons_nonspace (c : ascii) (t : str) :
  Chr.is_space c = false -> Py.strip (c :: t) = c :: Py.rstrip t.
Proof.
  intros Hc. unfold Py.strip. simpl. rewrite Hc. apply rstrip_cons_nonspace, Hc.
Qed.

Lemma strip_head (s : str) (c : ascii) (t : str) :
  Py.strip s = c :: t -> Chr.is_space c = false.
Proof.
  unfold Py.strip. destruct (Py.lstrip s) as [|x u] eqn:E; [discriminate|].
  pose proof (lstrip_head _ _ _ E) as Hx. rewrite rstrip_cons_nonspace by exact Hx.
  intros E'. injection E' as <- _. exact Hx.
Qed.

Lemma strip_idem (s : str) : Py.strip (Py.strip s) = Py.strip s.
Proof.
  destruct (Py.strip s) as [|c t] eqn:E; [reflexivity|].
  pose proof (strip_head _ _ _ E) as Hc. rewrite strip_cons_nonspace by exact Hc. f_equal.
  unfold Py.strip in E. destruct (Py.lstrip s) as [|x u] eqn:El; [discriminate|].
  pose proof (lstrip_head _ _ _ El) as Hx. rewrite rstrip_cons_nonspace in E by exact Hx.
  injection E as _ <-. apply rstrip_idem.
Qed.

Lemma lstrip_forall (P : ascii -> Prop) (s : str) :
  Forall P s -> Forall P (Py.lstrip s).
Proof.
  induction 1 as [|c s Hc Hs IH]; simpl; [constructor|].
  destruct (Chr.is_space c); [exact IH | constructor; assumption].
Qed.

Lemma strip_forall (P : ascii -> Prop) (s : str) :
  Forall P s -> Forall P (Py.strip s).
Proof.
  intros Hs. unfold Py.strip, Py.rstrip.
  apply Forall_rev, lstrip_forall, Forall_rev, lstrip_forall, Hs.
Qed.

Lemma lstrip_nil (s : str) : Py.lstrip s = [] <-> forallb Chr.is_space s = true.
Proof.
  induction s as [|c s IH]; simpl; [tauto|].
  destruct (Chr.is_space c); simpl; [exact IH|]. split; discriminate.
Qed.

Lemma strip_nil (s : str) : Py.strip s = [] <-> forallb Chr.is_space s = true.
Proof.
  rewrite <- lstrip_nil. unfold Py.strip.
  destruct (Py.lstrip s) as [|c t] eqn:E; [split; reflexivity|].
  rewrite rstrip_cons_nonspace by exact (lstrip_head _ _ _ E). split; discriminate.
Qed.

Lemma forall_firstn_skipn (A : Type) (P : A -> Prop) (n : nat) (l : list A) :
  Forall P l -> Forall P (firstn n l) /\ Forall P (skipn n l).
Proof.
  intros Hl. rewrite <- (firstn_skipn n l) in Hl. apply Forall_app in Hl. exact Hl.
Qed.

Lemma slice_forall (P : ascii -> Prop) (s : str) (a b : Z) :
  Forall P s -> Forall P (Py.slice s a b).
Proof.
  intros Hs. unfold Py.slice.
  apply forall_firstn_skipn. apply forall_firstn_skipn, Hs.
Qed.

Lemma clamp_inside (n i : Z) : (0 <= i <= n)%Z -> Py.clamp n i = i.
Proof. intros Hi. unfold Py.clamp. destruct (Z.ltb_spec i 0); lia. Qed.

Lemma clamp_beyond (n i : Z) : (0 <= n <= i)%Z -> Py.clamp n i = n.
Proof. intros Hi. unfold Py.clamp. destruct (Z.ltb_spec i 0); lia. Qed.

Lemma len_nonneg (s : str) : (0 <= len s)%Z.
Proof. unfold len. lia. Qed.

Lemma slice_head (s : str) (a : nat) (e : Z) (x : ascii) :
  nth_error s a = Some x -> (Z.of_nat a < e)%Z ->
  exists t, Py.slice s (Z.of_nat a) e = x :: t.
Proof.
  intros Hx He.
  assert (a < length s) as Ha by (apply nth_error_Some; congruence).
  unfold Py.slice. rewrite (@clamp_inside (len s) (Z.of_nat a)) by (unfold len; lia).
  rewrite Nat2Z.id.
  assert (Z.of_nat a < Py.clamp (len s) e)%Z as Hb.
  { unfold Py.clamp, len. destruct (Z.ltb_spec e 0); lia. }
  destruct (nth_error_split s a Hx) as [l1 [l2 [-> Hl]]].
  rewrite <- Hl, skipn_app, skipn_all, Nat.sub_diag. simpl skipn.
  destruct (Z.to_nat (Py.clamp (len (l1 ++ x :: l2)) e - Z.of_nat (length l1)))
    as [|k] eqn:Ek; [lia|].
  simpl. eexists. reflexivity.
Qed.


Lemma index_inside (s : str) (i : Z) :
  (0 <= i < len s)%Z -> exists c, Py.index s i = Some c.
Proof.
  intros Hi. unfold Py.index. destruct (Z.ltb_spec i 0); [lia|].
  destruct (Z.leb_spec 0 i); [|lia]. destruct (Z.ltb_spec i (len s)); [|lia].
  simpl. destruct (nth_error s (Z.to_nat i)) eqn:E; [eauto|].
  apply nth_error_None in E. unfold len in Hi. lia.
Qed.

(** ** Matches of the chapter patterns *)

Lemma match_here_spec (r : Re.regex) (p : option ascii) (s : str) (n : nat) :
  Re.match_here r (p, s) = Some n ->
  exists w rest, s = w ++ rest /\ length w = n /\ matches r p w rest.
Proof.
  unfold Re.match_here. destruct (Re.ends r (p, s)) as [|[q rest] l] eqn:E; [discriminate|].
  intros En. injection En as <-.
  assert (In (q, rest) (Re.ends r (p, s))) as Hin by (rewrite E; left; reflexivity).
  apply ends_spec in Hin as [w [Hs [_ Hm]]]. exists w, rest.
  split; [exact Hs|]. split; [|exact Hm].
  cbn [snd]. rewrite Hs, length_app. lia.
Qed.

Lemma zero_width_matches (r : Re.regex) p w n :
  zero_width r = true -> matches r p w n -> w = [].
Proof. destruct r; try discriminate; intros _ Hm; inversion Hm; reflexivity. Qed.

Lemma first_class_sound (r : Re.regex) : forall c p w n,
  first_class r = Some c -> matches r p w n ->
  exists x w', w = x :: w' /\ c x = true.
Proof.
  induction r as [|c0|c0 lo|r1 IH1 r2 IH2|r1 IH1 r2 IH2| |m]; intros c p w n Hf Hm;
    simpl in Hf; try discriminate.
  - injection Hf as <-. apply matches_lit_iff in Hm as [x [-> Hx]]. eauto.
  - destruct (Nat.eqb_spec lo 0) as [->|Hlo]; [discriminate|]. injection Hf as <-.
    apply matches_rep_iff in Hm as [Hall Hlen].
    destruct w as [|x w']; [simpl in *; lia|].
    simpl in Hall. apply andb_true_iff in Hall as [Hx _]. eauto.
  - apply matches_cat_iff in Hm as [w1 [w2 [-> [M1 M2]]]].
    destruct (zero_width r1) eqn:Hz.
    + pose proof (zero_width_matches _ _ _ _ Hz M1) as ->. simpl in *.
      eapply IH2; eassumption.
    + destruct (IH1 _ _ _ _ Hf M1) as [x [w' [-> Hx]]]. simpl. eauto.
Qed.

Lemma all_chars_complete (x : ascii) : In x all_chars.
Proof.
  unfold all_chars. apply in_map_iff. exists (nat_of_ascii x).
  split; [apply ascii_nat_embedding|]. apply in_seq.
  pose proof (nat_ascii_bounded x). lia.
Qed.

Lemma sees_no_blank_sound (c : Re.cls) (x : ascii) :
  sees_no_blank c = true -> c x = true -> Chr.is_space x = false \/ x = Chr.nl.
Proof.
  unfold sees_no_blank. rewrite forallb_forall. intros Hall Hx.
  specialize (Hall x (all_chars_complete x)). rewrite Hx in Hall. simpl in Hall.
  apply orb_true_iff in Hall as [Hs|He].
  - left. apply negb_true_iff, Hs.
  - right. apply chr_eqb_eq, He.
Qed.

Lemma match_starts_visibly (r : Re.regex) (p : option ascii) (s : str) (n : nat) :
  starts_visibly r = true -> Re.match_here r (p, s) = Some n ->
  exists x s', s = x :: s' /\ (Chr.is_space x = false \/ x = Chr.nl).
Proof.
  unfold starts_visibly. destruct (first_class r) as [c|] eqn:Hf; [|discriminate].
  intros Hc Hm. apply match_here_spec in Hm as [w [rest [-> [_ Hm]]]].
  destruct (first_class_sound _ _ _ _ _ Hf Hm) as [x [w' [-> Hx]]].
  exists x, (w' ++ rest). split; [reflexivity|]. exact (sees_no_blank_sound _ _ Hc Hx).
Qed.

Lemma chapter_patterns_start_visibly :
  Forall (fun r => starts_visibly r = true) PDF.chapter_patterns.
Proof. repeat constructor. Qed.

Lemma ascending_weaken (lo lo' : nat) (l : list nat) :
  lo' <= lo -> ascending lo l -> ascending lo' l.
Proof. destruct l; simpl; [auto|]. intros Hle [Ha Hl]. split; [lia | exact Hl]. Qed.

Lemma finditer_from_unfold (r : Re.regex) (prev : option ascii) (s : str) (pos : nat) :
  Re.finditer_from r prev s pos 0 =
  match Re.match_here r (prev, s) with
  | Some n =>
      (pos, pos + n) ::
      match s with
      | c :: s' => Re.finditer_from r (Some c) s' (S pos) (pred n)
      | [] => []
      end
  | None =>
      match s with
      | c :: s' => Re.finditer_from r (Some c) s' (S pos) 0
      | [] => []
      end
  end.
Proof. destruct s; reflexivity. Qed.

(** The starts of the matches found by [finditer] increase, and each is the
    offset of a character that a match of the pattern can begin with. *)
Lemma finditer_from_starts (r : Re.regex) (P : ascii -> Prop) :
  (forall p s n, Re.match_here r (p, s) = Some n -> exists x s', s = x :: s' /\ P x) ->
  forall s prev pos skip,
    let starts := map fst (Re.finditer_from r prev s pos skip) in
    ascending pos starts
    /\ Forall (fun a => exists x, nth_error s (a - pos) = Some x /\ P x) starts.
Proof.
  intros Hhead. induction s as [|c s IH]; intros prev pos skip; cbv zeta.
  - destruct skip as [|k]; [|simpl; auto].
    rewrite finditer_from_unfold.
    destruct (Re.match_here _ _) as [n|] eqn:E; [|simpl; auto].
    apply Hhead in E as [x [s' [E _]]]. discriminate.
  - assert (forall prev' skip',
              let starts := map fst (Re.finditer_from r prev' s (S pos) skip') in
              ascending pos starts
              /\ Forall (fun a => exists x, nth_error (c :: s) (a - pos) = Some x /\ P x)
                        starts) as Hrec.
    { intros prev' skip'. cbv zeta. destruct (IH prev' (S pos) skip') as [Hasc Hall].
      split; [eapply ascending_weaken; [|exact Hasc]; lia|].
      clear IH. revert Hasc Hall.
      generalize (map fst (Re.finditer_from r prev' s (S pos) skip')) as l.
      intros l Hasc Hall.
      assert (Forall (fun a => S pos <= a) l) as Hge.
      { clear Hall. revert Hasc. generalize (S pos) as lo.
        induction l as [|a l IHl]; intros lo; simpl; [constructor|].
        intros [Ha Hl]. constructor; [exact Ha|].
        eapply Forall_impl; [|apply (IHl (S a) Hl)]. simpl. intros; lia. }
      rewrite Forall_forall in *. intros a Ha.
      specialize (Hge a Ha). destruct (Hall a Ha) as [x [Hx HP]].
      exists x. split; [|exact HP].
      replace (a - pos) with (S (a - S pos)) by lia. exact Hx. }
    destruct skip as [|k]; [|apply Hrec].
    rewrite finditer_from_unfold.
    destruct (Re.match_here _ _) as [n|] eqn:E; [|apply Hrec].
    cbn [map fst]. destruct (Hrec (Some c) (pred n)) as [Hasc Hall]. split.
    + simpl. split; [lia|].
      destruct (IH (Some c) (S pos) (pred n)) as [Hasc' _]. exact Hasc'.
    + constructor; [|exact Hall].
      apply Hhead in E as [x [s' [E HP]]]. injection E as <- <-.
      exists c. rewrite Nat.sub_diag. auto.
Qed.

(** ** The cleaned text and its chapters *)

Lemma sub_from_unfold (r : Re.regex) (repl : str) (prev : option ascii) (s : str) :
  Re.sub_from r repl prev s 0 =
  match Re.match_here r (prev, s) with
  | Some (S k) =>
      repl ++ match s with
              | c :: s' => Re.sub_from r repl (Some c) s' k
              | [] => []
              end
  | Some O =>
      repl ++ match s with
              | c :: s' => c :: Re.sub_from r repl (Some c) s' 0
              | [] => []
              end
  | None =>
      match s with
      | c :: s' => c :: Re.sub_from r repl (Some c) s' 0
      | [] => []
      end
  end.
Proof. destruct s; reflexivity. Qed.

Lemma match_here_rep_one (c : Re.cls) (p : option ascii) (x : ascii) (s : str) :
  match Re.match_here (Re.Rep c 1) (p, x :: s) with
  | Some (S _) => c x = true
  | Some O => False
  | None => c x = false
  end.
Proof.
  destruct (Re.match_here (Re.Rep c 1) (p, x :: s)) as [[|k]|] eqn:E.
  - apply match_here_spec in E as [w [rest [_ [Hl Hm]]]].
    apply matches_rep_iff in Hm as [_ Hlen]. lia.
  - apply match_here_spec in E as [w [rest [Hs [Hl Hm]]]].
    apply matches_rep_iff in Hm as [Hall _]. destruct w as [|y w]; [discriminate|].
    injection Hs as -> _. simpl in Hall. apply andb_true_iff in Hall as [Hx _]. exact Hx.
  - destruct (c x) eqn:Hx; [|reflexivity]. exfalso.
    destruct (proj2 (match_here_some (Re.Rep c 1) p (x :: s))) as [n Hn].
    + exists [x], s. split; [reflexivity|]. apply matches_rep_iff. simpl.
      rewrite Hx. auto.
    + pose proof (eq_trans (eq_sym Hn) E) as Hc. discriminate Hc.
Qed.

(** After [re.sub(r'\s+', ' ', text)] the only white space left is the single
    space. *)
Lemma sub_space_chars (s : str) : forall prev skip,
  Forall (fun x => Chr.is_space x = true -> x = " "%char)
         (Re.sub_from (Re.Rep Re.space 1) (lit " ") prev s skip).
Proof.
  induction s as [|c s IH]; intros prev skip.
  - destruct skip as [|k]; [|constructor]. rewrite sub_from_unfold.
    destruct (Re.match_here _ _) as [[|k]|]; simpl; repeat constructor.
  - destruct skip as [|k]; [|apply IH]. rewrite sub_from_unfold.
    pose proof (match_here_rep_one Re.space prev c s) as Hm.
    destruct (Re.match_here _ _) as [[|k]|].
    + destruct Hm.
    + simpl. constructor; [reflexivity | apply IH].
    + constructor; [|apply IH]. unfold Re.space in Hm. congruence.
Qed.

Lemma clean_no_newline (text : str) : no_newline (PDF.clean text).
Proof.
  unfold no_newline, PDF.clean. apply strip_forall.
  eapply Forall_impl; [|apply sub_space_chars].
  intros x Hx ->. specialize (Hx eq_refl). discriminate.
Qed.

Lemma clean_keeps_ink (s : str) : starts_with_ink s -> starts_with_ink (PDF.clean s).
Proof.
  intros [x [t [-> Hx]]]. unfold PDF.clean, Re.sub. rewrite sub_from_unfold.
  pose proof (match_here_rep_one Re.space None x t) as Hm.
  destruct (Re.match_here _ _) as [[|k]|].
  - destruct Hm.
  - unfold Re.space in Hm. congruence.
  - rewrite strip_cons_nonspace by exact Hx. eexists _, _. eauto.
Qed.

Lemma slice_length (s : str) (a b : Z) : length (Py.slice s a b) <= length s.
Proof.
  unfold Py.slice. rewrite length_firstn, length_skipn. lia.
Qed.

Lemma chapters_of_contents (text : str) : forall starts i lo,
  ascending lo starts ->
  Forall (fun a => exists x, nth_error text a = Some x /\ Chr.is_space x = false) starts ->
  Forall (fun ch => starts_with_ink (PDF.ch_content ch))
         (PDF.chapters_of text i starts).
Proof.
  induction starts as [|a later IH]; intros i lo Hasc Hall; cbn [PDF.chapters_of];
    [constructor|].
  destruct Hasc as [_ Hasc]. inversion Hall as [|a' l' [x [Hx Hink]] Hrest]; subst.
  constructor; [|eapply IH; eassumption].
  cbn [PDF.ch_content].
  assert (a < length text) as Ha by (apply nth_error_Some; congruence).
  destruct (slice_head text a
              (match later with next :: _ => Z.of_nat next | [] => len text end) x Hx)
    as [t Ht].
  { destruct later as [|next l]; [unfold len; lia|]. simpl in Hasc. lia. }
  rewrite Ht, strip_cons_nonspace by exact Hink. eexists _, _. eauto.
Qed.

Lemma chapters_of_spans (text : str) : forall starts i,
  map PDF.ch_content (PDF.chapters_of text i starts)
  = map (fun ab => Py.strip (Py.slice text (fst ab) (snd ab))) (spans starts (len text)).
Proof.
  induction starts as [|a later IH]; intros i; cbn [PDF.chapters_of spans map];
    [reflexivity|].
  cbn [PDF.ch_content fst snd]. f_equal. apply IH.
Qed.

Lemma chapters_of_bounded (text : str) (P : ascii -> Prop) : forall starts i,
  Forall P text ->
  Forall (fun ch => Forall P (PDF.ch_content ch)
                    /\ (len (PDF.ch_content ch) <= len text)%Z)
         (PDF.chapters_of text i starts).
Proof.
  induction starts as [|a later IH]; intros i HP; cbn [PDF.chapters_of]; constructor.
  - cbn [PDF.ch_content]. split; [apply strip_forall, slice_forall, HP|].
    unfold len.
    pose proof (strip_length (Py.slice text (Z.of_nat a)
                  (match later with next :: _ => Z.of_nat next | [] => len text end))).
    pose proof (slice_length text (Z.of_nat a)
                  (match later with next :: _ => Z.of_nat next | [] => len text end)).
    unfold len in *. lia.
  - apply IH, HP.
Qed.

Lemma chapters_of_length (text : str) : forall starts i,
  length (PDF.chapters_of text i starts) = length starts.
Proof. induction starts; intros i; simpl; auto. Qed.

(** The first pattern with at least two matches decides the chapters. *)
Lemma first_pattern_wins (text : str) (pre : list Re.regex) (p : Re.regex)
    (post : list Re.regex) :
  (forall q, In q pre -> length (Re.finditer q text) < 2) ->
  2 <= length (Re.finditer p text) ->
  PDF.first_pattern (pre ++ p :: post) text
  = PDF.chapters_of text 0 (map fst (Re.finditer p text)).
Proof.
  induction pre as [|q pre IH]; intros Hpre Hp; cbn [app PDF.first_pattern].
  - destruct (Nat.leb_spec 2 (length (Re.finditer p text))); [reflexivity | lia].
  - destruct (Nat.leb_spec 2 (length (Re.finditer q text))) as [Hq|_].
    + specialize (Hpre q (or_introl eq_refl)). lia.
    + apply IH; [|exact Hp]. intros q' Hq'. apply Hpre. right. exact Hq'.
Qed.

Lemma first_pattern_cases (patterns : list Re.regex) (text : str) :
  PDF.first_pattern patterns text = []
  \/ exists p, In p patterns /\ 2 <= length (Re.finditer p text)
               /\ PDF.first_pattern patterns text
                  = PDF.chapters_of text 0 (map fst (Re.finditer p text)).
Proof.
  induction patterns as [|q patterns IH]; cbn [PDF.first_pattern]; [left; reflexivity|].
  destruct (Nat.leb_spec 2 (length (Re.finditer q text))) as [Hq|_].
  - right. exists q. simpl. auto.
  - destruct IH as [IH|[p [Hin [Hp E]]]]; [left; exact IH|].
    right. exists p. simpl. auto.
Qed.

(** Every chapter found in a cleaned text starts with a visible character,
    contains no newline and is no longer than the text. *)
Lemma chapters_well_formed (text : str) :
  no_newline text ->
  Forall (fun ch => starts_with_ink (PDF.ch_content ch)
                    /\ no_newline (PDF.ch_content ch)
                    /\ (len (PDF.ch_content ch) <= len text)%Z)
         (PDF._find_chapter_boundaries text).
Proof.
  intros Hnl. unfold PDF._find_chapter_boundaries.
  destruct (first_pattern_cases PDF.chapter_patterns text) as [E | [p [Hin [_ E]]]];
    rewrite E; [constructor|].
  pose proof (proj1 (Forall_forall _ _) chapter_patterns_start_visibly p Hin) as Hvis.
  destruct (finditer_from_starts p (fun x => Chr.is_space x = false \/ x = Chr.nl)
              (fun q s n => match_starts_visibly p q s n Hvis) text None 0 0)
    as [Hasc Hall].
  fold (Re.finditer p text) in Hasc, Hall.
  assert (Forall (fun a => exists x, nth_error text a = Some x /\ Chr.is_space x = false)
                 (map fst (Re.finditer p text))) as Hink.
  { eapply Forall_impl; [|exact Hall]. intros a [x [Hx HP]]. rewrite Nat.sub_0_r in Hx.
    exists x. split; [exact Hx|]. destruct HP as [HP | ->]; [exact HP|].
    exfalso. apply nth_error_In in Hx.
    exact (proj1 (Forall_forall _ _) Hnl _ Hx eq_refl). }
  pose proof (chapters_of_contents text _ 0 0 Hasc Hink) as H1.
  pose proof (chapters_of_bounded text (fun x => x <> Chr.nl)
                (map fst (Re.finditer p text)) 0 Hnl) as H2.
  rewrite Forall_forall in *. intros ch Hch.
  destruct (H2 ch Hch) as [Hn Hl]. auto.
Qed.

(** ** The two chunking loops *)

Lemma sentence_break_spec (text : str) : forall count i,
  (0 <= i)%Z ->
  exists r, PDF.sentence_break text i count = Ok r
            /\ match r with
               | None => True
               | Some e => (i < e <= i + Z.of_nat count /\ e < len text)%Z
               end.
Proof.
  induction count as [|k IH]; intros i Hi.
  - exists None. simpl. auto.
  - assert (exists r, PDF.sentence_break text (i + 1) k = Ok r
                      /\ match r with
                         | None => True
                         | Some e => (i < e <= i + Z.of_nat (S k) /\ e < len text)%Z
                         end) as Hnext.
    { destruct (IH (i + 1)%Z) as [r [Er Hr]]; [lia|]. exists r. split; [exact Er|].
      destruct r; [lia | exact I]. }
    cbn [PDF.sentence_break].
    destruct (Z.ltb_spec i (len text)) as [Hlt|_]; [|exact Hnext].
    destruct (index_inside text i) as [c Ec]; [lia|]. rewrite Ec.
    destruct (PDF.sentence_end c); [|exact Hnext]. cbn [andb].
    destruct (Z.ltb_spec (i + 1) (len text)) as [Hlt1|_]; [|exact Hnext].
    destruct (index_inside text (i + 1)) as [d Ed]; [lia|]. rewrite Ed.
    destruct (Chr.eqb d " "); [|exact Hnext].
    exists (Some (i + 1)%Z). split; [reflexivity | lia].
Qed.

Lemma rfind_from_absent (s : str) : forall j lo hi,
  no_newline s -> PDF.rfind_from [Chr.nl; Chr.nl] s j lo hi = (-1)%Z.
Proof.
  induction s as [|c s IH]; intros j lo hi Hs; cbn [PDF.rfind_from].
  - cbn [Py.startswith]. rewrite andb_false_r. reflexivity.
  - inversion Hs as [|c' s' Hc Hs']; subst. rewrite (IH _ _ _ Hs'). cbn [Z.leb].
    cbn [Py.startswith].
    assert (Chr.eqb Chr.nl c = false) as ->.
    { destruct (Chr.eqb Chr.nl c) eqn:E; [|reflexivity].
      apply chr_eqb_eq in E. congruence. }
    cbn [andb]. rewrite andb_false_r. reflexivity.
Qed.

Lemma outcome_bind_ok (A B : Type) (m : result A) (k : A -> result B) (b : B) :
  bind m k = Ok b -> exists a, m = Ok a /\ k a = Ok b.
Proof. destruct m; simpl; intros E; try discriminate. eauto. Qed.

Section ChunkerLoops.

Variables chunk_size chunk_overlap : Z.

Lemma split_end_spec (content : str) (start : Z) :
  advancing chunk_size chunk_overlap -> no_newline content -> (0 <= start)%Z ->
  exists e, PDF.split_end chunk_size content start = Ok e
            /\ (start + chunk_overlap < e)%Z.
Proof.
  intros (Hov & Hcs & _) Hnl Hstart. unfold PDF.split_end.
  destruct (Z.ltb_spec (start + chunk_size) (len content)) as [Hlt|_];
    [|eexists; split; [reflexivity | lia]].
  unfold PDF.rfind. rewrite rfind_from_absent by exact Hnl.
  destruct (Z.gtb_spec (-1) start); [lia|].
  destruct (sentence_break_spec content
              (PDF.range_len (start + chunk_size - 100) (start + chunk_size + 100))
              (start + chunk_size - 100)) as [r [Er Hr]]; [lia|].
  rewrite Er. cbn [bind]. eexists. split; [reflexivity|]. destruct r; lia.
Qed.

Lemma size_end_spec (text : str) (start : Z) :
  advancing chunk_size chunk_overlap -> (0 <= start)%Z ->
  exists e, PDF.size_end chunk_size chunk_overlap text start = Ok e
            /\ (start + chunk_overlap < e)%Z.
Proof.
  intros (Hov & Hcs & Hcs2) Hstart. unfold PDF.size_end.
  destruct (Z.ltb_spec (start + chunk_size) (len text)) as [Hlt|_];
    [|eexists; split; [reflexivity | lia]].
  destruct (sentence_break_spec text
              (PDF.range_len (start + chunk_size - chunk_overlap)
                 (start + chunk_size + chunk_overlap))
              (start + chunk_size - chunk_overlap)) as [r [Er Hr]]; [lia|].
  rewrite Er. cbn [bind]. eexists. split; [reflexivity|]. destruct r; lia.
Qed.

Lemma next_start_spec (start e : Z) :
  (0 <= start)%Z -> (start + chunk_overlap < e)%Z ->
  PDF.next_start chunk_overlap e = (e - chunk_overlap)%Z.
Proof.
  intros Hs He. unfold PDF.next_start.
  destruct (Z.leb_spec (e - chunk_overlap) 0); [lia | reflexivity].
Qed.

(** With enough fuel the loop of [_split_large_chapter] ends normally. *)
Lemma split_loop_terminates (content chapter_title : str) (chapter_index : nat) :
  advancing chunk_size chunk_overlap -> no_newline content ->
  forall fuel start part_index,
    (0 <= start)%Z -> (len content - start < Z.of_nat fuel)%Z -> 0 < fuel ->
    exists chunks,
      PDF.split_loop chunk_size chunk_overlap fuel content chapter_title
        chapter_index start part_index = Ok chunks.
Proof.
  intros Hadv Hnl. induction fuel as [|fuel IH]; intros start part_index Hs Hfuel Hpos;
    [lia|].
  cbn [PDF.split_loop].
  destruct (Z.ltb_spec start (len content)) as [Hlt|_]; [|eexists; reflexivity].
  destruct (split_end_spec content start Hadv Hnl Hs) as [e [Ee He]].
  rewrite Ee. cbn [bind]. rewrite (next_start_spec start e Hs He).
  assert (forall part, exists chunks,
            PDF.split_loop chunk_size chunk_overlap fuel content chapter_title
              chapter_index (e - chunk_overlap) part = Ok chunks) as Hrec.
  { intros part. apply IH; lia. }
  destruct (Py.strip (Py.slice content start e)) as [|c t]; [apply Hrec|].
  destruct (Hrec (part_index + 1)) as [rest Erest]. rewrite Erest. cbn [bind].
  eexists. reflexivity.
Qed.

(** With enough fuel the loop of [_size_based_chunking] ends normally. *)
Lemma size_loop_terminates (text : str) :
  advancing chunk_size chunk_overlap ->
  forall fuel start index,
    (0 <= start)%Z -> (len text - start < Z.of_nat fuel)%Z -> 0 < fuel ->
    exists chunks,
      PDF.size_loop chunk_size chunk_overlap fuel text start index = Ok chunks.
Proof.
  intros Hadv. induction fuel as [|fuel IH]; intros start index Hs Hfuel Hpos; [lia|].
  cbn [PDF.size_loop].
  destruct (Z.ltb_spec start (len text)) as [Hlt|_]; [|eexists; reflexivity].
  destruct (size_end_spec text start Hadv Hs) as [e [Ee He]].
  rewrite Ee. cbn [bind]. rewrite (next_start_spec start e Hs He).
  assert (forall k, exists chunks,
            PDF.size_loop chunk_size chunk_overlap fuel text
              (e - chunk_overlap) k = Ok chunks) as Hrec.
  { intros k. apply IH; lia. }
  destruct (Py.strip (Py.slice text start e)) as [|c t]; [apply Hrec|].
  destruct (Hrec (index + 1)) as [rest Erest]. rewrite Erest. cbn [bind].
  eexists. reflexivity.
Qed.

Lemma emitted_strip (s : str) (c : ascii) (t : str) (title kind : str) (i n : nat) :
  Py.strip s = c :: t ->
  emitted {| PDF.title := title; PDF.content := c :: t; PDF.content_type := kind;
             PDF.chunk_index := i; PDF.total_chunks := n |}.
Proof.
  intros E. split; cbn [PDF.content]; [discriminate|].
  rewrite <- E. apply strip_idem.
Qed.

Lemma split_loop_chunks (content chapter_title : str) (chapter_index : nat) :
  forall fuel start part_index chunks,
    PDF.split_loop chunk_size chunk_overlap fuel content chapter_title
      chapter_index start part_index = Ok chunks ->
    Forall (fun c => emitted c /\ PDF.chunk_index c = chapter_index) chunks.
Proof.
  induction fuel as [|fuel IH]; intros start part_index chunks; cbn [PDF.split_loop];
    [discriminate|].
  destruct (start <? len content)%Z; [|intros E; injection E as <-; constructor].
  intros E. apply outcome_bind_ok in E as [e [_ E]].
  destruct (Py.strip (Py.slice content start e)) as [|c t] eqn:Es;
    [eapply IH; exact E|].
  apply outcome_bind_ok in E as [rest [Erest E]]. injection E as <-.
  constructor; [|eapply IH; exact Erest].
  split; [eapply emitted_strip; exact Es | reflexivity].
Qed.

Lemma size_loop_chunks (text : str) :
  forall fuel start index chunks,
    PDF.size_loop chunk_size chunk_overlap fuel text start index = Ok chunks ->
    Forall emitted chunks
    /\ map PDF.chunk_index chunks = seq index (length chunks).
Proof.
  induction fuel as [|fuel IH]; intros start index chunks; cbn [PDF.size_loop];
    [discriminate|].
  destruct (start <? len text)%Z;
    [|intros E; injection E as <-; split; [constructor | reflexivity]].
  intros E. apply outcome_bind_ok in E as [e [_ E]].
  destruct (Py.strip (Py.slice text start e)) as [|c t] eqn:Es;
    [eapply IH; exact E|].
  apply outcome_bind_ok in E as [rest [Erest E]]. injection E as <-.
  destruct (IH _ _ _ Erest) as [Hem Hidx]. split.
  - constructor; [eapply emitted_strip; exact Es | exact Hem].
  - cbn [map length seq PDF.chunk_index]. f_equal.
    rewrite Hidx. f_equal. lia.
Qed.


End ChunkerLoops.

(** ** Chapters into chunks *)


Lemma backfill_content (chunks : list PDF.chunk) :
  map PDF.content (PDF.backfill chunks) = map PDF.content chunks.
Proof. unfold PDF.backfill. rewrite map_map. reflexivity. Qed.

Lemma backfill_length (chunks : list PDF.chunk) :
  length (PDF.backfill chunks) = length chunks.
Proof. unfold PDF.backfill. apply length_map. Qed.


Lemma backfill_emitted (chunks : list PDF.chunk) :
  Forall emitted chunks -> Forall emitted (PDF.backfill chunks).
Proof.
  intros H. unfold PDF.backfill. apply Forall_forall. intros c Hc.
  apply in_map_iff in Hc as [c0 [<- Hc0]].
  exact (proj1 (Forall_forall _ _) H c0 Hc0).
Qed.




Section ChapterFacts.

Variables chunk_size chunk_overlap : Z.

Lemma chapter_loop_terminates (limit : Z) (fuel n : nat) :
  advancing chunk_size chunk_overlap -> (limit < Z.of_nat fuel)%Z ->
  forall chapters i,
    Forall (sound_chapter limit) chapters ->
    exists chunks,
      PDF.chapter_loop chunk_size chunk_overlap fuel n i chapters = Ok chunks.
Proof.
  intros Hadv Hfuel. induction chapters as [|ch later IH]; intros i Hall;
    cbn [PDF.chapter_loop]; [eexists; reflexivity|].
  inversion Hall as [|ch' l' (Hink & Hnl & Hlen) Hlater]; subst.
  destruct (IH (S i) Hlater) as [rest Erest]. rewrite Erest.
  destruct (len (PDF.ch_content ch) >? chunk_size * 2)%Z.
  - pose proof (len_nonneg (PDF.ch_content ch)) as Hpos.
    destruct (split_loop_terminates chunk_size chunk_overlap (PDF.ch_content ch)
                (PDF.ch_title ch) i Hadv Hnl fuel 0 1) as [here Ehere]; [lia | lia | lia|].
    unfold PDF._split_large_chapter. rewrite Ehere. cbn [bind]. eexists. reflexivity.
  - cbn [bind]. eexists. reflexivity.
Qed.


Lemma chapter_loop_emitted (fuel n : nat) :
  forall chapters i chunks,
    Forall (fun ch => starts_with_ink (PDF.ch_content ch)
                      /\ Py.strip (PDF.ch_content ch) = PDF.ch_content ch) chapters ->
    PDF.chapter_loop chunk_size chunk_overlap fuel n i chapters = Ok chunks ->
    Forall emitted chunks.
Proof.
  induction chapters as [|ch later IH]; intros i chunks Hall; cbn [PDF.chapter_loop].
  - intros E. injection E as <-. constructor.
  - inversion Hall as [|ch' l' [[x [t [Hx _]]] Hstrip] Hlater]; subst.
    intros E. apply outcome_bind_ok in E as [here [Ehere E]].
    apply outcome_bind_ok in E as [rest [Erest E]]. injection E as <-.
    apply Forall_app. split; [|eapply IH; eassumption].
    destruct (len (PDF.ch_content ch) >? chunk_size * 2)%Z.
    + apply split_loop_chunks in Ehere.
      eapply Forall_impl; [|exact Ehere]. intros c [Hc _]. exact Hc.
    + injection Ehere as <-. constructor; [|constructor].
      split; cbn [PDF.content]; [congruence | exact Hstrip].
Qed.


End ChapterFacts.

Lemma chapters_of_stripped (text : str) : forall starts i,
  Forall (fun ch => Py.strip (PDF.ch_content ch) = PDF.ch_content ch)
         (PDF.chapters_of text i starts).
Proof.
  induction starts as [|a later IH]; intros i; cbn [PDF.chapters_of]; constructor.
  - cbn [PDF.ch_content]. apply strip_idem.
  - apply IH.
Qed.

Lemma found_chapters_stripped (text : str) :
  Forall (fun ch => Py.strip (PDF.ch_content ch) = PDF.ch_content ch)
         (PDF._find_chapter_boundaries text).
Proof.
  unfold PDF._find_chapter_boundaries.
  destruct (first_pattern_cases PDF.chapter_patterns text) as [E | [p [_ [_ E]]]];
    rewrite E; [constructor | apply chapters_of_stripped].
Qed.

(** ** [chunk_text] *)

Lemma chunk_text_unfold (chunk_size chunk_overlap : Z) (fuel : nat) (text title : str) :
  PDF.chunk_text chunk_size chunk_overlap fuel text title =
  if (len (PDF.clean text) <=? chunk_size)%Z then
    Ok [ {| PDF.title := match title with
                         | [] => lit "PDF Content"
                         | _ => title ++ lit " (Complete)"
                         end;
            PDF.content := PDF.clean text; PDF.content_type := lit "book";
            PDF.chunk_index := 0; PDF.total_chunks := 1 |} ]
  else
    match PDF._find_chapter_boundaries (PDF.clean text) with
    | _ :: _ =>
        PDF._process_chapter_chunks chunk_size chunk_overlap fuel
          (PDF._find_chapter_boundaries (PDF.clean text))
    | [] => PDF._size_based_chunking chunk_size chunk_overlap fuel (PDF.clean text) title
    end.
Proof.
  unfold PDF.chunk_text. destruct (len (PDF.clean text) <=? chunk_size)%Z; [reflexivity|].
  destruct (PDF._find_chapter_boundaries (PDF.clean text)); reflexivity.
Qed.

Lemma found_chapters_sound (text : str) :
  Forall (sound_chapter (len (PDF.clean text)))
         (PDF._find_chapter_boundaries (PDF.clean text)).
Proof. apply chapters_well_formed, clean_no_newline. Qed.





Lemma chunk_text_returns (chunk_size chunk_overlap : Z) (fuel : nat)
    (text title : str) :
  advancing chunk_size chunk_overlap ->
  (len (PDF.clean text) < Z.of_nat fuel)%Z ->
  exists chunks, PDF.chunk_text chunk_size chunk_overlap fuel text title = Ok chunks.
Proof.
  intros Hadv Hfuel. rewrite chunk_text_unfold.
  pose proof (len_nonneg (PDF.clean text)) as Hpos.
  destruct (len (PDF.clean text) <=? chunk_size)%Z; [eexists; reflexivity|].
  pose proof (found_chapters_sound text) as Hsound.
  destruct (PDF._find_chapter_boundaries (PDF.clean text)) as [|ch later].
  - unfold PDF._size_based_chunking.
    destruct (size_loop_terminates chunk_size chunk_overlap (PDF.clean text) Hadv
                fuel 0 0) as [chunks E]; [lia | lia | lia|].
    rewrite E. eexists. reflexivity.
  - unfold PDF._process_chapter_chunks.
    destruct (chapter_loop_terminates chunk_size chunk_overlap (len (PDF.clean text))
                fuel (length (ch :: later)) Hadv Hfuel (ch :: later) 0 Hsound)
      as [chunks E].
    rewrite E. eexists. reflexivity.
Qed.

(** C6. The first pattern with at least two matches decides the chapters,
    which are cut at consecutive match starts, the last one running to the
    end of the text.  For a cleaned text longer than the chunk size in which
    the first pattern ([Chapter N]) has exactly two matches, and whose two
    chapter spans are at most twice the chunk size, [chunk_text] returns
    exactly two chunks, the two chapters in order, with total_chunks 2 on
    both. *)
Theorem chunk_text_two_chapters (chunk_size chunk_overlap : Z) (fuel : nat)
    (text title : str) :
  (forall pre p post,
     PDF.chapter_patterns = pre ++ p :: post ->
     (forall q, In q pre -> length (Re.finditer q (PDF.clean text)) < 2) ->
     2 <= length (Re.finditer p (PDF.clean text)) ->
     map PDF.ch_content (PDF._find_chapter_boundaries (PDF.clean text))
     = map (fun ab => Py.strip (Py.slice (PDF.clean text) (fst ab) (snd ab)))
           (spans (map fst (Re.finditer p (PDF.clean text))) (len (PDF.clean text))))
  /\ (forall s1 e1 s2 e2,
        (chunk_size < len (PDF.clean text))%Z ->
        Re.finditer (hd Re.Empty PDF.chapter_patterns) (PDF.clean text)
        = [(s1, e1); (s2, e2)] ->
        (len (Py.strip (Py.slice (PDF.clean text) (Z.of_nat s1) (Z.of_nat s2)))
         <= 2 * chunk_size)%Z ->
        (len (Py.strip (Py.slice (PDF.clean text) (Z.of_nat s2) (len (PDF.clean text))))
         <= 2 * chunk_size)%Z ->
        exists c1 c2,
          PDF.chunk_text chunk_size chunk_overlap fuel text title = Ok [c1; c2]
          /\ PDF.content c1
             = Py.strip (Py.slice (PDF.clean text) (Z.of_nat s1) (Z.of_nat s2))
          /\ PDF.content c2
             = Py.strip (Py.slice (PDF.clean text) (Z.of_nat s2) (len (PDF.clean text)))
          /\ PDF.chunk_index c1 = 0 /\ PDF.chunk_index c2 = 1
          /\ PDF.total_chunks c1 = 2 /\ PDF.total_chunks c2 = 2).
Proof.
  split.
  - intros pre p post Epat Hpre Hp. unfold PDF._find_chapter_boundaries.
    rewrite Epat, (first_pattern_wins _ pre p post Hpre Hp). apply chapters_of_spans.
  - intros s1 e1 s2 e2 Hlong Hm Hc1 Hc2. rewrite chunk_text_unfold.
    destruct (Z.leb_spec (len (PDF.clean text)) chunk_size) as [Hle|_]; [lia|].
    assert (PDF._find_chapter_boundaries (PDF.clean text)
            = PDF.chapters_of (PDF.clean text) 0 [s1; s2]) as Ech.
    { unfold PDF._find_chapter_boundaries.
      change PDF.chapter_patterns
        with ([] ++ hd Re.Empty PDF.chapter_patterns :: tl PDF.chapter_patterns).
      rewrite first_pattern_wins.
      - rewrite Hm. reflexivity.
      - intros q [].
      - rewrite Hm. simpl. lia. }
    rewrite Ech. cbn [PDF.chapters_of]. unfold PDF._process_chapter_chunks.
    cbn [PDF.chapter_loop PDF.ch_content PDF.ch_title length].
    destruct (Z.gtb_spec
                (len (Py.strip (Py.slice (PDF.clean text) (Z.of_nat s1) (Z.of_nat s2))))
                (chunk_size * 2)) as [Hgt|_]; [lia|].
    destruct (Z.gtb_spec
                (len (Py.strip (Py.slice (PDF.clean text) (Z.of_nat s2)
                                  (len (PDF.clean text)))))
                (chunk_size * 2)) as [Hgt|_]; [lia|].
    cbn [bind app PDF.backfill map PDF.set_total length].
    eexists _, _. split; [reflexivity|].
    cbn [PDF.content PDF.chunk_index PDF.total_chunks]. repeat split.
Qed.

(** Scenario B: 3000 characters, two chapter markers, chunk size 1000. *)
Lemma chunk_text_two_chapters_witness :
  len (PDF.clean two_chapter_text) = 3000%Z
  /\ exists c1 c2,
       PDF.chunk_text 1000 200 3000 two_chapter_text (lit "Book") = Ok [c1; c2]
       /\ PDF.total_chunks c1 = 2 /\ PDF.total_chunks c2 = 2.
Proof.
  split; [vm_compute; reflexivity|].
  destruct (proj2 (chunk_text_two_chapters 1000 200 3000 two_chapter_text (lit "Book"))
              0 10 1500 1510) as [c1 [c2 (E & _ & _ & _ & _ & H1 & H2)]].
  - vm_compute. reflexivity.
  - vm_compute. reflexivity.
  - vm_compute. discriminate.
  - vm_compute. discriminate.
  - exists c1, c2. auto.
Defined.

(** C10, as the code has it.  For a text that is not white space only, as
    every text that [process_pdf_file] passes on, [chunk_text] never emits a
    chunk whose content is empty or white space only.  In the chapter
    splitting loop and in the size-based loop a candidate whose trimmed
    content is empty is skipped, and in the size-based loop the index counter
    advances only for emitted chunks, so the indices stay contiguous. *)
Theorem chunks_never_empty (chunk_size chunk_overlap : Z) (fuel : nat) :
  (forall text title chunks,
     PDF.clean text <> [] ->
     PDF.chunk_text chunk_size chunk_overlap fuel text title = Ok chunks ->
     Forall emitted chunks)
  /\ (forall pages pdf_path title author items,
        PDF.process_pdf_file chunk_size chunk_overlap fuel pages pdf_path title author
        = Ok items ->
        Forall (fun it => emitted (PDF.item_chunk it)) items)
  /\ (forall content chapter_title chapter_index start part_index chunks,
        PDF.split_loop chunk_size chunk_overlap fuel content chapter_title
          chapter_index start part_index = Ok chunks ->
        Forall emitted chunks)
  /\ (forall text start index chunks,
        PDF.size_loop chunk_size chunk_overlap fuel text start index = Ok chunks ->
        Forall emitted chunks
        /\ map PDF.chunk_index chunks = seq index (length chunks)).
Proof.
  assert (forall text title chunks,
            PDF.clean text <> [] ->
            PDF.chunk_text chunk_size chunk_overlap fuel text title = Ok chunks ->
            Forall emitted chunks) as Hchunks.
  { intros text title chunks Hne. rewrite chunk_text_unfold.
    destruct (len (PDF.clean text) <=? chunk_size)%Z.
    { intros E. injection E as <-. constructor; [|constructor].
      split; cbn [PDF.content]; [exact Hne | apply strip_idem]. }
    pose proof (found_chapters_sound text) as Hsound.
    pose proof (found_chapters_stripped (PDF.clean text)) as Hstrip.
    destruct (PDF._find_chapter_boundaries (PDF.clean text)) as [|ch later].
    - unfold PDF._size_based_chunking. intros E.
      apply outcome_bind_ok in E as [raw [Eraw E]]. injection E as <-.
      apply backfill_emitted. apply size_loop_chunks in Eraw. apply Eraw.
    - unfold PDF._process_chapter_chunks. intros E.
      apply outcome_bind_ok in E as [raw [Eraw E]]. injection E as <-.
      apply backfill_emitted.
      eapply chapter_loop_emitted; [|exact Eraw].
      rewrite Forall_forall in *. intros c Hc.
      destruct (Hsound c Hc) as [Hink _]. split; [exact Hink | exact (Hstrip c Hc)]. }
  split; [exact Hchunks|]. split; [|split].
  - intros pages pdf_path title author items. unfold PDF.process_pdf_file.
    destruct (PDF.extract_text_from_pdf pages) as [|x t] eqn:Etext.
    + intros E. injection E as <-. constructor.
    + intros E. apply outcome_bind_ok in E as [chunks [Echunks E]]. injection E as <-.
      apply Forall_map. cbn [PDF.item_chunk].
      apply (Hchunks (x :: t) title chunks); [|exact Echunks].
      assert (starts_with_ink (x :: t)) as Hink.
      { exists x, t. split; [reflexivity|].
        unfold PDF.extract_text_from_pdf in Etext.
        destruct pages as [ps|]; [|discriminate]. exact (strip_head _ _ _ Etext). }
      apply clean_keeps_ink in Hink as [y [u [Ey _]]]. rewrite Ey. discriminate.
  - intros content chapter_title chapter_index start part_index chunks E.
    apply split_loop_chunks in E. eapply Forall_impl; [|exact E].
    intros c [Hc _]. exact Hc.
  - intros text start index chunks E. exact (size_loop_chunks _ _ _ _ _ _ _ E).
Qed.

(** A text of white space only comes back as one chunk with empty content. *)
Lemma blank_text_chunk :
  ~ (forall chunks,
       PDF.chunk_text 1000 200 10 (lit "   ") (lit "Book") = Ok chunks ->
       Forall (fun c => Py.strip (PDF.content c) <> []) chunks).
Proof.
  intros Hclaim.
  assert (PDF.chunk_text 1000 200 10 (lit "   ") (lit "Book")
          = Ok [ {| PDF.title := lit "Book (Complete)"; PDF.content := [];
                    PDF.content_type := lit "book"; PDF.chunk_index := 0;
                    PDF.total_chunks := 1 |} ]) as E by (vm_compute; reflexivity).
  apply Hclaim in E. apply Forall_cons_iff in E as [Hne _]. apply Hne. reflexivity.
Qed.

Lemma chunks_never_empty_witness :
  exists chunks,
    PDF.chunk_text 1000 200 3000 plain_text (lit "Book") = Ok chunks
    /\ Forall emitted chunks.
Proof.
  destruct (chunk_text_returns 1000 200 3000 plain_text (lit "Book")) as [chunks E].
  - unfold advancing. lia.
  - vm_compute. reflexivity.
  - exists chunks. split; [exact E|].
    apply (proj1 (chunks_never_empty 1000 200 3000) plain_text (lit "Book") chunks);
      [|exact E].
    vm_compute. discriminate.
Defined.

(** ** Coverage of the document *)

Lemma preface_coverage :
  covered (lit "Preface: why this book exists")
          (PDF.chunk_text 1000 200 3000 preface_text (lit "Book"))
  = Some false.
Proof. vm_compute. reflexivity. Qed.

(** C7 fails on a document with text before its first chapter marker: the
    preface is part of the cleaned text and of no chunk. *)
Theorem preface_not_covered :
  exists chunks,
    PDF.chunk_text 1000 200 3000 preface_text (lit "Book") = Ok chunks
    /\ substring (lit "Preface: why this book exists") (PDF.clean preface_text)
    /\ ~ substring (lit "Preface: why this book exists")
                   (concat (map PDF.content chunks)).
Proof.
  pose proof preface_coverage as Hcov.
  destruct (PDF.chunk_text 1000 200 3000 preface_text (lit "Book")) as [chunks| |];
    try discriminate Hcov.
  exists chunks. split; [reflexivity|]. split.
  - apply contains_true. vm_compute. reflexivity.
  - apply contains_false. cbn [covered] in Hcov. injection Hcov as Hcov. exact Hcov.
Qed.

(** * Further properties of the code *)

(** ** Nothing is lost between the cuts *)

Lemma forallb_rev (A : Type) (f : A -> bool) (l : list A) :
  forallb f l = true -> forallb f (rev l) = true.
Proof.
  rewrite !forallb_forall. intros Hl x Hx. apply Hl, in_rev, Hx.
Qed.

Lemma strip_decompose (s : str) :
  exists w1 w2,
    s = w1 ++ Py.strip s ++ w2
    /\ forallb Chr.is_space w1 = true /\ forallb Chr.is_space w2 = true.
Proof.
  destruct (lstrip_suffix s) as [a [Ea Ha]].
  destruct (lstrip_suffix (rev (Py.lstrip s))) as [b [Eb Hb]].
  exists a, (rev b). split; [|split; [exact Ha | apply forallb_rev, Hb]].
  unfold Py.strip, Py.rstrip. rewrite <- rev_app_distr, <- Eb, rev_involutive.
  exact Ea.
Qed.

Lemma ink_inside (w1 m w2 : str) (q : nat) (x : ascii) :
  forallb Chr.is_space w1 = true -> forallb Chr.is_space w2 = true ->
  nth_error (w1 ++ m ++ w2) q = Some x -> Chr.is_space x = false ->
  length w1 <= q < length w1 + length m.
Proof.
  intros H1 H2 Hq Hx.
  assert (forall w, forallb Chr.is_space w = true -> forall k, nth_error w k <> Some x)
    as Hblank.
  { intros w Hw k Hk. apply nth_error_In in Hk.
    rewrite forallb_forall in Hw. specialize (Hw x Hk). congruence. }
  destruct (Nat.lt_ge_cases q (length w1)) as [Hlt|Hge].
  - rewrite nth_error_app1 in Hq by exact Hlt. exfalso. exact (Hblank w1 H1 q Hq).
  - split; [exact Hge|]. rewrite nth_error_app2 in Hq by exact Hge.
    destruct (Nat.lt_ge_cases (q - length w1) (length m)) as [Hlt|Hge2]; [lia|].
    rewrite nth_error_app2 in Hq by exact Hge2. exfalso.
    exact (Hblank w2 H2 _ Hq).
Qed.

Lemma slice_decompose (text : str) (start e : Z) :
  (0 <= start < len text)%Z -> (start < e)%Z ->
  text = firstn (Z.to_nat start) text ++ Py.slice text start e
         ++ skipn (Z.to_nat (Z.min e (len text))) text
  /\ length (Py.slice text start e)
     = Z.to_nat (Z.min e (len text)) - Z.to_nat start.
Proof.
  intros Hs He. unfold Py.slice.
  rewrite (clamp_inside (len text) start) by lia.
  assert (Py.clamp (len text) e = Z.min e (len text)) as ->.
  { unfold Py.clamp. destruct (Z.ltb_spec e 0); lia. }
  set (A := Z.to_nat start). set (B := Z.to_nat (Z.min e (len text))).
  assert (Z.to_nat (Z.min e (len text) - start) = B - A) as -> by (unfold A, B; lia).
  assert (A <= B <= length text) as HAB by (unfold A, B, len in *; lia).
  split.
  - rewrite <- (firstn_skipn A text) at 1. f_equal.
    rewrite <- (firstn_skipn (B - A) (skipn A text)) at 1. f_equal.
    rewrite skipn_skipn. f_equal. lia.
  - rewrite length_firstn, length_skipn. lia.
Qed.

(** A visible character inside a slice lies inside the trimmed slice. *)
Lemma slice_covers (text : str) (start e : Z) (p : nat) (x : ascii) :
  (0 <= start)%Z -> (start <= Z.of_nat p < e)%Z ->
  nth_error text p = Some x -> Chr.is_space x = false ->
  exists pre post,
    text = pre ++ Py.strip (Py.slice text start e) ++ post
    /\ length pre <= p < length pre + length (Py.strip (Py.slice text start e)).
Proof.
  intros Hs Hp Hx Hink.
  assert (p < length text) as Hlen by (apply nth_error_Some; congruence).
  destruct (slice_decompose text start e) as [Etext Elen];
    [unfold len; lia | lia|].
  destruct (strip_decompose (Py.slice text start e)) as [w1 [w2 [Eslice [H1 H2]]]].
  set (A := Z.to_nat start) in *. set (B := Z.to_nat (Z.min e (len text))) in *.
  assert (A <= p < B) as HAB by (unfold A, B, len; lia).
  assert (length (firstn A text) = A) as HA by (rewrite length_firstn; lia).
  assert (nth_error (Py.slice text start e) (p - A) = Some x) as Hq.
  { rewrite Etext in Hx. rewrite nth_error_app2 in Hx by lia. rewrite HA in Hx.
    rewrite nth_error_app1 in Hx by lia. exact Hx. }
  rewrite Eslice in Hq.
  pose proof (ink_inside w1 _ w2 (p - A) x H1 H2 Hq Hink) as Hin.
  exists (firstn A text ++ w1), (w2 ++ skipn B text). split.
  - rewrite Etext at 1. rewrite Eslice at 1. rewrite <- !app_assoc. reflexivity.
  - rewrite length_app, HA. lia.
Qed.

Lemma covers_cons (text : str) (c : PDF.chunk) (chunks : list PDF.chunk) (p : nat) :
  covers text chunks p -> covers text (c :: chunks) p.
Proof.
  intros [c' [pre [post [Hin H]]]]. exists c', pre, post. split; [right; exact Hin | exact H].
Qed.

Lemma covers_backfill (text : str) (chunks : list PDF.chunk) (p : nat) :
  covers text chunks p -> covers text (PDF.backfill chunks) p.
Proof.
  intros [c [pre [post [Hin H]]]].
  exists (PDF.set_total (length chunks) c), pre, post. split; [|exact H].
  unfold PDF.backfill. apply in_map, Hin.
Qed.

Section Coverage.

Variables chunk_size chunk_overlap : Z.
Hypothesis Hadv : advancing chunk_size chunk_overlap.

Lemma next_start_bounds (start e : Z) :
  (0 <= start < e)%Z ->
  (0 <= PDF.next_start chunk_overlap e <= e)%Z.
Proof.
  intros He. destruct Hadv as (Hov & _). unfold PDF.next_start.
  destruct (Z.leb_spec (e - chunk_overlap) 0); lia.
Qed.

Lemma split_end_after (content : str) (start e : Z) :
  (0 <= start)%Z -> PDF.split_end chunk_size content start = Ok e -> (start < e)%Z.
Proof.
  intros Hs. destruct Hadv as (Hov & Hcs & _). unfold PDF.split_end.
  destruct (start + chunk_size <? len content)%Z; [|intros E; injection E as <-; lia].
  destruct (Z.gtb_spec (PDF.rfind [Chr.nl; Chr.nl] content start
                          (start + chunk_size + 200)) start) as [Hgt|_].
  - intros E. injection E as <-. lia.
  - destruct (sentence_break_spec content
                (PDF.range_len (start + chunk_size - 100) (start + chunk_size + 100))
                (start + chunk_size - 100)) as [r [Er Hr]]; [lia|].
    rewrite Er. cbn [bind]. intros E. injection E as <-. destruct r; lia.
Qed.

Lemma size_end_after (text : str) (start e : Z) :
  (0 <= start)%Z -> PDF.size_end chunk_size chunk_overlap text start = Ok e ->
  (start < e)%Z.
Proof.
  intros Hs E. destruct (size_end_spec chunk_size chunk_overlap text start Hadv Hs)
    as [e' [E' He']].
  rewrite E in E'. injection E' as <-. destruct Hadv. lia.
Qed.


Lemma size_loop_covers (text : str) :
  forall fuel start index chunks,
    (0 <= start)%Z ->
    PDF.size_loop chunk_size chunk_overlap fuel text start index = Ok chunks ->
    forall p x, (start <= Z.of_nat p)%Z -> nth_error text p = Some x ->
                Chr.is_space x = false -> covers text chunks p.
Proof.
  induction fuel as [|fuel IH]; intros start index chunks Hs;
    cbn [PDF.size_loop]; [discriminate|].
  destruct (Z.ltb_spec start (len text)) as [Hlt|Hge].
  - intros E p x Hp Hx Hink. apply outcome_bind_ok in E as [e [Ee E]].
    pose proof (size_end_after text start e Hs Ee) as He.
    pose proof (next_start_bounds start e (conj Hs He)) as Hnext.
    destruct (Z.lt_ge_cases (Z.of_nat p) e) as [Hin|Hout].
    + destruct (slice_covers text start e p x Hs (conj Hp Hin) Hx Hink)
        as [pre [post [Etext Hrange]]].
      destruct (Py.strip (Py.slice text start e)) as [|c t] eqn:Es;
        [simpl in Hrange; lia|].
      apply outcome_bind_ok in E as [rest [_ E]]. injection E as <-.
      eexists _, pre, post. split; [left; reflexivity|]. cbn [PDF.content]. auto.
    + destruct (Py.strip (Py.slice text start e)) as [|c t].
      * eapply (IH _ _ _ (proj1 Hnext) E); eauto. lia.
      * apply outcome_bind_ok in E as [rest [Erest E]]. injection E as <-.
        apply covers_cons. eapply (IH _ _ _ (proj1 Hnext) Erest); eauto. lia.
  - intros _ p x Hp Hx _. exfalso.
    assert (p < length text) by (apply nth_error_Some; congruence).
    unfold len in Hge. lia.
Qed.

End Coverage.





Section ChapterCoverage.

Variables chunk_size chunk_overlap : Z.
Hypothesis Hadv : advancing chunk_size chunk_overlap.


End ChapterCoverage.

(** X1. [_size_based_chunking] loses no visible text: under a configuration
    that lets the loop advance, every character of the text that is not
    white space lies inside an occurrence of the content of one of the
    returned chunks; only white space at the cuts is dropped. *)
Theorem size_based_chunking_covers (chunk_size chunk_overlap : Z) (fuel : nat)
    (text title : str) (chunks : list PDF.chunk) (p : nat) (x : ascii) :
  advancing chunk_size chunk_overlap ->
  PDF._size_based_chunking chunk_size chunk_overlap fuel text title = Ok chunks ->
  nth_error text p = Some x -> Chr.is_space x = false ->
  covers text chunks p.
Proof.
  intros Hadv E Hx Hink. unfold PDF._size_based_chunking in E.
  apply outcome_bind_ok in E as [raw [Eraw E]]. injection E as <-.
  apply covers_backfill.
  eapply (size_loop_covers chunk_size chunk_overlap Hadv); try eassumption; lia.
Qed.

Lemma size_based_chunking_covers_witness :
  exists chunks,
    PDF._size_based_chunking 100 0 400 short_plain_text (lit "Book") = Ok chunks
    /\ covers short_plain_text chunks 200.
Proof.
  destruct (PDF._size_based_chunking 100 0 400 short_plain_text (lit "Book"))
    as [chunks| |] eqn:E; [|vm_compute in E; discriminate E ..].
  exists chunks. split; [reflexivity|].
  apply (size_based_chunking_covers 100 0 400 short_plain_text (lit "Book") chunks 200 "e").
  - unfold advancing. lia.
  - exact E.
  - vm_compute. reflexivity.
  - reflexivity.
Defined.





(** ** A configuration under which the loop does not advance *)

Lemma index_in (s : str) (i : Z) (c : ascii) : Py.index s i = Some c -> In c s.
Proof.
  unfold Py.index. destruct (_ && _); [|discriminate]. apply nth_error_In.
Qed.

Lemma sentence_break_none (text : str) :
  Forall (fun c => PDF.sentence_end c = false) text ->
  forall count i, (0 <= i)%Z -> PDF.sentence_break text i count = Ok None.
Proof.
  intros Hnone. induction count as [|k IH]; intros i Hi; cbn [PDF.sentence_break];
    [reflexivity|].
  destruct (Z.ltb_spec i (len text)) as [Hlt|_]; [|apply IH; lia].
  destruct (index_inside text i) as [c Ec]; [lia|]. rewrite Ec.
  rewrite (proj1 (Forall_forall _ _) Hnone c (index_in _ _ _ Ec)).
  cbn [andb]. apply IH. lia.
Qed.

Lemma size_loop_stalls (chunk_size : Z) (text : str) :
  (0 < chunk_size)%Z ->
  Forall (fun c => PDF.sentence_end c = false) text ->
  forall fuel start index,
    (0 < start)%Z -> (start + chunk_size < len text)%Z ->
    PDF.size_loop chunk_size chunk_size fuel text start index = OutOfFuel.
Proof.
  intros Hcs Hnone. induction fuel as [|fuel IH]; intros start index Hs Hlen;
    cbn [PDF.size_loop]; [reflexivity|].
  destruct (Z.ltb_spec start (len text)) as [_|Hge]; [|lia].
  unfold PDF.size_end.
  destruct (Z.ltb_spec (start + chunk_size) (len text)) as [_|Hge]; [|lia].
  rewrite (sentence_break_none text Hnone) by lia. cbn [bind].
  assert (PDF.next_start chunk_size (start + chunk_size) = start) as ->.
  { unfold PDF.next_start.
    destruct (Z.leb_spec (start + chunk_size - chunk_size) 0); lia. }
  destruct (Py.strip (Py.slice text start (start + chunk_size)));
    rewrite IH by lia; reflexivity.
Qed.

(** X4. With an overlap equal to the chunk size, [_size_based_chunking]
    never returns on a text of more than two chunk sizes that contains no
    sentence end: after the first chunk the loop computes the same [start]
    again and again, so no number of iterations is enough. *)
Theorem size_based_chunking_stalls (chunk_size : Z) (fuel : nat) (text title : str) :
  (0 < chunk_size)%Z -> (2 * chunk_size < len text)%Z ->
  Forall (fun c => PDF.sentence_end c = false) text ->
  PDF._size_based_chunking chunk_size chunk_size fuel text title = OutOfFuel.
Proof.
  intros Hcs Hlen Hnone. unfold PDF._size_based_chunking.
  destruct fuel as [|fuel]; cbn [PDF.size_loop]; [reflexivity|].
  destruct (Z.ltb_spec 0 (len text)) as [_|Hge]; [|lia].
  unfold PDF.size_end.
  destruct (Z.ltb_spec (0 + chunk_size) (len text)) as [_|Hge]; [|lia].
  rewrite (sentence_break_none text Hnone) by lia. cbn [bind].
  assert (PDF.next_start chunk_size (0 + chunk_size) = chunk_size) as ->.
  { unfold PDF.next_start. destruct (Z.leb_spec (0 + chunk_size - chunk_size) 0); lia. }
  destruct (Py.strip (Py.slice text 0 (0 + chunk_size)));
    rewrite (size_loop_stalls chunk_size text Hcs Hnone) by lia; reflexivity.
Qed.

Lemma size_based_chunking_stalls_witness :
  PDF._size_based_chunking 5 5 1000 (lit "lorem ipsum dolor") (lit "Book") = OutOfFuel.
Proof.
  apply size_based_chunking_stalls.
  - lia.
  - vm_compute. reflexivity.
  - repeat constructor.
Defined.

(** ** The cleaned text *)

Lemma rep_ends_head (c : Re.cls) (s : str) : forall lo prev,
  (Re.rep_ends c lo prev s = [] /\ run c s < lo)
  \/ (exists p' later,
        Re.rep_ends c lo prev s = (p', skipn (run c s) s) :: later /\ lo <= run c s).
Proof.
  induction s as [|x s IH]; intros lo prev; cbn [Re.rep_ends run].
  - destruct lo as [|lo]; cbn [Nat.eqb].
    + right. eexists _, _. split; [reflexivity | lia].
    + left. split; [reflexivity | lia].
  - destruct (c x).
    + destruct (IH (pred lo) (Some x)) as [[E Hlt] | [p' [later [E Hle]]]]; rewrite E.
      * left. destruct lo as [|lo]; [simpl in Hlt; lia|]. cbn [Nat.eqb app].
        split; [reflexivity | simpl in Hlt; lia].
      * right. cbn [app skipn]. eexists _, _. split; [reflexivity | lia].
    + destruct lo as [|lo]; cbn [Nat.eqb].
      * right. eexists _, _. split; [reflexivity | lia].
      * left. split; [reflexivity | lia].
Qed.

Lemma run_le (c : Re.cls) (s : str) : run c s <= length s.
Proof. induction s as [|x s IH]; simpl; [lia|]. destruct (c x); simpl; lia. Qed.

Lemma match_here_rep (c : Re.cls) (lo : nat) (prev : option ascii) (s : str) :
  Re.match_here (Re.Rep c lo) (prev, s)
  = if lo <=? run c s then Some (run c s) else None.
Proof.
  unfold Re.match_here. cbn [Re.ends fst snd].
  destruct (rep_ends_head c s lo prev) as [[E Hlt] | [p' [later [E Hle]]]]; rewrite E.
  - destruct (Nat.leb_spec lo (run c s)); [lia | reflexivity].
  - destruct (Nat.leb_spec lo (run c s)); [|lia].
    rewrite length_skipn. pose proof (run_le c s). f_equal. lia.
Qed.

(** [re.sub] of [c+] replaces every maximal run. *)
Lemma sub_from_squeeze (c : Re.cls) (repl : str) (s : str) : forall prev,
  Re.sub_from (Re.Rep c 1) repl prev s 0 = squeeze c repl false s
  /\ Re.sub_from (Re.Rep c 1) repl prev s (run c s) = squeeze c repl true s.
Proof.
  induction s as [|x s IH]; intros prev.
  - cbn [run]. rewrite sub_from_unfold, match_here_rep. cbn [run Nat.leb squeeze]. auto.
  - assert (Re.sub_from (Re.Rep c 1) repl prev (x :: s) 0
            = squeeze c repl false (x :: s)) as Hfirst.
    { rewrite sub_from_unfold, match_here_rep. cbn [run squeeze].
      destruct (c x).
      - cbn [Nat.leb]. rewrite (proj2 (IH (Some x))). reflexivity.
      - cbn [Nat.leb]. rewrite (proj1 (IH (Some x))). reflexivity. }
    split; [exact Hfirst|]. cbn [run squeeze] in *. destruct (c x).
    + cbn [Re.sub_from app]. apply IH.
    + exact Hfirst.
Qed.

Lemma sub_rep_squeeze (c : Re.cls) (repl : str) (s : str) :
  Re.sub (Re.Rep c 1) repl s = squeeze c repl false s.
Proof. apply sub_from_squeeze. Qed.

Lemma squeeze_chars (c : Re.cls) (d : ascii) (s : str) : forall inside,
  Forall (fun x => c x = true -> x = d) (squeeze c [d] inside s).
Proof.
  induction s as [|x s IH]; intros inside; cbn [squeeze]; [constructor|].
  destruct (c x) eqn:Hx.
  - destruct inside; cbn [app]; [apply IH|]. constructor; [reflexivity | apply IH].
  - constructor; [congruence | apply IH].
Qed.

Lemma squeeze_isolated (c : Re.cls) (d : ascii) (s : str) :
  c d = true ->
  forall inside,
    isolated c (squeeze c [d] inside s)
    /\ match squeeze c [d] true s with y :: _ => c y = false | [] => True end.
Proof.
  intros Hd. induction s as [|x s IH]; intros inside; cbn [squeeze isolated];
    [auto|].
  destruct (c x) eqn:Hx; cbn [app].
  - split; [|apply (IH true)]. destruct inside; cbn [app]; [apply (IH true)|].
    cbn [isolated]. destruct (IH true) as [Hiso Hhead].
    split; [|exact Hiso]. destruct (squeeze c [d] true s); [exact I|]. auto.
  - split; [|exact Hx]. cbn [isolated]. split; [|apply (IH false)].
    destruct (squeeze c [d] false s); [exact I | congruence].
Qed.

Lemma squeeze_fixed (c : Re.cls) (d : ascii) (s : str) :
  Forall (fun x => c x = true -> x = d) s -> isolated c s ->
  squeeze c [d] false s = s.
Proof.
  induction s as [|x s IH]; intros Hall Hiso; cbn [squeeze]; [reflexivity|].
  apply Forall_cons_iff in Hall as [Hx Hall]. cbn [isolated] in Hiso.
  destruct Hiso as [Hnext Hiso]. specialize (IH Hall Hiso).
  destruct (c x) eqn:Ex; [|rewrite IH; reflexivity].
  cbn [app]. rewrite (Hx eq_refl). f_equal.
  destruct s as [|y s]; [reflexivity|]. cbn [squeeze] in *.
  rewrite (Hnext eq_refl) in *. exact IH.
Qed.

Lemma isolated_app (c : Re.cls) (a b : str) :
  isolated c (a ++ b) -> isolated c a /\ isolated c b.
Proof.
  induction a as [|x a IH]; cbn [app isolated]; [auto|].
  intros [Hnext Hiso]. destruct (IH Hiso) as [Ha Hb]. split; [|exact Hb].
  split; [|exact Ha]. destruct a as [|y a]; [exact I | exact Hnext].
Qed.

Lemma strip_isolated (c : Re.cls) (s : str) : isolated c s -> isolated c (Py.strip s).
Proof.
  intros Hiso. destruct (strip_decompose s) as [w1 [w2 [E _]]].
  rewrite E in Hiso. apply isolated_app in Hiso as [_ Hiso].
  apply isolated_app in Hiso as [Hiso _]. exact Hiso.
Qed.

(** X5. The first statement of [chunk_text] brings the text into a normal
    form: in the cleaned text the only white space is the single space
    character, never twice in a row and at neither end; and cleaning a
    cleaned text changes nothing. *)
Theorem clean_normal_form (text : str) :
  single_spaced (PDF.clean text) /\ PDF.clean (PDF.clean text) = PDF.clean text.
Proof.
  assert (single_spaced (PDF.clean text)) as Hclean.
  { unfold PDF.clean. rewrite sub_rep_squeeze. split; [|split].
    - apply strip_forall. apply (squeeze_chars Re.space " "%char).
    - apply strip_isolated. apply (squeeze_isolated Re.space " "%char); reflexivity.
    - apply strip_idem. }
  split; [exact Hclean|]. destruct Hclean as (Hchars & Hiso & Hstrip).
  unfold PDF.clean at 1. rewrite sub_rep_squeeze.
  change (lit " ") with [" "%char].
  rewrite (squeeze_fixed Re.space " "%char _ Hchars Hiso). exact Hstrip.
Qed.

(** ** The chapters found *)

Lemma sub_from_nil_length (r : Re.regex) (s : str) : forall prev skip,
  length (Re.sub_from r [] prev s skip) <= length s.
Proof.
  induction s as [|x s IH]; intros prev skip.
  - destruct skip; [|simpl; lia]. rewrite sub_from_unfold.
    destruct (Re.match_here _ _) as [[|k]|]; simpl; lia.
  - destruct skip as [|k]; [|cbn [Re.sub_from length]; specialize (IH (Some x) k); lia].
    rewrite sub_from_unfold.
    destruct (Re.match_here _ _) as [[|k]|]; cbn [app length].
    + specialize (IH (Some x) 0). lia.
    + specialize (IH (Some x) k). lia.
    + specialize (IH (Some x) 0). lia.
Qed.

Lemma first_line_length (s : str) : length (PDF.first_line s) <= length s.
Proof.
  induction s as [|x s IH]; cbn [PDF.first_line length]; [lia|].
  destruct (Chr.eqb x Chr.nl); simpl; lia.
Qed.

Lemma slice_window (s : str) (a w : Z) :
  (0 <= a)%Z -> (0 <= w)%Z -> (len (Py.slice s a (a + w)) <= w)%Z.
Proof.
  intros Ha Hw. unfold Py.slice, len. rewrite length_firstn.
  pose proof (len_nonneg s) as Hs. unfold len in Hs. unfold Py.clamp.
  destruct (Z.ltb_spec a 0); [lia|]. destruct (Z.ltb_spec (a + w) 0); lia.
Qed.

Lemma chapters_of_shape (text : str) : forall starts i,
  map PDF.ch_index (PDF.chapters_of text i starts) = seq i (length starts)
  /\ Forall (fun ch =>
               PDF.ch_title ch <> []
               /\ (PDF.ch_title ch = lit "Chapter " ++ Py.str_of_nat (PDF.ch_index ch + 1)
                   \/ (length (PDF.ch_title ch) <= 200
                       /\ Py.strip (PDF.ch_title ch) = PDF.ch_title ch))
               /\ Py.strip (PDF.ch_content ch) = PDF.ch_content ch)
            (PDF.chapters_of text i starts).
Proof.
  induction starts as [|a later IH]; intros i; cbn [PDF.chapters_of map length seq];
    [split; [reflexivity | constructor]|].
  destruct (IH (S i)) as [Hidx Hall]. cbn [PDF.ch_index]. rewrite Hidx.
  split; [reflexivity|]. constructor; [|exact Hall].
  cbn [PDF.ch_title PDF.ch_content PDF.ch_index].
  split; [|split; [|apply strip_idem]].
  - destruct (Py.strip (Re.sub PDF.re_title_prefix [] _)); discriminate.
  - set (line := Py.strip (PDF.first_line (Py.slice text (Z.of_nat a) (Z.of_nat a + 200)))).
    destruct (Py.strip (Re.sub PDF.re_title_prefix [] line)) as [|x t] eqn:Et;
      [left; reflexivity|].
    right. rewrite <- Et. split; [|apply strip_idem].
    pose proof (strip_length (Re.sub PDF.re_title_prefix [] line)).
    pose proof (sub_from_nil_length PDF.re_title_prefix line None 0).
    fold (Re.sub PDF.re_title_prefix [] line) in *.
    pose proof (strip_length (PDF.first_line
                                (Py.slice text (Z.of_nat a) (Z.of_nat a + 200)))).
    fold line in H1.
    pose proof (first_line_length (Py.slice text (Z.of_nat a) (Z.of_nat a + 200))).
    pose proof (slice_window text (Z.of_nat a) 200). unfold len in *. lia.
Qed.

(** X6. What [_find_chapter_boundaries] returns: no chapter or at least
    two; the chapters are numbered 0, 1, 2, ... in order; every title is not
    empty, and is either the fallback "Chapter i+1" or a trimmed text of at
    most 200 characters; every content is trimmed. *)
Theorem find_chapter_boundaries_shape (text : str) :
  let chapters := PDF._find_chapter_boundaries text in
  (chapters = [] \/ 2 <= length chapters)
  /\ map PDF.ch_index chapters = seq 0 (length chapters)
  /\ Forall (fun ch =>
               PDF.ch_title ch <> []
               /\ (PDF.ch_title ch = lit "Chapter " ++ Py.str_of_nat (PDF.ch_index ch + 1)
                   \/ (length (PDF.ch_title ch) <= 200
                       /\ Py.strip (PDF.ch_title ch) = PDF.ch_title ch))
               /\ Py.strip (PDF.ch_content ch) = PDF.ch_content ch)
            chapters.
Proof.
  cbv zeta. unfold PDF._find_chapter_boundaries.
  destruct (first_pattern_cases PDF.chapter_patterns text) as [E | [p [_ [Hp E]]]];
    rewrite E.
  - split; [left; reflexivity|]. split; [reflexivity | constructor].
  - destruct (chapters_of_shape text (map fst (Re.finditer p text)) 0) as [Hidx Hall].
    rewrite chapters_of_length, length_map in *.
    split; [right; exact Hp|]. split; [exact Hidx | exact Hall].
Qed.

(** ** The items of a PDF *)

Section ChunkKinds.

Variables chunk_size chunk_overlap : Z.


Lemma split_loop_book (content chapter_title : str) (chapter_index : nat) :
  forall fuel start part_index chunks,
    PDF.split_loop chunk_size chunk_overlap fuel content chapter_title
      chapter_index start part_index = Ok chunks ->
    Forall (fun c => PDF.content_type c = lit "book") chunks.
Proof.
  induction fuel as [|fuel IH]; intros start part_index chunks; cbn [PDF.split_loop];
    [discriminate|].
  destruct (start <? len content)%Z; [|intros E; injection E as <-; constructor].
  intros E. apply outcome_bind_ok in E as [e [_ E]].
  destruct (Py.strip (Py.slice content start e)) as [|c t]; [eapply IH; exact E|].
  apply outcome_bind_ok in E as [rest [Erest E]]. injection E as <-.
  constructor; [reflexivity | eapply IH; exact Erest].
Qed.

Lemma size_loop_book (text : str) :
  forall fuel start index chunks,
    PDF.size_loop chunk_size chunk_overlap fuel text start index = Ok chunks ->
    Forall (fun c => PDF.content_type c = lit "book") chunks.
Proof.
  induction fuel as [|fuel IH]; intros start index chunks; cbn [PDF.size_loop];
    [discriminate|].
  destruct (start <? len text)%Z; [|intros E; injection E as <-; constructor].
  intros E. apply outcome_bind_ok in E as [e [_ E]].
  destruct (Py.strip (Py.slice text start e)) as [|c t]; [eapply IH; exact E|].
  apply outcome_bind_ok in E as [rest [Erest E]]. injection E as <-.
  constructor; [reflexivity | eapply IH; exact Erest].
Qed.

Lemma chapter_loop_book (fuel n : nat) :
  forall chapters i chunks,
    PDF.chapter_loop chunk_size chunk_overlap fuel n i chapters = Ok chunks ->
    Forall (fun c => PDF.content_type c = lit "book") chunks.
Proof.
  induction chapters as [|ch later IH]; intros i chunks; cbn [PDF.chapter_loop].
  - intros E. injection E as <-. constructor.
  - intros E. apply outcome_bind_ok in E as [here [Ehere E]].
    apply outcome_bind_ok in E as [rest [Erest E]]. injection E as <-.
    apply Forall_app. split; [|eapply IH; exact Erest].
    destruct (len (PDF.ch_content ch) >? chunk_size * 2)%Z.
    + eapply split_loop_book. exact Ehere.
    + injection Ehere as <-. repeat constructor.
Qed.

Lemma backfill_book (chunks : list PDF.chunk) :
  Forall (fun c => PDF.content_type c = lit "book") chunks ->
  Forall (fun c => PDF.content_type c = lit "book" /\ PDF.total_chunks c = length chunks)
         (PDF.backfill chunks).
Proof.
  intros Hall. unfold PDF.backfill. apply Forall_map.
  eapply Forall_impl; [|exact Hall]. intros c Hc. split; [exact Hc | reflexivity].
Qed.

Lemma chunk_text_book (fuel : nat) (text title : str) (chunks : list PDF.chunk) :
  PDF.chunk_text chunk_size chunk_overlap fuel text title = Ok chunks ->
  Forall (fun c => PDF.content_type c = lit "book"
                   /\ PDF.total_chunks c = length chunks) chunks.
Proof.
  rewrite chunk_text_unfold.
  destruct (len (PDF.clean text) <=? chunk_size)%Z.
  { intros E. injection E as <-. repeat constructor. }
  destruct (PDF._find_chapter_boundaries (PDF.clean text)) as [|ch later].
  - unfold PDF._size_based_chunking. intros E.
    apply outcome_bind_ok in E as [raw [Eraw E]]. injection E as <-.
    rewrite backfill_length. apply backfill_book. eapply size_loop_book. exact Eraw.
  - unfold PDF._process_chapter_chunks. intros E.
    apply outcome_bind_ok in E as [raw [Eraw E]]. injection E as <-.
    rewrite backfill_length. apply backfill_book. eapply chapter_loop_book. exact Eraw.
Qed.

End ChunkKinds.

(** X7. The items of a PDF.  [process_pdf_file] returns no item when no
    text could be extracted; otherwise every item is a chunk of content
    type 'book' whose total_chunks is the number of items returned, with
    the given author, an empty user_id and the source URL "file://" followed
    by the path. *)
Theorem process_pdf_file_items (chunk_size chunk_overlap : Z) (fuel : nat)
    (pages : option (list str)) (pdf_path title author : str)
    (items : list PDF.pdf_item) :
  PDF.process_pdf_file chunk_size chunk_overlap fuel pages pdf_path title author
  = Ok items ->
  (PDF.extract_text_from_pdf pages = [] -> items = [])
  /\ Forall (fun it =>
               PDF.content_type (PDF.item_chunk it) = lit "book"
               /\ PDF.total_chunks (PDF.item_chunk it) = length items
               /\ PDF.item_author it = author
               /\ PDF.item_user_id it = []
               /\ PDF.item_source_url it = lit "file://" ++ pdf_path) items.
Proof.
  unfold PDF.process_pdf_file.
  destruct (PDF.extract_text_from_pdf pages) as [|x t].
  - intros E. injection E as <-. split; [reflexivity | constructor].
  - intros E. apply outcome_bind_ok in E as [chunks [Echunks E]]. injection E as <-.
    split; [discriminate|]. rewrite length_map. apply Forall_map.
    apply chunk_text_book in Echunks.
    eapply Forall_impl; [|exact Echunks].
    intros c [Hkind Htotal]. cbn [PDF.item_chunk PDF.item_author PDF.item_user_id
                                     PDF.item_source_url]. auto.
Qed.

Lemma process_pdf_file_items_witness :
  exists items,
    PDF.process_pdf_file 100 0 400 (Some [short_plain_text; short_plain_text])
      (lit "/tmp/book.pdf") (lit "Book") (lit "Ann") = Ok items
    /\ Forall (fun it => PDF.item_source_url it = lit "file:///tmp/book.pdf") items.
Proof.
  destruct (PDF.process_pdf_file 100 0 400 (Some [short_plain_text; short_plain_text])
              (lit "/tmp/book.pdf") (lit "Book") (lit "Ann")) as [items| |] eqn:E;
    [|vm_compute in E; discriminate E ..].
  exists items. split; [reflexivity|].
  apply process_pdf_file_items in E as [_ Hall].
  eapply Forall_impl; [|exact Hall]. intros it (_ & _ & _ & _ & Hurl). exact Hurl.
Defined.

(** ** Runs of the scraper *)

Lemma str_eqb_eq (a b : str) : Py.str_eqb a b = true <-> a = b.
Proof.
  revert b. induction a as [|x a IH]; intros [|y b]; cbn [Py.str_eqb];
    try (split; [discriminate | discriminate]); [tauto|].
  rewrite andb_true_iff, chr_eqb_eq, IH. split; [intros [-> ->]; reflexivity|].
  intros E. injection E as -> ->. auto.
Qed.

Lemma existsb_str_eqb (x : str) (l : list str) :
  existsb (Py.str_eqb x) l = true <-> In x l.
Proof.
  rewrite existsb_exists. split.
  - intros [y [Hy E]]. apply str_eqb_eq in E. subst. exact Hy.
  - intros Hx. exists x. split; [exact Hx | apply str_eqb_eq; reflexivity].
Qed.

Lemma firstn_incl (A : Type) (n : nat) (l : list A) (x : A) :
  In x (firstn n l) -> In x l.
Proof.
  intros Hx. rewrite <- (firstn_skipn n l). apply in_or_app. left. exact Hx.
Qed.

Lemma firstn_nodup (A : Type) (n : nat) (l : list A) : NoDup l -> NoDup (firstn n l).
Proof.
  intros Hl. rewrite <- (firstn_skipn n l) in Hl. exact (NoDup_app_remove_r _ _ Hl).
Qed.

Lemma unique_by_url_distinct (links : list link_info) : forall seen,
  NoDup (map link_url (unique_by_url seen links))
  /\ (forall link, In link (unique_by_url seen links) ->
                   In link links /\ ~ In (link_url link) seen).
Proof.
  induction links as [|link later IH]; intros seen; cbn [unique_by_url].
  - split; [constructor | intros link []].
  - destruct (existsb (Py.str_eqb (link_url link)) seen) eqn:Eseen.
    + destruct (IH seen) as [Hnd Hin]. split; [exact Hnd|].
      intros l Hl. destruct (Hin l Hl). split; [right|]; assumption.
    + destruct (IH (link_url link :: seen)) as [Hnd Hin]. split.
      * cbn [map]. constructor; [|exact Hnd]. intros Hdup.
        apply in_map_iff in Hdup as [l [El Hl]]. destruct (Hin l Hl) as [_ Hnew].
        apply Hnew. left. symmetry. exact El.
      * intros l [<-|Hl].
        -- split; [left; reflexivity|]. intros Hs.
           apply existsb_str_eqb in Hs. congruence.
        -- destruct (Hin l Hl) as [Hlater Hnew]. split; [right; exact Hlater|].
           intros Hs. apply Hnew. right. exact Hs.
Qed.

Lemma fallback_links_distinct (fallback_page_links : str -> option (list link_info))
    (url : str) :
  NoDup (map link_url (_fetch_with_requests_fallback fallback_page_links url)).
Proof.
  unfold _fetch_with_requests_fallback.
  destruct (fallback_page_links url) as [found|]; [|constructor].
  rewrite <- firstn_map. apply firstn_nodup. apply unique_by_url_distinct.
Qed.

(** X8. The links of the requests fallback: at most 20, with pairwise
    different URLs, each with a title of more than 10 characters, each one
    of the links found on the page; none when the request fails. *)
Theorem requests_fallback_links (fallback_page_links : str -> option (list link_info))
    (url : str) :
  let links := _fetch_with_requests_fallback fallback_page_links url in
  length links <= 20
  /\ NoDup (map link_url links)
  /\ Forall (fun link =>
               (10 < len (link_title link))%Z
               /\ exists found, fallback_page_links url = Some found /\ In link found)
            links
  /\ match fallback_page_links url with None => links = [] | Some _ => True end.
Proof.
  cbv zeta. split; [|split; [apply fallback_links_distinct|]].
  - unfold _fetch_with_requests_fallback.
    destruct (fallback_page_links url); [|simpl; lia].
    rewrite length_firstn. lia.
  - unfold _fetch_with_requests_fallback.
    destruct (fallback_page_links url) as [found|]; [|split; [constructor | reflexivity]].
    split; [|exact I]. apply Forall_forall. intros link Hlink.
    apply firstn_incl in Hlink. apply unique_by_url_distinct in Hlink as [Hlink _].
    apply filter_In in Hlink as [Hfound Hlong].
    apply andb_true_iff in Hlong as [_ Hlong]. apply Z.gtb_lt in Hlong.
    split; [lia|]. exists found. auto.
Qed.

Section ScraperRuns.

Context {soup : Type} `{BeautifulSoup soup}.

Variable base_url : str.
Variable max_articles : Z.
Variable progress_callback : bool.
Variable fetch_page : str -> bool -> option soup.
Variable fetch_with_playwright : str -> option soup.
Variable fallback_page_links : str -> option (list link_info).
Variable click_discovered_urls : option (list link_info).
Variable driver_page : str -> option soup.
Variable find_article_links : soup -> str -> list str.
Variable strategies : list (soup -> option str).
Variable extract_title : soup -> str.
Variable extract_author : soup -> str.

Let run :=
  scrape base_url max_articles progress_callback fetch_page fetch_with_playwright
    fallback_page_links click_discovered_urls driver_page find_article_links
    strategies extract_title extract_author.

Lemma article_loop_sources (use_js : bool) (total : Z) (urls : list str) :
  forall i scraped,
    let items :=
      snd (article_loop progress_callback fetch_page strategies extract_title
             extract_author use_js total i scraped urls) in
    NoDup (map source_url items)
    /\ Forall (fun item => In (source_url item) urls /\ ~ In (source_url item) scraped)
              items
    /\ length items <= length urls.
Proof.
  induction urls as [|url later IH]; intros i scraped; cbv zeta; cbn [article_loop].
  - cbn [snd map length]. split; [constructor|]. split; [constructor | lia].
  - destruct (existsb (Py.str_eqb url) scraped) eqn:Eseen.
    + destruct (IH (i + 1)%Z scraped) as (Hnd & Hall & Hlen).
      split; [exact Hnd|]. split; [|cbn [length]; lia].
      eapply Forall_impl; [|exact Hall]. intros item [Hin Hnew].
      split; [right|]; assumption.
    + assert (~ In url scraped) as Hfresh.
      { intros Hs. apply existsb_str_eqb in Hs. congruence. }
      destruct (_scrape_article fetch_page strategies extract_title extract_author
                  url use_js) as [it|] eqn:Eit.
      * destruct (IH (i + 1)%Z (url :: scraped)) as (Hnd & Hall & Hlen).
        destruct (article_loop _ _ _ _ _ _ _ _ _ later) as [evs items].
        cbn [snd map length] in *.
        apply scrape_article_some in Eit as [doc (_ & _ & _ & _ & Eurl)].
        rewrite Eurl. split; [|split; [|lia]].
        -- constructor; [|exact Hnd]. intros Hdup.
           apply in_map_iff in Hdup as [it' [E' Hit']].
           destruct (proj1 (Forall_forall _ _) Hall it' Hit') as [_ Hnew].
           apply Hnew. left. symmetry. exact E'.
        -- constructor; [rewrite Eurl; split; [left; reflexivity | exact Hfresh]|].
           eapply Forall_impl; [|exact Hall]. intros item [Hin Hnew].
           split; [right; exact Hin|]. intros Hs. apply Hnew. right. exact Hs.
      * destruct (IH (i + 1)%Z scraped) as (Hnd & Hall & Hlen).
        destruct (article_loop _ _ _ _ _ _ _ _ _ later) as [evs items].
        cbn [snd length] in *. split; [exact Hnd|]. split; [|lia].
        eapply Forall_impl; [|exact Hall]. intros item [Hin Hnew].
        split; [right|]; assumption.
Qed.

Lemma article_loop_browser_free (total : Z) (urls : list str) :
  forall i scraped,
    forallb browser_free
      (fst (article_loop progress_callback fetch_page strategies extract_title
              extract_author false total i scraped urls)) = true.
Proof.
  induction urls as [|url later IH]; intros i scraped; cbn [article_loop];
    [reflexivity|].
  destruct (existsb (Py.str_eqb url) scraped); [apply IH|].
  specialize (IH (i + 1)%Z).
  destruct (_scrape_article _ _ _ _ url false);
    match goal with
    | |- context [article_loop ?a ?b ?c ?d ?e ?f ?g ?h ?k later] =>
        specialize (IH k); destruct (article_loop a b c d e f g h k later) as [evs items]
    end;
    cbn [fst] in *; rewrite !forallb_app, IH; destruct progress_callback; reflexivity.
Qed.

Lemma take_length (A : Type) (l : list A) (n : Z) :
  (0 <= n)%Z -> (Z.of_nat (length (take l n)) <= n)%Z.
Proof.
  intros Hn. unfold take. rewrite length_firstn. unfold Py.clamp.
  destruct (Z.ltb_spec n 0); lia.
Qed.

(** X9. Unless the base URL is on the allow-list of click discovery, the
    items of a scrape have pairwise different source URLs: the article loop
    skips a URL it has already scraped, and the requests fallback removes
    duplicate links. *)
Theorem scrape_distinct_sources :
  _should_use_click_discovery base_url = false ->
  NoDup (map source_url (snd run)).
Proof.
  intros Hclick.
  assert (forall arch doc,
            NoDup (map source_url
                     (snd (scrape_links base_url max_articles progress_callback
                             fetch_page click_discovered_urls driver_page
                             find_article_links strategies extract_title
                             extract_author arch doc)))) as Hlinks.
  { intros arch doc. unfold scrape_links. rewrite Hclick, andb_false_r.
    apply article_loop_sources. }
  unfold run, scrape.
  destruct (fetch_page base_url false) as [doc|]; [|constructor].
  destruct (needs_js (detect_architecture doc base_url)).
  - destruct (fetch_page base_url true) as [doc'|].
    + specialize (Hlinks (detect_architecture doc base_url) doc').
      destruct (scrape_links _ _ _ _ _ _ _ _ _ _ _ _) as [evs items]. exact Hlinks.
    + destruct (fetch_with_playwright base_url) as [doc'|].
      * specialize (Hlinks (detect_architecture doc base_url) doc').
        destruct (scrape_links _ _ _ _ _ _ _ _ _ _ _ _) as [evs items]. exact Hlinks.
      * cbn [snd]. rewrite map_map. cbn [preview_item source_url].
        apply fallback_links_distinct.
  - specialize (Hlinks (detect_architecture doc base_url) doc).
    destruct (scrape_links _ _ _ _ _ _ _ _ _ _ _ _) as [evs items]. exact Hlinks.
Qed.

(** X10. A source whose main page is classified 'static_html' is scraped
    without a browser: the run consists of fetches without JavaScript,
    progress reports and pauses only.  Its items come from the links that
    [find_article_links] finds on the main page, and there are at most
    max_articles of them. *)
Theorem static_source_run (doc : soup) :
  fetch_page base_url false = Some doc ->
  arch_strategy (detect_architecture doc base_url) = static_html ->
  forallb browser_free (fst run) = true
  /\ Forall (fun item => In (source_url item) (find_article_links doc base_url))
            (snd run)
  /\ ((0 <= max_articles)%Z -> (Z.of_nat (length (snd run)) <= max_articles)%Z).
Proof.
  intros Hdoc Hstatic. unfold run, scrape. rewrite Hdoc.
  assert (needs_js (detect_architecture doc base_url) = false) as Hjs.
  { change (needs_js (detect_architecture doc base_url))
      with (match arch_strategy (detect_architecture doc base_url) with
            | javascript_heavy | framework_based => true
            | static_html => false
            end).
    rewrite Hstatic. reflexivity. }
  rewrite Hjs. unfold scrape_links. rewrite Hjs. cbn [andb].
  pose proof (article_loop_browser_free
                (Z.min (Z.of_nat (length (find_article_links doc base_url))) max_articles)
                (take (find_article_links doc base_url) max_articles) 0 []) as Hevs.
  pose proof (article_loop_sources false
                (Z.min (Z.of_nat (length (find_article_links doc base_url))) max_articles)
                (take (find_article_links doc base_url) max_articles) 0 [])
    as (_ & Hall & Hlen).
  cbv zeta in Hall, Hlen.
  destruct (article_loop _ _ _ _ _ _ _ _ _ _) as [evs items]. cbn [fst snd] in *.
  split; [exact Hevs|]. split.
  - eapply Forall_impl; [|exact Hall]. intros item [Hin _].
    unfold take in Hin. eapply firstn_incl. exact Hin.
  - intros Hmax.
    pose proof (take_length _ (find_article_links doc base_url) max_articles Hmax). lia.
Qed.

End ScraperRuns.

Lemma scrape_distinct_sources_witness :
  NoDup (map source_url (snd scrape_static_blog)).
Proof.
  apply (scrape_distinct_sources (lit "https://example.com/blog") 50 false
           static_blog_fetch (fun _ => None) (fun _ => None) None (fun _ => None)
           (fun _ _ => [lit "https://example.com/blog/my-post"])
           [sample_strategy] (fun _ => lit "Title") (fun _ => [])).
  vm_compute. reflexivity.
Defined.

Lemma static_source_run_witness :
  forallb browser_free (fst scrape_static_blog) = true
  /\ (Z.of_nat (length (snd scrape_static_blog)) <= 50)%Z.
Proof.
  destruct (static_source_run (lit "https://example.com/blog") 50 false
              static_blog_fetch (fun _ => None) (fun _ => None) None (fun _ => None)
              (fun _ _ => [lit "https://example.com/blog/my-post"])
              [sample_strategy] (fun _ => lit "Title") (fun _ => []) static_page)
    as (Hevs & _ & Hlen).
  - reflexivity.
  - vm_compute. reflexivity.
  - split; [exact Hevs | apply Hlen; lia].
Defined.

(** ** More on content types *)

Lemma lower_idem (s : str) : Py.lower (Py.lower s) = Py.lower s.
Proof.
  unfold Py.lower. rewrite map_map. apply map_ext. intros c. apply chr_lower_idem.
Qed.

(** X11. [detect_content_type] looks at its arguments in lower case only,
    and at no more than the first 500 characters of the content. *)
Theorem detect_content_type_invariant (url title content : str) :
  detect_content_type url title content
  = detect_content_type (Py.lower url) (Py.lower title) (firstn 500 content).
Proof.
  unfold detect_content_type. rewrite !lower_idem.
  assert (Py.prefix 500 (Py.lower (firstn 500 content))
          = Py.prefix 500 (Py.lower content)) as ->; [|reflexivity].
  unfold Py.prefix, Py.lower.
  rewrite !firstn_map, firstn_firstn, Nat.min_id. reflexivity.
Qed.

(** X12. A title that contains "transcript" never gives 'call_transcript':
    "transcript" is a podcast indicator, and the podcast indicators are
    looked for in the title before the call indicators "call transcript"
    and "meeting transcript".  On a URL that is neither LinkedIn nor Reddit
    such a title gives 'podcast_transcript'. *)
Theorem transcript_title_is_podcast (url title content : str) :
  substring (lit "transcript") (Py.lower title) ->
  detect_content_type url title content <> lit "call_transcript"
  /\ (~ substring (lit "linkedin.com") (Py.lower url) ->
      ~ substring (lit "reddit.com") (Py.lower url) ->
      detect_content_type url title content = lit "podcast_transcript").
Proof.
  intros Htitle.
  assert (Py.any_in podcast_indicators (Py.lower title) = true) as Hpod.
  { apply any_in_true. exists (lit "transcript"). split; [|exact Htitle].
    unfold podcast_indicators. simpl. auto. }
  unfold detect_content_type. rewrite Hpod. split.
  - destruct (Py.contains (lit "linkedin.com") (Py.lower url)).
    { destruct (_ || _); [discriminate|].
      destruct (Py.contains (lit "/pulse/") (Py.lower url)); discriminate. }
    destruct (Py.contains (lit "reddit.com") (Py.lower url)).
    { destruct (Py.contains (lit "/comments/") (Py.lower url)); discriminate. }
    destruct (Py.any_in podcast_indicators (Py.lower url)); discriminate.
  - intros Hl Hr. apply contains_false in Hl, Hr. rewrite Hl, Hr.
    destruct (Py.any_in podcast_indicators (Py.lower url)); reflexivity.
Qed.

Lemma transcript_title_is_podcast_witness :
  detect_content_type (lit "https://example.com/notes") (lit "Weekly Call Transcript")
    (lit "Attendees: Ann, Bob") = lit "podcast_transcript".
Proof.
  apply (transcript_title_is_podcast (lit "https://example.com/notes")
           (lit "Weekly Call Transcript") (lit "Attendees: Ann, Bob")).
  - exists (lit "weekly call "), []. reflexivity.
  - apply contains_false. vm_compute. reflexivity.
  - apply contains_false. vm_compute. reflexivity.
Defined.

(** ** Pages without text *)

Section SparsePages.

Context {soup : Type} `{BeautifulSoup soup}.

Lemma low_density_iff (doc : soup) :
  low_density doc
  <-> 50 * length (Py.strip (get_text doc)) < Nat.max (length (markup doc)) 1.
Proof.
  unfold low_density, density_of, ratio, Qlt. cbn [Qnum Qden].
  rewrite pos_of_nat_Z by lia. lia.
Qed.

End SparsePages.

(** X13. The density test in whole numbers: a page is below the density
    0.02 exactly when 50 times its trimmed text length is less than its
    markup length (taken as 1 for an empty markup).  So a page without any
    visible text is always 'javascript_heavy' and is fetched again with a
    browser. *)
Theorem textless_page_is_javascript_heavy (soup : Type) (api : BeautifulSoup soup)
    (doc : soup) (url : str) :
  (low_density doc
   <-> 50 * length (Py.strip (get_text doc)) < Nat.max (length (markup doc)) 1)
  /\ (Py.strip (get_text doc) = [] ->
      arch_strategy (detect_architecture doc url) = javascript_heavy
      /\ needs_js (detect_architecture doc url) = true).
Proof.
  split; [apply low_density_iff|]. intros Hempty.
  assert (Qlt_bool (density_of doc) (2 # 100) = true) as Hlow.
  { apply Qlt_bool_iff. apply (proj2 (low_density_iff doc)). rewrite Hempty. simpl. lia. }
  assert (arch_strategy (detect_architecture doc url) = javascript_heavy) as Hs.
  { rewrite strategy_rule. cbv zeta. rewrite Hlow. reflexivity. }
  split; [exact Hs|].
  change (needs_js (detect_architecture doc url))
    with (match arch_strategy (detect_architecture doc url) with
          | javascript_heavy | framework_based => true
          | static_html => false
          end).
  rewrite Hs. reflexivity.
Qed.

Lemma textless_page_is_javascript_heavy_witness :
  arch_strategy (detect_architecture [Tree.Element (lit "p") [] []]
                   (lit "https://example.com/")) = javascript_heavy.
Proof.
  apply (proj2 (textless_page_is_javascript_heavy Tree.document Tree.soup
                  [Tree.Element (lit "p") [] []] (lit "https://example.com/"))).
  reflexivity.
Defined.

(** ** Titles *)

(** X14. [extract_title] never returns an empty or a generic title: the
    result has more than three characters, is not one of the generic titles
    in any letter case, and is either "Untitled" or the text (or, for an
    element without text, the [content] attribute) of an element that one
    of the look-ups found. *)
Theorem extract_title_sound (found : list (option Detector.element)) :
  let title := Detector.extract_title found in
  (3 < len title)%Z
  /\ title <> []
  /\ Detector._is_generic_title title = false
  /\ (title = lit "Untitled"
      \/ exists el,
           In (Some el) found
           /\ (title = Detector.element_text el
               \/ (Detector.element_text el = []
                   /\ title = Detector.element_content el))).
Proof.
  cbv zeta. induction found as [|[el|] later IH]; cbn [Detector.extract_title].
  - split; [vm_compute; reflexivity|]. split; [discriminate|].
    split; [vm_compute; reflexivity | left; reflexivity].
  - assert ((3 < len (Detector.extract_title later))%Z
            /\ Detector.extract_title later <> []
            /\ Detector._is_generic_title (Detector.extract_title later) = false
            /\ (Detector.extract_title later = lit "Untitled"
                \/ exists el0,
                     In (Some el0) (Some el :: later)
                     /\ (Detector.extract_title later = Detector.element_text el0
                         \/ (Detector.element_text el0 = []
                             /\ Detector.extract_title later
                                = Detector.element_content el0)))) as Hlater.
    { destruct IH as (H1 & H2 & H3 & [H4 | [el0 [Hin H4]]]); repeat split; auto.
      right. exists el0. split; [right; exact Hin | exact H4]. }
    set (title := match Detector.element_text el with
                  | [] => Detector.element_content el
                  | t => t
                  end).
    destruct (match title with [] => false | _ => true end) eqn:Hne;
      [|exact Hlater].
    destruct (Z.gtb_spec (len title) 3) as [Hlen|_]; [|exact Hlater].
    cbn [andb]. destruct (Detector._is_generic_title title) eqn:Hgen; [exact Hlater|].
    split; [lia|]. split; [destruct title; [discriminate Hne | discriminate]|].
    split; [exact Hgen|]. right. exists el. split; [left; reflexivity|].
    unfold title. destruct (Detector.element_text el); [right | left]; auto.
  - destruct IH as (H1 & H2 & H3 & [H4 | [el0 [Hin H4]]]); repeat split; auto.
    right. exists el0. split; [right; exact Hin | exact H4].
Qed.

Lemma existsb_ext_in (A : Type) (f g : A -> bool) (l : list A) :
  (forall x, f x = g x) -> existsb f l = existsb g l.
Proof.
  intros Hfg. induction l as [|x l IH]; simpl; [reflexivity|]. rewrite Hfg, IH.
  reflexivity.
Qed.

(** X15. [_looks_like_article_title] in plain terms: a text is accepted
    exactly when its lower-case form contains none of the generic terms
    (as a substring, so "about" inside "roundabout" counts), and it has
    three to 25 words, or two words together with a title indicator or a
    word of more than two characters that starts with a capital. *)
Theorem looks_like_article_title_spec (text : str) :
  Detector._looks_like_article_title text = true
  <-> ~ mentions Detector.generic_terms (Py.lower text)
      /\ (3 <= length (Detector.split text) <= 25
          \/ (length (Detector.split text) = 2
              /\ (mentions Detector.title_indicators (Py.lower text)
                  \/ capitalised_word text))).
Proof.
  unfold Detector._looks_like_article_title.
  rewrite (existsb_ext_in _ _ (fun term => Py.contains term (Py.lower text))).
  2:{ intros term. destruct (Py.str_eqb term (Py.lower text)) eqn:E; [|reflexivity].
      apply str_eqb_eq in E. rewrite <- E. symmetry. apply contains_true.
      exists [], []. rewrite app_nil_r. reflexivity. }
  fold (Py.any_in Detector.generic_terms (Py.lower text)).
  assert (existsb (fun word => match word with c :: _ => Detector.isupper c | [] => false end)
                  (filter (fun word => 2 <? length word) (Detector.split text)) = true
          <-> capitalised_word text) as Hcap.
  { unfold capitalised_word. rewrite existsb_exists. split.
    - intros [word [Hin Hup]]. apply filter_In in Hin as [Hin Hlen].
      apply Nat.ltb_lt in Hlen. exists word. split; [exact Hin|]. split; [exact Hlen|].
      destruct word as [|c t]; [discriminate|]. eauto.
    - intros [word (Hin & Hlen & c & t & -> & Hup)]. exists (c :: t).
      split; [|exact Hup]. apply filter_In. split; [exact Hin|].
      apply Nat.ltb_lt. exact Hlen. }
  destruct (Py.any_in Detector.generic_terms (Py.lower text)) eqn:Egen.
  - apply any_in_true in Egen. split; [discriminate | tauto].
  - apply any_in_false in Egen.
    rewrite !andb_true_iff, !orb_true_iff, Hcap, any_in_true.
    rewrite !Nat.leb_le. split.
    + intros [[H2 H25] Hor]. split; [exact Egen|].
      destruct (Nat.eq_dec (length (Detector.split text)) 2) as [E2|N2];
        [|left; lia].
      right. split; [exact E2|].
      destruct Hor as [[Hw|Hc]|H3]; [left; exact Hw | right; exact Hc | lia].
    + intros [_ [[H3 H25] | [H2 [Hw|Hc]]]].
      * split; [lia | right; exact H3].
      * split; [lia | left; left; exact Hw].
      * split; [lia | left; right; exact Hc].
Qed.

(** X16. [_is_meaningful_link_text] in plain terms: a link text is accepted
    exactly when it has at least two words and at least five characters
    after trimming, and its trimmed lower-case form is none of the generic
    phrases. *)
Theorem is_meaningful_link_text_spec (text : str) :
  Detector._is_meaningful_link_text text = true
  <-> 2 <= length (Detector.split text)
      /\ (5 <= len (Py.strip text))%Z
      /\ ~ In (Py.strip (Py.lower text)) Detector.generic_text.
Proof.
  unfold Detector._is_meaningful_link_text.
  destruct (Z.ltb_spec (len (Py.strip text)) 5) as [Hshort|Hlong].
  { rewrite orb_true_r. split; [discriminate | lia]. }
  rewrite orb_false_r.
  destruct text as [|c text]; [split; [discriminate | simpl; lia]|].
  destruct (existsb (Py.str_eqb (Py.strip (Py.lower (c :: text)))) Detector.generic_text)
    eqn:Egen.
  - apply existsb_str_eqb in Egen. split; [discriminate | tauto].
  - rewrite Nat.leb_le. split; [|tauto]. intros Hwords.
    split; [exact Hwords|]. split; [lia|]. intros Hin.
    apply existsb_str_eqb in Hin. congruence.
Qed.

(** ** Constructed URLs *)

Lemma lstrip_chars_suffix (c : Re.cls) (s : str) :
  exists a, s = a ++ Detector.lstrip_chars c s /\ forallb c a = true.
Proof.
  induction s as [|x s [a [E Ha]]]; cbn [Detector.lstrip_chars].
  - exists []. auto.
  - destruct (c x) eqn:Hx.
    + exists (x :: a). simpl. rewrite Hx, Ha, <- E. auto.
    + exists []. auto.
Qed.

Lemma lstrip_chars_head (c : Re.cls) (s : str) (x : ascii) (t : str) :
  Detector.lstrip_chars c s = x :: t -> c x = false.
Proof.
  induction s as [|y s IH]; cbn [Detector.lstrip_chars]; [discriminate|].
  destruct (c y) eqn:Hy; [exact IH|]. intros E. injection E as <- _. exact Hy.
Qed.

Lemma lstrip_chars_fixed (c : Re.cls) (s : str) :
  match s with x :: _ => c x = false | [] => True end ->
  Detector.lstrip_chars c s = s.
Proof. destruct s as [|x s]; cbn [Detector.lstrip_chars]; [auto|]. intros ->. auto. Qed.

Lemma strip_chars_decompose (c : Re.cls) (s : str) :
  exists w1 w2, s = w1 ++ Detector.strip_chars c s ++ w2.
Proof.
  destruct (lstrip_chars_suffix c s) as [a [Ea _]].
  destruct (lstrip_chars_suffix c (rev (Detector.lstrip_chars c s))) as [b [Eb _]].
  exists a, (rev b). unfold Detector.strip_chars, Detector.rstrip_chars.
  rewrite <- rev_app_distr, <- Eb, rev_involutive. exact Ea.
Qed.

Lemma rstrip_chars_suffix (c : Re.cls) (s : str) :
  exists b, s = Detector.rstrip_chars c s ++ b.
Proof.
  destruct (lstrip_chars_suffix c (rev s)) as [a [Ea _]].
  exists (rev a). unfold Detector.rstrip_chars.
  rewrite <- rev_app_distr, <- Ea, rev_involutive. reflexivity.
Qed.

(** A text trimmed of the characters of [c] neither starts nor ends with
    one, so trimming it again changes nothing. *)
Lemma strip_chars_idem (c : Re.cls) (s : str) :
  Detector.strip_chars c (Detector.strip_chars c s) = Detector.strip_chars c s.
Proof.
  set (m := Detector.strip_chars c s).
  assert (Detector.lstrip_chars c (rev m) = rev m) as Hend.
  { unfold m, Detector.strip_chars, Detector.rstrip_chars. rewrite rev_involutive.
    apply lstrip_chars_fixed.
    destruct (Detector.lstrip_chars c (rev (Detector.lstrip_chars c s))) as [|x t] eqn:E;
      [exact I|].
    exact (lstrip_chars_head _ _ _ _ E). }
  assert (Detector.lstrip_chars c m = m) as Hstart.
  { apply lstrip_chars_fixed. destruct m as [|x t] eqn:Em; [exact I|].
    unfold m, Detector.strip_chars in Em.
    destruct (Detector.lstrip_chars c s) as [|y u] eqn:El;
      [unfold Detector.rstrip_chars in Em; simpl in Em; discriminate|].
    pose proof (lstrip_chars_head _ _ _ _ El) as Hy.
    destruct (rstrip_chars_suffix c (y :: u)) as [b Eb]. rewrite Em in Eb.
    injection Eb as -> _. exact Hy. }
  unfold Detector.strip_chars at 1, Detector.rstrip_chars.
  rewrite Hstart, Hend. apply rev_involutive.
Qed.

Lemma strip_chars_forall (P : ascii -> Prop) (c : Re.cls) (s : str) :
  Forall P s -> Forall P (Detector.strip_chars c s).
Proof.
  intros Hs. destruct (strip_chars_decompose c s) as [w1 [w2 E]].
  rewrite E in Hs. apply Forall_app in Hs as [_ Hs]. apply Forall_app in Hs as [Hs _].
  exact Hs.
Qed.

Lemma strip_chars_isolated (c d : Re.cls) (s : str) :
  isolated d s -> isolated d (Detector.strip_chars c s).
Proof.
  intros Hs. destruct (strip_chars_decompose c s) as [w1 [w2 E]].
  rewrite E in Hs. apply isolated_app in Hs as [_ Hs].
  apply isolated_app in Hs as [Hs _]. exact Hs.
Qed.

Lemma squeeze_forall (P : ascii -> Prop) (c : Re.cls) (repl : str) (s : str) :
  Forall P repl -> Forall (fun x => c x = false -> P x) s ->
  forall inside, Forall P (squeeze c repl inside s).
Proof.
  intros Hrepl. induction 1 as [|x s Hx Hs IH]; intros inside; cbn [squeeze];
    [constructor|].
  destruct (c x) eqn:Ex.
  - apply Forall_app. split; [destruct inside; [constructor | exact Hrepl] | apply IH].
  - constructor; [apply Hx; reflexivity | apply IH].
Qed.

Lemma slug_of_shaped (title : str) : slug_shaped (Detector.slug_of title).
Proof.
  unfold Detector.slug_of. rewrite sub_lit_filter, !sub_rep_squeeze.
  set (P := fun x : ascii =>
              (Chr.is_word x = true /\ Chr.lower x = x) \/ x = "-"%char).
  assert (Forall (fun x => Re.space x = false -> P x)
            (Py.strip (filter (fun x => negb (Detector.not_slug_char x))
                              (Py.lower title)))) as Hkept.
  { apply strip_forall. apply Forall_forall. intros x Hx.
    apply filter_In in Hx as [Hin Hkeep]. intros Hspace.
    unfold Detector.not_slug_char in Hkeep. rewrite negb_involutive in Hkeep.
    unfold Re.space in Hspace. rewrite Hspace, orb_false_r in Hkeep.
    apply orb_true_iff in Hkeep as [Hw | Hd].
    - left. split; [exact Hw|]. unfold Py.lower in Hin.
      apply in_map_iff in Hin as [y [<- _]]. apply chr_lower_idem.
    - right. apply chr_eqb_eq in Hd. exact Hd. }
  assert (Forall P (lit "-")) as Hdash by (constructor; [right; reflexivity | constructor]).
  pose proof (squeeze_forall P Re.space (lit "-") _ Hdash Hkept false) as Hwords.
  split; [|split].
  - apply strip_chars_forall. apply squeeze_forall; [exact Hdash|].
    eapply Forall_impl; [|exact Hwords]. auto.
  - apply strip_chars_isolated.
    apply (squeeze_isolated Detector.dash "-"%char). reflexivity.
  - apply strip_chars_idem.
Qed.

Lemma endswith_spec (p s : str) :
  Detector.endswith p s = true <-> exists pre, s = pre ++ p.
Proof.
  unfold Detector.endswith. rewrite startswith_spec. split.
  - intros [t E]. exists (rev t).
    rewrite <- (rev_involutive s), E, rev_app_distr, rev_involutive. reflexivity.
  - intros [pre ->]. exists (rev pre). apply rev_app_distr.
Qed.

Lemma construct_article_url_some (base_url title url : str) :
  Detector._construct_article_url base_url title = Some url ->
  let base_clean := Detector.rstrip_chars (Re.ch "/") base_url in
  (Detector.endswith (lit "/blog") base_clean = true
   /\ url = base_clean ++ lit "/" ++ Detector.slug_of title)
  \/ (Detector.endswith (lit "/blog") base_clean = false
      /\ url = base_clean ++ lit "/blog/" ++ Detector.slug_of title).
Proof.
  unfold Detector._construct_article_url.
  destruct (Detector.match_to_end _ _); [discriminate|].
  destruct (Detector.endswith (lit "/blog") _) eqn:Eblog; cbn [hd_error];
    intros E; injection E as <-; [left | right]; auto.
Qed.

Lemma construct_article_url_blog (base_url title url : str) :
  Detector._construct_article_url base_url title = Some url ->
  substring (lit "/blog/") url.
Proof.
  intros E. apply construct_article_url_some in E. cbv zeta in E.
  destruct E as [[Hblog ->] | [_ ->]].
  - apply endswith_spec in Hblog as [pre ->].
    exists pre, (Detector.slug_of title). rewrite <- !app_assoc. reflexivity.
  - exists (Detector.rstrip_chars (Re.ch "/") base_url), (Detector.slug_of title).
    reflexivity.
Qed.

(** X17. The URL that [_construct_article_url] builds from a title: the
    base URL without its trailing slashes, then "/" when that ends in
    "/blog" and "/blog/" otherwise, then the slug of the title.  The slug
    consists of lower-case word characters and single hyphens and neither
    starts nor ends with a hyphen; the URL always contains "/blog/". *)
Theorem construct_article_url_shape (base_url title url : str) :
  Detector._construct_article_url base_url title = Some url ->
  let base_clean := Detector.rstrip_chars (Re.ch "/") base_url in
  url = base_clean
        ++ (if Detector.endswith (lit "/blog") base_clean then lit "/" else lit "/blog/")
        ++ Detector.slug_of title
  /\ slug_shaped (Detector.slug_of title)
  /\ substring (lit "/blog/") url.
Proof.
  intros E. cbv zeta. split; [|split].
  - apply construct_article_url_some in E. cbv zeta in E.
    destruct E as [[-> ->] | [-> ->]]; reflexivity.
  - apply slug_of_shaped.
  - eapply construct_article_url_blog. exact E.
Qed.

Lemma construct_article_url_shape_witness :
  Detector._construct_article_url (lit "https://example.com/blog/")
    (lit "  What's  New -- in  2024?! ")
  = Some (lit "https://example.com/blog/whats-new-in-2024")
  /\ slug_shaped (Detector.slug_of (lit "  What's  New -- in  2024?! ")).
Proof.
  assert (Detector._construct_article_url (lit "https://example.com/blog/")
            (lit "  What's  New -- in  2024?! ")
          = Some (lit "https://example.com/blog/whats-new-in-2024")) as E
    by (vm_compute; reflexivity).
  split; [exact E|].
  exact (proj1 (proj2 (construct_article_url_shape _ _ _ E))).
Defined.

(** X18. Checking a constructed URL.  Since a URL built by
    [_construct_article_url] always contains the article indicator
    "/blog/", [_is_likely_article_url] accepts it exactly when its
    lower-case form contains none of the avoided texts.  So a title whose
    slug begins with an avoided word, such as "Introduction ..." with
    "/intro", gives a URL that is rejected. *)
Theorem constructed_url_verdict (base_url title url : str) :
  Detector._construct_article_url base_url title = Some url ->
  _is_likely_article_url url = negb (Py.any_in avoid_patterns (Py.lower url)).
Proof.
  intros E. apply construct_article_url_blog in E as [pre [post ->]].
  rewrite is_likely_article_url_unfold.
  assert (Py.any_in article_indicators (Py.lower (pre ++ lit "/blog/" ++ post)) = true)
    as ->; [|reflexivity].
  apply any_in_true. exists (lit "/blog/"). split; [left; reflexivity|].
  exists (Py.lower pre), (Py.lower post). rewrite !lower_app. reflexivity.
Qed.

Lemma constructed_url_verdict_witness :
  Detector._looks_like_article_title intro_title = true
  /\ Detector._construct_article_url (lit "https://example.com/") intro_title
     = Some (lit "https://example.com/blog/introduction-to-machine-learning")
  /\ _is_likely_article_url
       (lit "https://example.com/blog/introduction-to-machine-learning") = false.
Proof.
  assert (Detector._construct_article_url (lit "https://example.com/") intro_title
          = Some (lit "https://example.com/blog/introduction-to-machine-learning")) as E
    by (vm_compute; reflexivity).
  split; [vm_compute; reflexivity|]. split; [exact E|].
  rewrite (constructed_url_verdict _ _ _ E). vm_compute. reflexivity.
Defined.

(** ** Date-only titles *)

Lemma matches_bol_iff (m : bool) p w n :
  matches (Re.Bol m) p w n <-> w = [] /\ (p = None \/ (m = true /\ p = Some Chr.nl)).
Proof.
  split.
  - intros H; inversion H; subst. auto.
  - intros [-> H]. constructor. exact H.
Qed.

Lemma strip_last (t w : str) (x : ascii) :
  Py.strip t = w ++ [x] -> Chr.is_space x = false.
Proof.
  intros E. apply (f_equal (@rev ascii)) in E.
  unfold Py.strip, Py.rstrip in E. rewrite rev_involutive, rev_app_distr in E.
  simpl in E. exact (lstrip_head _ _ _ E).
Qed.

Lemma match_to_end_spec (r : Re.regex) (s : str) :
  Detector.match_to_end r s = true
  <-> exists w rest, s = w ++ rest /\ matches r None w rest
                     /\ (rest = [] \/ rest = [Chr.nl]).
Proof.
  unfold Detector.match_to_end. rewrite existsb_exists. split.
  - intros [[p' rest] [Hin Hend]]. apply ends_spec in Hin as [w [E [_ M]]].
    exists w, rest. split; [exact E|]. split; [exact M|]. cbn [snd] in Hend.
    destruct rest as [|c [|d rest]]; [left; reflexivity | right | discriminate].
    apply chr_eqb_eq in Hend. subst. reflexivity.
  - intros [w [rest [E [M Hend]]]]. exists (last_char None w, rest). split.
    + apply ends_spec. exists w. auto.
    + cbn [snd]. destruct Hend as [-> | ->]; [reflexivity | apply chr_eqb_eq; reflexivity].
Qed.

Ltac seq_step M w1 M1 :=
  let w2 := fresh "rest" in
  apply matches_seq_cons in M as [w1 [w2 [-> [M1 M]]]].

Lemma date_title_matches (w n : str) :
  matches Detector.re_date_title None w n <-> date_only w.
Proof.
  unfold Detector.re_date_title, date_only. split.
  - intros M.
    seq_step M w0 M0. apply matches_bol_iff in M0 as [-> _].
    seq_step M month Mm. apply matches_rep_all in Mm.
    seq_step M sp Msp. apply matches_text in Msp. subst sp.
    seq_step M day Md.
    seq_step M cs Mcs. apply matches_text in Mcs. subst cs.
    seq_step M y1 My1. apply matches_lit_iff in My1 as [c1 [-> Hc1]].
    seq_step M y2 My2. apply matches_lit_iff in My2 as [c2 [-> Hc2]].
    seq_step M y3 My3. apply matches_lit_iff in My3 as [c3 [-> Hc3]].
    seq_step M y4 My4. apply matches_lit_iff in My4 as [c4 [-> Hc4]].
    apply matches_seq_nil in M. subst_lhs M.
    assert (forallb Re.digit day = true /\ 1 <= length day <= 2) as [Hd Hl].
    { apply matches_alt_iff in Md as [Md|Md].
      - apply matches_cat_iff in Md as [a [b [-> [Ma Mb]]]].
        apply matches_lit_iff in Ma as [d1 [-> Hd1]].
        apply matches_lit_iff in Mb as [d2 [-> Hd2]].
        simpl. rewrite Hd1, Hd2. split; [reflexivity | lia].
      - apply matches_lit_iff in Md as [d1 [-> Hd1]].
        simpl. rewrite Hd1. split; [reflexivity | lia]. }
    exists month, day, [c1; c2; c3; c4]. split; [reflexivity|].
    split; [exact Mm|]. split; [exact Hd|]. split; [exact Hl|].
    simpl. rewrite Hc1, Hc2, Hc3, Hc4. split; reflexivity.
  - intros [month [day [year (-> & Hm & Hd & Hdl & Hy & Hyl)]]].
    destruct year as [|c1 [|c2 [|c3 [|c4 [|c5 year]]]]]; try discriminate Hyl.
    simpl in Hy. rewrite !andb_true_iff in Hy. destruct Hy as (Hc1 & Hc2 & Hc3 & Hc4 & _).
    assert (matches (Re.Alt (Re.Cat (Re.Lit Re.digit) (Re.Lit Re.digit)) (Re.Lit Re.digit))
              (last_char (last_char (last_char None []) month) (lit " ")) day
              (lit ", " ++ [c1] ++ [c2] ++ [c3] ++ [c4] ++ [] ++ n)) as Mday.
    { destruct day as [|d1 [|d2 [|d3 day]]]; simpl in Hdl; try lia.
      - apply matches_alt_iff. right. apply matches_lit_iff.
        simpl in Hd. rewrite andb_true_r in Hd. eauto.
      - apply matches_alt_iff. left. simpl in Hd. rewrite andb_true_r in Hd.
        apply andb_true_iff in Hd as [Hd1 Hd2].
        apply matches_cat_iff. exists [d1], [d2]. split; [reflexivity|].
        split; apply matches_lit_iff; eauto. }
    change (matches
              (Re.seq [Re.Bol false; Re.Rep Detector.letter_az 1; Re.text " ";
                       Re.Alt (Re.Cat (Re.Lit Re.digit) (Re.Lit Re.digit))
                         (Re.Lit Re.digit);
                       Re.text ", "; Re.Lit Re.digit; Re.Lit Re.digit; Re.Lit Re.digit;
                       Re.Lit Re.digit])
              None
              ([] ++ month ++ lit " " ++ day ++ lit ", " ++ [c1] ++ [c2] ++ [c3]
                  ++ [c4] ++ []) n).
    apply matches_seq_cons. eexists _, _. split; [reflexivity|].
    split; [apply matches_bol_iff; auto|].
    apply matches_seq_cons. eexists _, _. split; [reflexivity|].
    split; [apply matches_rep_all; exact Hm|].
    apply matches_seq_cons. eexists _, _. split; [reflexivity|].
    split; [apply matches_text; reflexivity|].
    apply matches_seq_cons. eexists _, _. split; [reflexivity|].
    split; [rewrite <- !app_assoc; exact Mday|].
    build_match.
Qed.

(** X19. [_construct_article_url] gives no URL exactly for the date-only
    titles: those that, once trimmed, consist of letters, a space, one or
    two digits, a comma and a space, and four digits (such as
    "January 5, 2024").  For every other title it returns a URL. *)
Theorem construct_article_url_none (base_url title : str) :
  Detector._construct_article_url base_url title = None
  <-> date_only (Py.strip title).
Proof.
  unfold Detector._construct_article_url.
  destruct (Detector.match_to_end Detector.re_date_title (Py.strip title)) eqn:E.
  - split; [intros _ | reflexivity].
    apply match_to_end_spec in E as [w [rest (Es & M & [-> | ->])]].
    + rewrite app_nil_r in Es. rewrite Es. apply (date_title_matches w []). exact M.
    + apply strip_last in Es. vm_compute in Es. discriminate Es.
  - split.
    + destruct (Detector.endswith _ _); discriminate.
    + intros Hdate. exfalso.
      assert (Detector.match_to_end Detector.re_date_title (Py.strip title) = true) as E'.
      { apply match_to_end_spec. exists (Py.strip title), [].
        split; [symmetry; apply app_nil_r|]. split; [|left; reflexivity].
        apply date_title_matches. exact Hdate. }
      congruence.
Qed.

(** ** URLs for single-page applications *)

Lemma split_on_cons (sep : ascii) (s : str) :
  exists word later, Detector.split_on sep s = word :: later.
Proof.
  destruct s as [|c s]; cbn [Detector.split_on]; [eauto|].
  destruct (Chr.eqb c sep); [eauto|].
  destruct (Detector.split_on sep s); eauto.
Qed.

(** Joining the pieces of a split gives the text back. *)
Lemma join_split_on (sep : ascii) (s : str) :
  Detector.join [sep] (Detector.split_on sep s) = s.
Proof.
  induction s as [|c s IH]; cbn [Detector.split_on]; [reflexivity|].
  destruct (split_on_cons sep s) as [word [later E]]. rewrite E in *.
  destruct (Chr.eqb c sep) eqn:Ec.
  - apply chr_eqb_eq in Ec. subst c.
    change (Detector.join [sep] ([] :: word :: later))
      with ([] ++ [sep] ++ Detector.join [sep] (word :: later)).
    rewrite IH. reflexivity.
  - destruct later as [|word' later].
    + cbn [Detector.join] in *. rewrite IH. reflexivity.
    + change (Detector.join [sep] ((c :: word) :: word' :: later))
        with (c :: word ++ [sep] ++ Detector.join [sep] (word' :: later)).
      change (Detector.join [sep] (word :: word' :: later))
        with (word ++ [sep] ++ Detector.join [sep] (word' :: later)) in IH.
      rewrite IH. reflexivity.
Qed.

Lemma filter_all (A : Type) (f : A -> bool) (l : list A) :
  (forall x, f x = true) -> filter f l = l.
Proof.
  intros Hf. induction l as [|x l IH]; simpl; [reflexivity|]. rewrite Hf, IH.
  reflexivity.
Qed.

(** X20. [_construct_spa_article_url] always returns a URL, and the URL
    contains "/blog".  For a title whose slug has at most three words no
    stop word is removed: the URL is the base URL without its trailing
    slashes, then "/" when that contains "/blog" and "/blog/" otherwise,
    then the slug of the title. *)
Theorem construct_spa_article_url_shape (base_url title : str) :
  let base_clean := Detector.rstrip_chars (Re.ch "/") base_url in
  exists url,
    Detector._construct_spa_article_url base_url title = Some url
    /\ substring (lit "/blog") url
    /\ (length (Detector.split_on "-" (Detector.slug_of title)) <= 3 ->
        url = base_clean
              ++ (if Py.contains (lit "/blog") base_clean then lit "/" else lit "/blog/")
              ++ Detector.slug_of title).
Proof.
  cbv zeta. unfold Detector._construct_spa_article_url.
  set (base_clean := Detector.rstrip_chars (Re.ch "/") base_url).
  set (words := Detector.split_on "-" (Detector.slug_of title)).
  assert (length words <= 3 ->
          Detector.join (lit "-")
            (filter (fun word => negb (existsb (Py.str_eqb word) Detector.stop_words)
                                 || (length words <=? 3)) words)
          = Detector.slug_of title) as Hshort.
  { intros Hlen. rewrite filter_all.
    - apply (join_split_on "-"%char).
    - intros word. apply Nat.leb_le in Hlen. rewrite Hlen. apply orb_true_r. }
  destruct (Py.contains (lit "/blog") base_clean) eqn:Eblog.
  - eexists. split; [reflexivity|]. split.
    + apply contains_true in Eblog as [pre [post ->]].
      eexists pre, _. rewrite <- !app_assoc. reflexivity.
    + intros Hlen. rewrite (Hshort Hlen). reflexivity.
  - eexists. split; [reflexivity|]. split.
    + exists base_clean. eexists. change (lit "/blog/") with (lit "/blog" ++ lit "/").
      rewrite <- !app_assoc. reflexivity.
    + intros Hlen. rewrite (Hshort Hlen). reflexivity.
Qed.

Lemma construct_spa_article_url_shape_witness :
  Detector._construct_spa_article_url (lit "https://example.com/") (lit "The Art of")
  = Some (lit "https://example.com/blog/the-art-of").
Proof.
  destruct (construct_spa_article_url_shape (lit "https://example.com/") (lit "The Art of"))
    as [url (E & _ & Hshort)].
  rewrite E, Hshort; [vm_compute; reflexivity | vm_compute; lia].
Defined.

(** ** The main heading *)

Lemma max_by_score_spec (later : list Headings.heading) : forall best,
  In (Headings.max_by_score best later) (best :: later)
  /\ Forall (fun h => (Headings.score h <= Headings.score
                                             (Headings.max_by_score best later))%Z)
            (best :: later).
Proof.
  induction later as [|h later IH]; intros best; cbn [Headings.max_by_score].
  - split; [left; reflexivity|]. constructor; [lia | constructor].
  - destruct (IH (if (Headings.score best <? Headings.score h)%Z then h else best))
      as [Hin Hall].
    apply Forall_cons_iff in Hall as [Hbest Hall].
    destruct (Z.ltb_spec (Headings.score best) (Headings.score h)) as [Hlt|Hge].
    + split; [right; exact Hin|].
      constructor; [lia|]. constructor; [exact Hbest | exact Hall].
    + split; [destruct Hin as [<-|Hin]; [left; reflexivity | right; right; exact Hin]|].
      constructor; [exact Hbest|]. constructor; [lia | exact Hall].
Qed.

(** X21. [_find_main_heading] finds nothing exactly when no h1, h2 or h3
    has more than 10 characters of text; otherwise it returns one of these
    headings with more than 10 characters whose score
    (4 - level) * 10 + min(len(text), 100) is the highest among them. *)
Theorem find_main_heading_spec (h1s h2s h3s : list str) :
  match Headings._find_main_heading h1s h2s h3s with
  | None =>
      Forall (fun h => (len (Headings.text h) <= 10)%Z) (heading_candidates h1s h2s h3s)
  | Some best =>
      In best (heading_candidates h1s h2s h3s)
      /\ (10 < len (Headings.text best))%Z
      /\ Forall (fun h => (10 < len (Headings.text h))%Z ->
                          (Headings.score h <= Headings.score best)%Z)
                (heading_candidates h1s h2s h3s)
  end.
Proof.
  unfold Headings._find_main_heading. fold (heading_candidates h1s h2s h3s).
  set (long := fun h => (len (Headings.text h) >? 10)%Z).
  destruct (filter long (heading_candidates h1s h2s h3s)) as [|h later] eqn:E.
  - apply Forall_forall. intros h Hh.
    destruct (Z.gtb_spec (len (Headings.text h)) 10) as [Hgt|Hle]; [|exact Hle].
    assert (In h (filter long (heading_candidates h1s h2s h3s))) as Hin.
    { apply filter_In. split; [exact Hh|]. unfold long.
      destruct (Z.gtb_spec (len (Headings.text h)) 10); [reflexivity | lia]. }
    rewrite E in Hin. destruct Hin.
  - destruct (max_by_score_spec later h) as [Hin Hall]. rewrite <- E in Hin, Hall.
    apply filter_In in Hin as [Hin Hlong]. unfold long in Hlong.
    apply Z.gtb_lt in Hlong. split; [exact Hin|]. split; [lia|].
    apply Forall_forall. intros h' Hh' Hlong'.
    apply (proj1 (Forall_forall _ _) Hall). apply filter_In. split; [exact Hh'|].
    unfold long. apply Z.gtb_lt. lia.
Qed.

(** ** The pace of a run *)

Lemma paced_app (a b : list event) : forall pending,
  paced pending a = true -> paced pending (a ++ b) = paced false b.
Proof.
  induction a as [|e a IH]; intros pending; cbn [paced app].
  - destruct pending; [discriminate | reflexivity].
  - destruct pending; destruct e; try discriminate; apply IH.
Qed.

Section ScraperPace.

Context {soup : Type} `{BeautifulSoup soup}.

Variable base_url : str.
Variable max_articles : Z.
Variable progress_callback : bool.
Variable fetch_page : str -> bool -> option soup.
Variable fetch_with_playwright : str -> option soup.
Variable fallback_page_links : str -> option (list link_info).
Variable click_discovered_urls : option (list link_info).
Variable driver_page : str -> option soup.
Variable find_article_links : soup -> str -> list str.
Variable strategies : list (soup -> option str).
Variable extract_title : soup -> str.
Variable extract_author : soup -> str.

Let run :=
  scrape base_url max_articles progress_callback fetch_page fetch_with_playwright
    fallback_page_links click_discovered_urls driver_page find_article_links
    strategies extract_title extract_author.

Lemma article_loop_events (use_js : bool) (total : Z) (urls : list str) :
  forall i scraped,
    let evs :=
      fst (article_loop progress_callback fetch_page strategies extract_title
             extract_author use_js total i scraped urls) in
    paced false evs = true
    /\ forall j t u, In (EvProgress j t u) evs ->
                     (i < j <= i + Z.of_nat (length urls))%Z /\ t = total.
Proof.
  induction urls as [|url later IH]; intros i scraped; cbv zeta; cbn [article_loop].
  - split; [reflexivity | intros j t u []].
  - destruct (existsb (Py.str_eqb url) scraped).
    + destruct (IH (i + 1)%Z scraped) as [Hp Hr]. split; [exact Hp|].
      intros j t u Hin. destruct (Hr j t u Hin). cbn [length]. split; [lia | assumption].
    + match goal with
      | |- context [article_loop ?a ?b ?c ?d ?e ?f ?g ?h ?k later] =>
          destruct (IH h k) as [Hp Hr];
          destruct (article_loop a b c d e f g h k later) as [evs items]
      end.
      cbn [fst] in *. split.
      * destruct progress_callback; cbn [app paced]; exact Hp.
      * intros j t u Hin. cbn [length].
        apply in_app_iff in Hin as [Hin|Hin].
        -- destruct progress_callback; [|destruct Hin].
           destruct Hin as [E|[]]. injection E as <- <- _. split; [lia | reflexivity].
        -- destruct Hin as [E|[E|Hin]]; try discriminate E.
           destruct (Hr j t u Hin). split; [lia | assumption].
Qed.

Lemma click_loop_events (total : Z) (discovered : list link_info) :
  forall i,
    let evs :=
      fst (click_loop progress_callback driver_page strategies extract_title
             extract_author total i discovered) in
    paced false evs = true
    /\ forall j t u, In (EvProgress j t u) evs ->
                     (i <= j < i + Z.of_nat (length discovered))%Z /\ t = total.
Proof.
  induction discovered as [|info later IH]; intros i; cbv zeta; cbn [click_loop].
  - split; [reflexivity | intros j t u []].
  - destruct (IH (i + 1)%Z) as [Hp Hr].
    destruct (click_loop _ _ _ _ _ _ _ later) as [evs items]. cbn [fst] in *. split.
    + destruct progress_callback; cbn [app paced]; exact Hp.
    + intros j t u Hin. cbn [length].
      apply in_app_iff in Hin as [Hin|Hin].
      * destruct progress_callback; [|destruct Hin].
        destruct Hin as [E|[]]. injection E as <- <- _. split; [lia | reflexivity].
      * destruct Hin as [E|[E|Hin]]; try discriminate E.
        destruct (Hr j t u Hin). split; [lia | assumption].
Qed.

Lemma take_length_exact (A : Type) (l : list A) (n : Z) :
  (0 <= n)%Z -> Z.of_nat (length (take l n)) = Z.min (Z.of_nat (length l)) n.
Proof.
  intros Hn. unfold take. rewrite length_firstn. unfold Py.clamp.
  destruct (Z.ltb_spec n 0); lia.
Qed.

Lemma scrape_links_events (arch : architecture) (doc : soup) :
  (0 <= max_articles)%Z ->
  exists pre body,
    fst (scrape_links base_url max_articles progress_callback fetch_page
           click_discovered_urls driver_page find_article_links strategies
           extract_title extract_author arch doc) = pre ++ body
    /\ (pre = [] \/ (pre = [EvClickDiscovery] /\ needs_js arch = true))
    /\ paced false body = true
    /\ forall i total url, In (EvProgress i total url) body -> (1 <= i <= total)%Z.
Proof.
  intros Hmax. unfold scrape_links.
  set (links := find_article_links doc base_url).
  pose proof (article_loop_events (needs_js arch)
                (Z.min (Z.of_nat (length links)) max_articles)
                (take links max_articles) 0 []) as [Hap Har].
  cbv zeta in Hap, Har. rewrite (take_length_exact _ links max_articles Hmax) in Har.
  destruct (article_loop _ _ _ _ _ _ _ _ _ _) as [aevs aitems]. cbn [fst snd] in *.
  assert (forall i total url, In (EvProgress i total url) aevs -> (1 <= i <= total)%Z)
    as Har'.
  { intros i total url Hin. destruct (Har i total url Hin) as [Hi ->]. lia. }
  destruct (needs_js arch && _should_use_click_discovery base_url) eqn:Econd.
  - apply andb_true_iff in Econd as [Hjs _].
    unfold _scrape_with_click_discovery.
    assert (exists cevs citems,
              match click_discovered_urls with
              | Some discovered =>
                  click_loop progress_callback driver_page strategies extract_title
                    extract_author (Z.of_nat (length discovered)) 1 discovered
              | None => ([], [])
              end = (cevs, citems)
              /\ paced false cevs = true
              /\ forall i total url, In (EvProgress i total url) cevs ->
                                     (1 <= i <= total)%Z) as [cevs [citems (-> & Hcp & Hcr)]].
    { destruct click_discovered_urls as [discovered|].
      - pose proof (click_loop_events (Z.of_nat (length discovered)) discovered 1)
          as [Hp Hr].
        cbv zeta in Hp, Hr.
        destruct (click_loop _ _ _ _ _ _ _ discovered) as [cevs citems].
        exists cevs, citems. split; [reflexivity|]. split; [exact Hp|].
        intros i total url Hin. destruct (Hr i total url Hin) as [Hi ->]. lia.
      - exists [], []. split; [reflexivity|]. split; [reflexivity | intros i t u []]. }
    destruct citems as [|it its]; cbn [fst].
    + exists [EvClickDiscovery], (cevs ++ aevs). split; [reflexivity|].
      split; [right; auto|]. split; [rewrite (paced_app _ _ _ Hcp); exact Hap|].
      intros i total url Hin. apply in_app_iff in Hin as [Hin|Hin]; eauto.
    + exists [EvClickDiscovery], cevs. split; [reflexivity|]. auto.
  - exists [], aevs. split; [reflexivity|]. auto.
Qed.

Lemma scrape_events :
  (0 <= max_articles)%Z ->
  exists pre body,
    fst run = pre ++ body
    /\ In pre (openings base_url)
    /\ paced false body = true
    /\ forall i total url, In (EvProgress i total url) body -> (1 <= i <= total)%Z.
Proof.
  intros Hmax. unfold run, scrape.
  destruct (fetch_page base_url false) as [doc|].
  - destruct (needs_js (detect_architecture doc base_url)) eqn:Ejs.
    + destruct (fetch_page base_url true) as [doc'|].
      * destruct (scrape_links_events (detect_architecture doc base_url) doc' Hmax)
          as [pre [body (E & Hpre & Hb)]].
        destruct (scrape_links _ _ _ _ _ _ _ _ _ _ _ _) as [evs items].
        cbn [fst] in *. subst evs.
        exists ([EvFetch base_url false; EvFetch base_url true] ++ pre), body.
        split; [reflexivity|]. split; [|exact Hb].
        destruct Hpre as [-> | [-> _]]; unfold openings; simpl; auto.
      * destruct (fetch_with_playwright base_url) as [doc'|].
        -- destruct (scrape_links_events (detect_architecture doc base_url) doc' Hmax)
             as [pre [body (E & Hpre & Hb)]].
           destruct (scrape_links _ _ _ _ _ _ _ _ _ _ _ _) as [evs items].
           cbn [fst] in *. subst evs.
           exists ([EvFetch base_url false; EvFetch base_url true;
                    EvPlaywright base_url] ++ pre), body.
           split; [reflexivity|]. split; [|exact Hb].
           destruct Hpre as [-> | [-> _]]; unfold openings; simpl; auto 7.
        -- eexists _, []. cbn [fst]. rewrite app_nil_r. split; [reflexivity|].
           split; [unfold openings; simpl; auto 7|].
           split; [reflexivity | intros i t u []].
    + destruct (scrape_links_events (detect_architecture doc base_url) doc Hmax)
        as [pre [body (E & Hpre & Hb)]].
      destruct (scrape_links _ _ _ _ _ _ _ _ _ _ _ _) as [evs items].
      cbn [fst] in *. subst evs.
      destruct Hpre as [-> | [_ Hjs]]; [|congruence].
      exists [EvFetch base_url false], body.
      split; [reflexivity|]. split; [left; reflexivity | exact Hb].
  - eexists _, []. cbn [fst]. rewrite app_nil_r. split; [reflexivity|].
    split; [left; reflexivity|]. split; [reflexivity | intros i t u []].
Qed.

(** X22. Progress reports stay within their total: with max_articles not
    negative, every call progress_callback(i, total, url) of a scrape has
    1 <= i <= total. *)
Theorem progress_within_total (i total : Z) (url : str) :
  (0 <= max_articles)%Z ->
  In (EvProgress i total url) (fst run) ->
  (1 <= i <= total)%Z.
Proof.
  intros Hmax Hin. destruct (scrape_events Hmax) as [pre [body (E & Hpre & _ & Hr)]].
  rewrite E in Hin. apply in_app_iff in Hin as [Hin|Hin]; [|exact (Hr _ _ _ Hin)].
  exfalso. unfold openings in Hpre. simpl in Hpre.
  repeat (destruct Hpre as [<- | Hpre];
          [simpl in Hin; repeat (destruct Hin as [Hin|Hin]; [discriminate Hin|]);
           exact Hin|]).
  exact Hpre.
Qed.

(** X23. A scrape pauses after every article it visits: with max_articles
    not negative, its run is one of the openings (the fetches of the main
    page without and with a browser, Playwright, then the requests fallback
    or the start of click discovery) followed by visits of articles in
    which every fetch and every page load of the driver is directly
    followed by a pause. *)
Theorem scrape_is_paced :
  (0 <= max_articles)%Z ->
  exists pre body,
    fst run = pre ++ body /\ In pre (openings base_url) /\ paced false body = true.
Proof.
  intros Hmax. destruct (scrape_events Hmax) as [pre [body (E & Hpre & Hp & _)]].
  exists pre, body. auto.
Qed.

End ScraperPace.

Lemma progress_within_total_witness :
  In (EvProgress 1 1 (lit "https://example.com/blog/my-post"))
     (fst (scrape (lit "https://example.com/blog") 50 true static_blog_fetch
             (fun _ => None) (fun _ => None) None (fun _ => None)
             (fun _ _ => [lit "https://example.com/blog/my-post"])
             [sample_strategy] (fun _ => lit "Title") (fun _ => [])))
  /\ (1 <= 1 <= 1)%Z.
Proof.
  assert (In (EvProgress 1 1 (lit "https://example.com/blog/my-post"))
            (fst (scrape (lit "https://example.com/blog") 50 true static_blog_fetch
                    (fun _ => None) (fun _ => None) None (fun _ => None)
                    (fun _ _ => [lit "https://example.com/blog/my-post"])
                    [sample_strategy] (fun _ => lit "Title") (fun _ => [])))) as Hin
    by (vm_compute; right; left; reflexivity).
  split; [exact Hin|].
  apply (progress_within_total (lit "https://example.com/blog") 50 true static_blog_fetch
           (fun _ => None) (fun _ => None) None (fun _ => None)
           (fun _ _ => [lit "https://example.com/blog/my-post"])
           [sample_strategy] (fun _ => lit "Title") (fun _ => [])
           1 1 (lit "https://example.com/blog/my-post")); [lia | exact Hin].
Defined.

Lemma scrape_is_paced_witness :
  exists pre body,
    fst scrape_static_blog = pre ++ body
    /\ In pre (openings (lit "https://example.com/blog"))
    /\ paced false body = true.
Proof.
  apply (scrape_is_paced (lit "https://example.com/blog") 50 false static_blog_fetch
           (fun _ => None) (fun _ => None) None (fun _ => None)
           (fun _ _ => [lit "https://example.com/blog/my-post"])
           [sample_strategy] (fun _ => lit "Title") (fun _ => [])).
  lia.
Defined.

(** ** Chunk sizes and excerpts *)

Lemma rfind_from_bound (sub s : str) : forall j lo hi,
  PDF.rfind_from sub s j lo hi = (-1)%Z
  \/ (lo <= PDF.rfind_from sub s j lo hi
      /\ PDF.rfind_from sub s j lo hi + len sub <= hi)%Z.
Proof.
  induction s as [|c s IH]; intros j lo hi; cbn [PDF.rfind_from].
  - destruct ((lo <=? j)%Z && (j + len sub <=? hi)%Z && Py.startswith sub []) eqn:E;
      [|left; reflexivity].
    apply andb_true_iff in E as [E _]. apply andb_true_iff in E as [E1 E2].
    apply Z.leb_le in E1, E2. right. lia.
  - destruct (Z.leb_spec 0 (PDF.rfind_from sub s (j + 1) lo hi)) as [Hfound|_].
    + destruct (IH (j + 1)%Z lo hi) as [E|Hb]; [lia | right; exact Hb].
    + destruct ((lo <=? j)%Z && (j + len sub <=? hi)%Z && Py.startswith sub (c :: s))
        eqn:E; [|left; reflexivity].
      apply andb_true_iff in E as [E _]. apply andb_true_iff in E as [E1 E2].
      apply Z.leb_le in E1, E2. right. lia.
Qed.

Lemma strip_slice_length (s : str) (a e : Z) :
  (0 <= a <= e)%Z -> (len (Py.strip (Py.slice s a e)) <= e - a)%Z.
Proof.
  intros Ha. pose proof (strip_length (Py.slice s a e)) as Hs.
  pose proof (slice_window s a (e - a)) as Hw.
  replace (a + (e - a))%Z with e in Hw by lia. unfold len in *. lia.
Qed.

Lemma slice_substring (s : str) (a e : Z) : substring (Py.slice s a e) s.
Proof.
  unfold Py.slice.
  set (m := Z.to_nat (Py.clamp (len s) a)).
  set (k := Z.to_nat (Py.clamp (len s) e - Py.clamp (len s) a)).
  exists (firstn m s), (skipn k (skipn m s)).
  rewrite (firstn_skipn k (skipn m s)), (firstn_skipn m s). reflexivity.
Qed.

Lemma strip_substring (s : str) : substring (Py.strip s) s.
Proof. destruct (strip_decompose s) as [w1 [w2 [E _]]]. exists w1, w2. exact E. Qed.

Lemma substring_trans (a b c : str) : substring a b -> substring b c -> substring a c.
Proof.
  intros [p1 [q1 ->]] [p2 [q2 ->]]. exists (p2 ++ p1), (q1 ++ q2).
  rewrite <- !app_assoc. reflexivity.
Qed.

Section ChunkBounds.

Variables chunk_size chunk_overlap : Z.
Hypothesis Hadv : advancing chunk_size chunk_overlap.

Lemma split_end_bound (content : str) (start e : Z) :
  (0 <= start)%Z -> PDF.split_end chunk_size content start = Ok e ->
  (e <= start + chunk_size + 200)%Z.
Proof.
  intros Hs. destruct Hadv as (Hov & Hcs & _). unfold PDF.split_end.
  destruct (start + chunk_size <? len content)%Z; [|intros E; injection E as <-; lia].
  destruct (Z.gtb_spec (PDF.rfind [Chr.nl; Chr.nl] content start
                          (start + chunk_size + 200)) start) as [Hgt|_].
  - intros E. injection E as <-. unfold PDF.rfind in *.
    destruct (rfind_from_bound [Chr.nl; Chr.nl] content 0
                (Py.clamp (len content) start)
                (Py.clamp (len content) (start + chunk_size + 200))) as [E|[_ Hb]];
      [lia|].
    assert (Py.clamp (len content) (start + chunk_size + 200)
            <= start + chunk_size + 200)%Z as Hhi.
    { unfold Py.clamp. destruct (Z.ltb_spec (start + chunk_size + 200) 0); lia. }
    change (len [Chr.nl; Chr.nl]) with 2%Z in Hb. lia.
  - destruct (sentence_break_spec content
                (PDF.range_len (start + chunk_size - 100) (start + chunk_size + 100))
                (start + chunk_size - 100)) as [r [Er Hr]]; [lia|].
    rewrite Er. cbn [bind]. intros E. injection E as <-.
    unfold PDF.range_len in Hr. destruct r; lia.
Qed.

Lemma size_end_bound (text : str) (start e : Z) :
  (0 <= start)%Z -> PDF.size_end chunk_size chunk_overlap text start = Ok e ->
  (e <= start + chunk_size + chunk_overlap)%Z.
Proof.
  intros Hs. destruct Hadv as (Hov & Hcs & _). unfold PDF.size_end.
  destruct (start + chunk_size <? len text)%Z; [|intros E; injection E as <-; lia].
  destruct (sentence_break_spec text
              (PDF.range_len (start + chunk_size - chunk_overlap)
                 (start + chunk_size + chunk_overlap))
              (start + chunk_size - chunk_overlap)) as [r [Er Hr]]; [lia|].
  rewrite Er. cbn [bind]. intros E. injection E as <-.
  unfold PDF.range_len in Hr. destruct r; lia.
Qed.

Lemma split_loop_excerpts (content chapter_title : str) (chapter_index : nat) :
  forall fuel start part_index chunks,
    (0 <= start)%Z ->
    PDF.split_loop chunk_size chunk_overlap fuel content chapter_title
      chapter_index start part_index = Ok chunks ->
    Forall (fun c => (len (PDF.content c) <= chunk_size + 200)%Z
                     /\ substring (PDF.content c) content) chunks.
Proof.
  induction fuel as [|fuel IH]; intros start part_index chunks Hs;
    cbn [PDF.split_loop]; [discriminate|].
  destruct (start <? len content)%Z; [|intros E; injection E as <-; constructor].
  intros E. apply outcome_bind_ok in E as [e [Ee E]].
  pose proof (split_end_after chunk_size chunk_overlap Hadv content start e Hs Ee) as He.
  pose proof (split_end_bound content start e Hs Ee) as Hb.
  pose proof (next_start_bounds chunk_size chunk_overlap Hadv start e (conj Hs He))
    as [Hnext _].
  pose proof (strip_slice_length content start e) as Hlen.
  pose proof (substring_trans _ _ _ (strip_substring (Py.slice content start e))
                (slice_substring content start e)) as Hsub.
  destruct (Py.strip (Py.slice content start e)) as [|c t];
    [eapply IH; [exact Hnext | exact E]|].
  apply outcome_bind_ok in E as [rest [Erest E]]. injection E as <-.
  constructor; [|eapply IH; [exact Hnext | exact Erest]].
  cbn [PDF.content]. split; [lia | exact Hsub].
Qed.

Lemma size_loop_excerpts (text : str) :
  forall fuel start index chunks,
    (0 <= start)%Z ->
    PDF.size_loop chunk_size chunk_overlap fuel text start index = Ok chunks ->
    Forall (fun c => (len (PDF.content c) <= chunk_size + chunk_overlap)%Z
                     /\ substring (PDF.content c) text) chunks.
Proof.
  induction fuel as [|fuel IH]; intros start index chunks Hs;
    cbn [PDF.size_loop]; [discriminate|].
  destruct (start <? len text)%Z; [|intros E; injection E as <-; constructor].
  intros E. apply outcome_bind_ok in E as [e [Ee E]].
  pose proof (size_end_after chunk_size chunk_overlap Hadv text start e Hs Ee) as He.
  pose proof (size_end_bound text start e Hs Ee) as Hb.
  pose proof (next_start_bounds chunk_size chunk_overlap Hadv start e (conj Hs He))
    as [Hnext _].
  pose proof (strip_slice_length text start e) as Hlen.
  pose proof (substring_trans _ _ _ (strip_substring (Py.slice text start e))
                (slice_substring text start e)) as Hsub.
  destruct (Py.strip (Py.slice text start e)) as [|c t];
    [eapply IH; [exact Hnext | exact E]|].
  apply outcome_bind_ok in E as [rest [Erest E]]. injection E as <-.
  constructor; [|eapply IH; [exact Hnext | exact Erest]].
  cbn [PDF.content]. split; [lia | exact Hsub].
Qed.

Lemma chapter_loop_excerpts (text : str) (fuel n : nat) :
  forall chapters i chunks,
    Forall (fun ch => substring (PDF.ch_content ch) text) chapters ->
    PDF.chapter_loop chunk_size chunk_overlap fuel n i chapters = Ok chunks ->
    Forall (fun c => (len (PDF.content c) <= Z.max (2 * chunk_size) (chunk_size + 200))%Z
                     /\ substring (PDF.content c) text) chunks.
Proof.
  induction chapters as [|ch later IH]; intros i chunks Hall; cbn [PDF.chapter_loop].
  - intros E. injection E as <-. constructor.
  - apply Forall_cons_iff in Hall as [Hch Hlater].
    intros E. apply outcome_bind_ok in E as [here [Ehere E]].
    apply outcome_bind_ok in E as [rest [Erest E]]. injection E as <-.
    apply Forall_app. split; [|eapply IH; eassumption].
    destruct (Z.gtb_spec (len (PDF.ch_content ch)) (chunk_size * 2)) as [_|Hshort].
    + unfold PDF._split_large_chapter in Ehere.
      apply split_loop_excerpts in Ehere; [|lia].
      eapply Forall_impl; [|exact Ehere]. intros c [Hlen Hsub].
      split; [lia | exact (substring_trans _ _ _ Hsub Hch)].
    + injection Ehere as <-. constructor; [|constructor]. cbn [PDF.content].
      split; [lia | exact Hch].
Qed.

End ChunkBounds.

Lemma chapters_of_excerpts (text : str) : forall starts i,
  Forall (fun ch => substring (PDF.ch_content ch) text) (PDF.chapters_of text i starts).
Proof.
  induction starts as [|a later IH]; intros i; cbn [PDF.chapters_of]; constructor.
  - cbn [PDF.ch_content].
    exact (substring_trans _ _ _ (strip_substring _) (slice_substring _ _ _)).
  - apply IH.
Qed.

Lemma backfill_forall (P : str -> Prop) (chunks : list PDF.chunk) :
  Forall (fun c => P (PDF.content c)) chunks ->
  Forall (fun c => P (PDF.content c)) (PDF.backfill chunks).
Proof.
  intros Hall. unfold PDF.backfill. apply Forall_map.
  eapply Forall_impl; [|exact Hall]. intros c Hc. exact Hc.
Qed.

(** X24. The chunks of [chunk_text] are bounded excerpts of the document:
    under a configuration that lets the loops advance, the content of
    every chunk occurs in the cleaned text as it stands, and is at most
    max(2 * chunk_size, chunk_size + 200) characters long (a whole chapter
    may have up to twice the chunk size; a part of a split chapter ends at
    most 200 characters after the chunk size). *)
Theorem chunks_are_bounded_excerpts (chunk_size chunk_overlap : Z) (fuel : nat)
    (text title : str) (chunks : list PDF.chunk) :
  advancing chunk_size chunk_overlap ->
  PDF.chunk_text chunk_size chunk_overlap fuel text title = Ok chunks ->
  Forall (fun c =>
            (len (PDF.content c) <= Z.max (2 * chunk_size) (chunk_size + 200))%Z
            /\ substring (PDF.content c) (PDF.clean text)) chunks.
Proof.
  intros Hadv E. rewrite chunk_text_unfold in E. pose proof Hadv as (Hov & Hcs & Hcs2).
  destruct (Z.leb_spec (len (PDF.clean text)) chunk_size) as [Hle|_].
  { injection E as <-. constructor; [|constructor]. cbn [PDF.content].
    split; [lia | exists [], []; rewrite app_nil_r; reflexivity]. }
  unfold PDF._find_chapter_boundaries in E.
  destruct (first_pattern_cases PDF.chapter_patterns (PDF.clean text))
    as [Enone | [p [_ [_ Ech]]]].
  - rewrite Enone in E. unfold PDF._size_based_chunking in E.
    apply outcome_bind_ok in E as [raw [Eraw E]]. injection E as <-.
    apply (backfill_forall
             (fun s => (len s <= Z.max (2 * chunk_size) (chunk_size + 200))%Z
                       /\ substring s (PDF.clean text))).
    apply (size_loop_excerpts chunk_size chunk_overlap Hadv) in Eraw; [|lia].
    eapply Forall_impl; [|exact Eraw]. intros c [Hlen Hsub]. split; [lia | exact Hsub].
  - rewrite Ech in E.
    destruct (PDF.chapters_of (PDF.clean text) 0 (map fst (Re.finditer p (PDF.clean text))))
      as [|ch chs] eqn:Echs.
    + unfold PDF._size_based_chunking in E.
      apply outcome_bind_ok in E as [raw [Eraw E]]. injection E as <-.
      apply (backfill_forall
               (fun s => (len s <= Z.max (2 * chunk_size) (chunk_size + 200))%Z
                         /\ substring s (PDF.clean text))).
      apply (size_loop_excerpts chunk_size chunk_overlap Hadv) in Eraw; [|lia].
      eapply Forall_impl; [|exact Eraw]. intros c [Hlen Hsub]. split; [lia | exact Hsub].
    + unfold PDF._process_chapter_chunks in E.
      apply outcome_bind_ok in E as [raw [Eraw E]]. injection E as <-.
      apply (backfill_forall
               (fun s => (len s <= Z.max (2 * chunk_size) (chunk_size + 200))%Z
                         /\ substring s (PDF.clean text))).
      eapply (chapter_loop_excerpts chunk_size chunk_overlap Hadv); [|exact Eraw].
      rewrite <- Echs. apply chapters_of_excerpts.
Qed.

Lemma chunks_are_bounded_excerpts_witness :
  exists chunks,
    PDF.chunk_text 100 0 400 short_preface_text (lit "Book") = Ok chunks
    /\ Forall (fun c => (len (PDF.content c) <= 300)%Z) chunks.
Proof.
  destruct (PDF.chunk_text 100 0 400 short_preface_text (lit "Book"))
    as [chunks| |] eqn:E; [|vm_compute in E; discriminate E ..].
  exists chunks. split; [reflexivity|].
  assert (advancing 100 0) as Hadv by (unfold advancing; lia).
  pose proof (chunks_are_bounded_excerpts 100 0 400 short_preface_text (lit "Book")
                chunks Hadv E) as Hall.
  eapply Forall_impl; [|exact Hall]. intros c [Hlen _]. exact Hlen.
Defined.

(** ** Chunk titles *)

Section ChunkTitles.

Variables chunk_size chunk_overlap : Z.

Lemma size_loop_titles (text : str) :
  forall fuel start index chunks,
    PDF.size_loop chunk_size chunk_overlap fuel text start index = Ok chunks ->
    Forall (fun c => PDF.title c = lit "Section " ++ Py.str_of_nat (PDF.chunk_index c + 1))
           chunks.
Proof.
  induction fuel as [|fuel IH]; intros start index chunks; cbn [PDF.size_loop];
    [discriminate|].
  destruct (start <? len text)%Z; [|intros E; injection E as <-; constructor].
  intros E. apply outcome_bind_ok in E as [e [_ E]].
  destruct (Py.strip (Py.slice text start e)) as [|c t]; [eapply IH; exact E|].
  apply outcome_bind_ok in E as [rest [Erest E]]. injection E as <-.
  constructor; [reflexivity | eapply IH; exact Erest].
Qed.

Lemma split_loop_titles (content chapter_title : str) (chapter_index : nat) :
  forall fuel start part_index chunks,
    PDF.split_loop chunk_size chunk_overlap fuel content chapter_title
      chapter_index start part_index = Ok chunks ->
    Forall (fun c => exists k,
                part_index <= k
                /\ PDF.title c
                   = chapter_title ++ lit " (Part " ++ Py.str_of_nat k ++ lit ")")
           chunks.
Proof.
  induction fuel as [|fuel IH]; intros start part_index chunks; cbn [PDF.split_loop];
    [discriminate|].
  destruct (start <? len content)%Z; [|intros E; injection E as <-; constructor].
  intros E. apply outcome_bind_ok in E as [e [_ E]].
  destruct (Py.strip (Py.slice content start e)) as [|c t]; [eapply IH; exact E|].
  apply outcome_bind_ok in E as [rest [Erest E]]. injection E as <-.
  constructor; [exists part_index; split; [lia | reflexivity]|].
  apply IH in Erest. eapply Forall_impl; [|exact Erest].
  intros c' [k [Hk Ht]]. exists k. split; [lia | exact Ht].
Qed.

Lemma chapter_loop_titles (fuel n : nat) :
  forall chapters i chunks,
    PDF.chapter_loop chunk_size chunk_overlap fuel n i chapters = Ok chunks ->
    Forall (fun c => exists ch,
                In ch chapters
                /\ (PDF.title c = PDF.ch_title ch
                    \/ exists k,
                         1 <= k
                         /\ PDF.title c
                            = PDF.ch_title ch ++ lit " (Part " ++ Py.str_of_nat k
                                ++ lit ")"))
           chunks.
Proof.
  induction chapters as [|ch later IH]; intros i chunks; cbn [PDF.chapter_loop].
  - intros E. injection E as <-. constructor.
  - intros E. apply outcome_bind_ok in E as [here [Ehere E]].
    apply outcome_bind_ok in E as [rest [Erest E]]. injection E as <-.
    apply Forall_app. split.
    + destruct (len (PDF.ch_content ch) >? chunk_size * 2)%Z.
      * apply split_loop_titles in Ehere. eapply Forall_impl; [|exact Ehere].
        intros c [k [Hk Ht]]. exists ch. split; [left; reflexivity|]. right. eauto.
      * injection Ehere as <-. constructor; [|constructor].
        exists ch. split; [left; reflexivity | left; reflexivity].
    + apply IH in Erest. eapply Forall_impl; [|exact Erest].
      intros c [ch' [Hin Ht]]. exists ch'. split; [right; exact Hin | exact Ht].
Qed.

End ChunkTitles.

Lemma backfill_titles (P : PDF.chunk -> Prop) (chunks : list PDF.chunk) :
  (forall c n, P c -> P (PDF.set_total n c)) ->
  Forall P chunks -> Forall P (PDF.backfill chunks).
Proof.
  intros Hset Hall. unfold PDF.backfill. apply Forall_map.
  eapply Forall_impl; [|exact Hall]. intros c Hc. apply Hset, Hc.
Qed.

(** X25. The title given to [chunk_text] is used for a document of at most
    chunk_size characters only.  For a longer document the chunks do not
    depend on it: without chapters they are titled "Section 1",
    "Section 2", ... after their index, and with chapters every chunk is
    titled after a chapter found in the text, as the chapter title or as
    "<chapter title> (Part k)" with k >= 1. *)
Theorem long_document_titles (chunk_size chunk_overlap : Z) (fuel : nat)
    (text title : str) :
  (chunk_size < len (PDF.clean text))%Z ->
  (forall title',
     PDF.chunk_text chunk_size chunk_overlap fuel text title
     = PDF.chunk_text chunk_size chunk_overlap fuel text title')
  /\ (forall chunks,
        PDF.chunk_text chunk_size chunk_overlap fuel text title = Ok chunks ->
        match PDF._find_chapter_boundaries (PDF.clean text) with
        | [] =>
            Forall (fun c => PDF.title c
                             = lit "Section " ++ Py.str_of_nat (PDF.chunk_index c + 1))
                   chunks
        | chapters =>
            Forall (fun c => exists ch,
                        In ch chapters
                        /\ (PDF.title c = PDF.ch_title ch
                            \/ exists k,
                                 1 <= k
                                 /\ PDF.title c
                                    = PDF.ch_title ch ++ lit " (Part "
                                        ++ Py.str_of_nat k ++ lit ")"))
                   chunks
        end).
Proof.
  intros Hlong. split.
  - intros title'. rewrite !chunk_text_unfold.
    destruct (Z.leb_spec (len (PDF.clean text)) chunk_size); [lia|].
    destruct (PDF._find_chapter_boundaries (PDF.clean text)); reflexivity.
  - intros chunks. rewrite chunk_text_unfold.
    destruct (Z.leb_spec (len (PDF.clean text)) chunk_size); [lia|].
    destruct (PDF._find_chapter_boundaries (PDF.clean text)) as [|ch later].
    + unfold PDF._size_based_chunking. intros E.
      apply outcome_bind_ok in E as [raw [Eraw E]]. injection E as <-.
      apply backfill_titles; [intros c n Hc; exact Hc|].
      eapply size_loop_titles. exact Eraw.
    + unfold PDF._process_chapter_chunks. intros E.
      apply outcome_bind_ok in E as [raw [Eraw E]]. injection E as <-.
      apply backfill_titles; [intros c n Hc; exact Hc|].
      eapply chapter_loop_titles. exact Eraw.
Qed.

Lemma long_document_titles_witness :
  PDF.chunk_text 100 0 400 short_plain_text (lit "Book")
  = PDF.chunk_text 100 0 400 short_plain_text (lit "Another title").
Proof.
  assert (100 < len (PDF.clean short_plain_text))%Z as Hlong
    by (vm_compute; reflexivity).
  exact (proj1 (long_document_titles 100 0 400 short_plain_text (lit "Book") Hlong)
           (lit "Another title")).
Defined.
